(** * siyuan-sync: the synchronisation engine, embedded and verified

    A shallow embedding of the TypeScript sources under [src/sync] (and of
    the chunked uploader of the 123 Pan client): pure decision functions
    become Rocq functions, asynchronous methods become programs over an
    explicit event signature, and the mutable fields of the manager objects
    are threaded as state.  Timestamps are JavaScript numbers holding epoch
    seconds or milliseconds; they are modelled as [Z]. *)

From Stdlib Require Import ZArith List String Ascii Bool Lia.
From stdpp Require Import base option gmap strings list.

Import ListNotations.
Local Open Scope string_scope.
Local Open Scope Z_scope.

(** ** JavaScript odds and ends *)

Module Js.

(** [x || 0] on a number: [0] is the only falsy integer. *)
Definition or_zero (x : Z) : Z := if x =? 0 then 0 else x.

(** [s || d] on strings: the empty string is falsy. *)
Definition or_string (s d : string) : string :=
  match s with EmptyString => d | _ => s end.

(** [o || d] on an optional string ([undefined] and [""] are both falsy). *)
Definition opt_or_string (o : option string) (d : string) : string :=
  match o with Some s => or_string s d | None => d end.

(** Numbers as far as the engine needs them: integers and [NaN]. *)
Inductive number : Type :=
| Num (z : Z)
| NaN.

Definition sub (a b : number) : number :=
  match a, b with
  | Num x, Num y => Num (x - y)
  | _, _ => NaN
  end.

(** [a < b]: every comparison with [NaN] is [false]. *)
Definition lt (a b : number) : bool :=
  match a, b with
  | Num x, Num y => x <? y
  | _, _ => false
  end.

End Js.

(** ** remote.ts *)

Record Remote : Type := mkRemote {
  name : string;
  isCloud : bool;
  instanceId : option string;
  syncHistory : gmap string Z
}.

(** ** sync-history.ts (the pure accessors) *)

Module SyncHistory.

(** [remote.syncHistory.get(instanceId) || 0]; the [!remote.syncHistory]
    guard cannot fire, the field always holds a [Map]. *)
Definition getLastSyncWithRemote (remote : Remote) (id : option string) : Z :=
  match id with
  | Some key =>
      match syncHistory remote !! key with
      | Some t => Js.or_zero t
      | None => 0
      end
  | None => 0 (* [Map.get(undefined)]: no such key *)
  end.

(** [Math.max(...values)], and [0] for an empty history. *)
Definition getMostRecentSyncTime (remote : Remote) : Z :=
  match (map_to_list (syncHistory remote)).*2 with
  | [] => 0
  | v :: vs => fold_left Z.max vs v
  end.

End SyncHistory.

(** ** conflict-handler.ts: detection *)

Module ConflictHandler.

Definition detectConflict (path : string) (localTimestamp cloudTimestamp : Z)
    (localRemote cloudRemote : Remote) : bool :=
  let localLastSync :=
    SyncHistory.getLastSyncWithRemote localRemote
      (Some (Js.opt_or_string (instanceId cloudRemote) "")) in
  let cloudLastSync :=
    SyncHistory.getLastSyncWithRemote cloudRemote
      (Some (Js.opt_or_string (instanceId localRemote) "")) in
  if (localLastSync =? 0) && (cloudLastSync =? 0) then false
  else if localTimestamp =? cloudTimestamp then false
  else
    let localModified := localLastSync <? localTimestamp in
    let cloudModified := cloudLastSync <? cloudTimestamp in
    if localModified && cloudModified then true else false.

End ConflictHandler.

(** The id a remote is looked up under in its peer's history:
    [instanceId || ""]. *)
Definition peerId (r : Remote) : string := Js.opt_or_string (instanceId r) "".

(** ** Data exchanged with the hub and with the SiYuan kernel *)

Record Error : Type := mkError { message : string }.

Inductive Result (A : Type) : Type :=
| Ok (a : A)
| Err (e : Error).
Arguments Ok {A} a.
Arguments Err {A} e.

(** [CloudFile] of the 123 Pan client: one entry of a folder listing. *)
Record CloudFile : Type := mkCloudFile {
  fileId : Z;
  filename : string;
  parentFileId : Z;
  type : Z; (* 0 file, 1 folder *)
  etag : string;
  size : Z;
  createAt : string;
  updateAt : string
}.

(** cloud-index.ts: [CloudFileInfo] and [CloudIndexV2]. *)
Record CloudFileInfo : Type := mkCloudFileInfo {
  cfi_name : string;
  cfi_path : string;
  cfi_encodedFileName : string;
  cfi_fileId : Z;
  cfi_updated : Z;
  cfi_size : Z;
  cfi_md5 : option string;
  cfi_isDir : bool
}.

(** ** A plain object used as a map

    [index.files] is a plain object: reading a property, testing it with
    [in] and assigning to it go through the prototype chain.  The object
    is modelled by its own properties (a [gmap]) and its prototype:
    [Object.prototype], as for an object literal or a [JSON.parse] result,
    or the entry installed by an assignment to ["__proto__"]. *)

Module JsObject.

(** What reading a property can yield. *)
Inductive Value : Type :=
| VInfo (info : CloudFileInfo)   (* an entry: an own property, or the entry
                                    installed as prototype, read at ["__proto__"] *)
| VString (s : string)           (* a field of the entry installed as prototype *)
| VNumber (n : Z)
| VBoolean (b : bool)
| VFunction (name : string)      (* a method of [Object.prototype] *)
| VObjectPrototype.              (* [Object.prototype] itself, read at ["__proto__"] *)

Definition truthy (v : Value) : bool :=
  match v with
  | VInfo _ | VFunction _ | VObjectPrototype => true
  | VString s => match s with EmptyString => false | _ => true end
  | VNumber n => negb (n =? 0)
  | VBoolean b => b
  end.

(** The methods every plain object inherits from [Object.prototype]. *)
Definition methods : list string :=
  [ "constructor"; "hasOwnProperty"; "isPrototypeOf"; "propertyIsEnumerable";
    "toLocaleString"; "toString"; "valueOf";
    "__defineGetter__"; "__defineSetter__"; "__lookupGetter__"; "__lookupSetter__" ].

Definition method (key : string) : option Value :=
  if existsb (String.eqb key) methods then Some (VFunction key) else None.

(** The own properties of an entry; an entry without [md5] has no such
    property. *)
Definition field (info : CloudFileInfo) (key : string) : option Value :=
  if String.eqb key "name" then Some (VString (cfi_name info))
  else if String.eqb key "path" then Some (VString (cfi_path info))
  else if String.eqb key "encodedFileName" then Some (VString (cfi_encodedFileName info))
  else if String.eqb key "fileId" then Some (VNumber (cfi_fileId info))
  else if String.eqb key "updated" then Some (VNumber (cfi_updated info))
  else if String.eqb key "size" then Some (VNumber (cfi_size info))
  else if String.eqb key "md5" then VString <$> cfi_md5 info
  else if String.eqb key "isDir" then Some (VBoolean (cfi_isDir info))
  else None.

(** What the prototype chain holds at [key], own properties aside. *)
Definition inherited (proto : option CloudFileInfo) (key : string) : option Value :=
  if String.eqb key "__proto__" then
    Some (match proto with Some entry => VInfo entry | None => VObjectPrototype end)
  else
    match proto with
    | Some entry =>
        match field entry key with
        | Some v => Some v
        | None => method key
        end
    | None => method key
    end.

(** [obj[key]]; [None] is [undefined]. *)
Definition get (own : gmap string CloudFileInfo) (proto : option CloudFileInfo)
    (key : string) : option Value :=
  match own !! key with
  | Some info => Some (VInfo info)
  | None => inherited proto key
  end.

(** [key in obj] *)
Definition has (own : gmap string CloudFileInfo) (proto : option CloudFileInfo)
    (key : string) : bool :=
  match get own proto key with Some _ => true | None => false end.

(** [obj[key]] used as a condition. *)
Definition test (own : gmap string CloudFileInfo) (proto : option CloudFileInfo)
    (key : string) : bool :=
  match get own proto key with Some v => truthy v | None => false end.

(** [obj[key] = info]: an assignment to ["__proto__"] reaches the setter of
    [Object.prototype] and installs [info] as prototype, unless the object
    has an own property of that name (as [JSON.parse] can create). *)
Definition set (own : gmap string CloudFileInfo) (proto : option CloudFileInfo)
    (key : string) (info : CloudFileInfo) :
    gmap string CloudFileInfo * option CloudFileInfo :=
  if String.eqb key "__proto__" &&
     match own !! key with Some _ => false | None => true end
  then (own, Some info)
  else (<[key := info]> own, proto).

End JsObject.

Record CloudIndexV2 : Type := mkCloudIndexV2 {
  version : Z;
  lastUpdated : Z;
  indexInstanceId : string;
  files : gmap string CloudFileInfo;          (* the own properties of [files] *)
  filesPrototype : option CloudFileInfo       (* its prototype; [None] is [Object.prototype] *)
}.

(** What [response.json()] hands to [load] before any validation: the
    [version] may be missing or not a number, and so may [files]. *)
Record IndexJson : Type := mkIndexJson {
  j_version : option Z;
  j_lastUpdated : Z;
  j_instanceId : string;
  j_files : option (gmap string CloudFileInfo)
}.

(** Payloads written to the hub or to the kernel. *)
Inductive Body : Type :=
| BText (s : string)
| BIndex (doc : CloudIndexV2)             (* JSON.stringify(index) *)
| BLock (timestamp : Z) (holder : string) (* JSON.stringify({timestamp, instanceId}) *)
| BBlob (blob : string).                  (* file bytes read back from a fetch *)

(** A [fetch] response.  [text] and [blob] are what [response.text()] and
    [response.blob()] resolve to; [json] is [None] when [response.json()]
    rejects (not JSON) or yields a value whose fields cannot be read. *)
Record Response : Type := mkResponse {
  ok : bool;
  status : Z;
  statusText : string;
  text : string;
  json : option IndexJson
}.

Record UploadResult : Type := mkUploadResult {
  ur_fileId : Z;
  ur_completed : bool
}.

(** Return value of [SyncUtils.uploadLocalFileToCloud]. *)
Record UploadMeta : Type := mkUploadMeta {
  um_fileId : Z;
  um_md5 : string;
  um_size : Z
}.

(** The outcome of one chunk submission, as [uploadSliceWithRetry] sees it. *)
Inductive SliceReply : Type :=
| SliceTimeout                                  (* AbortError after UPLOAD_TIMEOUT *)
| SliceNetworkError (e : Error)                 (* fetch rejected, or a reply that is not JSON *)
| SliceHttpError (status : Z) (statusText : string) (* !response.ok *)
| SliceServerError (code : Z) (msg : option string) (* reply.code !== 0 *)
| SliceAccepted (serverMd5 : option string).    (* reply.code === 0 *)

(** ** Requests to the outside world *)

Inductive Event : Type :=
(* Pan123Client *)
| ListFiles (parent : Z)
| DeleteFiles (fileIds : list (option Z)) (* [undefined] ids included *)
| UploadSingle (parentId : Z) (fname : string) (content : Body) (duplicateStrategy : Z)
| GetDownloadUrl (id : Z)
(* browser *)
| Fetch (url : string)
| DateNow
| RandomUUID
| ShowMessage (msg : string) (timeout : Z) (kind : string)
| Sleep (ms : Z)
(* SiYuan kernel API *)
| KernelGetFile (path : string)
| KernelPutFile (path : string) (content : Body) (modTime : Z)
| KernelRemoveFile (path : string)
(* SyncUtils transfers *)
| UploadLocalFileToCloud (remoteFolderId : Z) (path fileName : string)
| DownloadCloudFileToLocal (id : option Z) (path : string) (timestamp : Z)
(* the uploader: one POST of /upload/v2/file/slice, one progress callback *)
| Progress (uploadedBytes totalBytes currentSlice totalSlices : Z)
| PostSlice (server preuploadId : string) (sliceNo offset stop : Z) (sliceMD5 : string).

Definition Resp (ev : Event) : Type :=
  match ev with
  | ListFiles _ => Result (list CloudFile)
  | DeleteFiles _ => Result unit
  | UploadSingle _ _ _ _ => Result UploadResult
  | GetDownloadUrl _ => Result string
  | Fetch _ => Result Response
  | DateNow => Z
  | RandomUUID => string
  | ShowMessage _ _ _ => unit
  | Sleep _ => unit
  | KernelGetFile _ => Result Response
  | KernelPutFile _ _ _ => Result Response
  | KernelRemoveFile _ => Result Response
  | UploadLocalFileToCloud _ _ _ => Result UploadMeta
  | DownloadCloudFileToLocal _ _ _ => Result unit
  | Progress _ _ _ _ => unit
  | PostSlice _ _ _ _ _ _ => SliceReply
  end.

(** Requests that change persisted state on either endpoint. *)
Definition mutating (ev : Event) : bool :=
  match ev with
  | DeleteFiles _ | UploadSingle _ _ _ _ | KernelPutFile _ _ _
  | KernelRemoveFile _ | UploadLocalFileToCloud _ _ _
  | DownloadCloudFileToLocal _ _ _ | PostSlice _ _ _ _ _ _ => true
  | _ => false
  end.

(** ** Programs: trees of requests *)

Inductive Prog (A : Type) : Type :=
| Ret (a : A)
| Call (ev : Event) (k : Resp ev -> Prog A).
Arguments Ret {A} a.
Arguments Call {A} ev k.

Fixpoint pbind {A B : Type} (p : Prog A) (f : A -> Prog B) : Prog B :=
  match p with
  | Ret a => f a
  | Call ev k => Call ev (fun r => pbind (k r) f)
  end.

(** One observed step: the request and what the world answered. *)
Definition Obs : Type := { ev : Event & Resp ev }.

Definition obs_event (o : Obs) : Event := projT1 o.

(** Running a program against a world [W] that answers every request. *)
Section Run.
Context {W : Type} (respond : forall ev : Event, W -> Resp ev * W).

Fixpoint run {A : Type} (p : Prog A) (w : W) : list Obs * A * W :=
  match p with
  | Ret a => ([], a, w)
  | Call ev k =>
      let '(r, w1) := respond ev w in
      let '(tr, a, w2) := run (k r) w1 in
      (existT ev r :: tr, a, w2)
  end.
End Run.

Definition trace_of {A W : Type} (x : list Obs * A * W) : list Obs := x.1.1.
Definition value_of {A W : Type} (x : list Obs * A * W) : A := x.1.2.
Definition world_of {A W : Type} (x : list Obs * A * W) : W := x.2.

(** [always P p]: whatever the world answers, the run of [p] produces a
    trace and a value related by [P]. *)
Fixpoint always {A : Type} (P : list Obs -> A -> Prop) (p : Prog A) : Prop :=
  match p with
  | Ret a => P [] a
  | Call ev k => forall r : Resp ev, always (fun tr a => P (existT ev r :: tr) a) (k r)
  end.

(** ** Methods: programs over the fields of [this], which may throw *)

Definition M (S A : Type) : Type := S -> Prog (Result A * S).

Section Monad.
Context {S : Type}.

Definition ret {A} (a : A) : M S A := fun s => Ret (Ok a, s).

Definition throw {A} (e : Error) : M S A := fun s => Ret (Err e, s).

Definition bind {A B} (m : M S A) (f : A -> M S B) : M S B :=
  fun s => pbind (m s) (fun x =>
    match x.1 with
    | Ok a => f a x.2
    | Err e => Ret (Err e, x.2)
    end).

(** [try { m } catch (e) { h e }] *)
Definition try_catch {A} (m : M S A) (h : Error -> M S A) : M S A :=
  fun s => pbind (m s) (fun x =>
    match x.1 with
    | Ok a => Ret (Ok a, x.2)
    | Err e => h e x.2
    end).

(** [try { m } finally { f }]: [f] always runs; if it throws, its error
    replaces the outcome of [m]. *)
Definition try_finally {A} (m : M S A) (f : M S unit) : M S A :=
  fun s => pbind (m s) (fun x =>
    pbind (f x.2) (fun y =>
      match y.1 with
      | Ok _ => Ret (x.1, y.2)
      | Err e => Ret (Err e, y.2)
      end)).

Definition get : M S S := fun s => Ret (Ok s, s).
Definition gets {A} (f : S -> A) : M S A := fun s => Ret (Ok (f s), s).
Definition modify (f : S -> S) : M S unit := fun s => Ret (Ok tt, f s).

(** A request whose answer is the awaited value. *)
Definition ask (ev : Event) : M S (Resp ev) :=
  fun s => Call ev (fun r => Ret (Ok r, s)).

(** A request that may reject. *)
Definition await {A} (ev : Event) (cast : Resp ev -> Result A) : M S A :=
  fun s => Call ev (fun r => Ret (cast r, s)).
End Monad.

(** Running a method of a sub-object held in a field. *)
Definition zoom {S T A : Type} (proj : S -> T) (upd : T -> S -> S)
    (m : M T A) : M S A :=
  fun s => pbind (m (proj s)) (fun x => Ret (x.1, upd x.2 s)).

Declare Scope method_scope.
Delimit Scope method_scope with method.
Notation "'let*' x ':=' m 'in' k" := (bind m (fun x => k))
  (at level 10, x pattern, m at level 100, k at level 200) : method_scope.
Notation "m ';;;' k" := (bind m (fun _ => k))
  (at level 100, k at level 200, right associativity) : method_scope.
Local Open Scope method_scope.

Section Requests.
Context {S : Type}.

Definition listFiles (parent : Z) : M S (list CloudFile) :=
  await (ListFiles parent) (fun r => r).
Definition deleteFiles (ids : list (option Z)) : M S unit :=
  await (DeleteFiles ids) (fun r => r).
Definition uploadSingle (parentId : Z) (fname : string) (content : Body)
    (duplicateStrategy : Z) : M S UploadResult :=
  await (UploadSingle parentId fname content duplicateStrategy) (fun r => r).
Definition getDownloadUrl (id : Z) : M S string :=
  await (GetDownloadUrl id) (fun r => r).
Definition fetch (url : string) : M S Response :=
  await (Fetch url) (fun r => r).
Definition kernelGetFile (path : string) : M S Response :=
  await (KernelGetFile path) (fun r => r).
Definition kernelPutFile (path : string) (content : Body) (modTime : Z) :
    M S Response :=
  await (KernelPutFile path content modTime) (fun r => r).
Definition kernelRemoveFile (path : string) : M S Response :=
  await (KernelRemoveFile path) (fun r => r).
Definition dateNow : M S Z := ask DateNow.
Definition randomUUID : M S string := ask RandomUUID.
Definition showMessage (msg : string) (timeout : Z) (kind : string) : M S unit :=
  ask (ShowMessage msg timeout kind).
Definition sleep (ms : Z) : M S unit := ask (Sleep ms).
End Requests.

(** [files.find((f) => f.type === 0 && f.filename === name)] *)
Definition findFile (fname : string) (listing : list CloudFile) : option CloudFile :=
  List.find (fun f => (type f =? 0) && (filename f =? fname)%string) listing.
Arguments findFile : simpl never.

(** ** cloud-index.ts *)

Module CloudIndexManager.

Record t : Type := mk {
  remoteFolderId : Z;
  currentIndex : option CloudIndexV2
}.

Definition indexFileName : string := "cloud-index-v2.json".

Definition setCurrentIndex (idx : CloudIndexV2) : M t unit :=
  modify (fun this => mk (remoteFolderId this) (Some idx)).

Definition createEmptyIndex : M t CloudIndexV2 :=
  let* now := dateNow in
  ret (mkCloudIndexV2 2 now "" ∅ None).

(** [this.currentIndex = this.createEmptyIndex(); return this.currentIndex]. *)
Definition resetToEmpty : M t CloudIndexV2 :=
  let* idx := createEmptyIndex in
  setCurrentIndex idx ;;;
  ret idx.

Definition load : M t CloudIndexV2 :=
  let* this := get in
  match currentIndex this with
  | Some idx => ret idx
  | None =>
      try_catch
        (let* listing := listFiles (remoteFolderId this) in
         match findFile indexFileName listing with
         | None => resetToEmpty
         | Some indexFile =>
             let* downloadUrl := getDownloadUrl (fileId indexFile) in
             let* response := fetch downloadUrl in
             if negb (ok response) then resetToEmpty
             else
               match json response with
               | None => throw (mkError "Unexpected token in JSON")
               | Some indexData =>
                   match j_version indexData with
                   | Some 2 =>
                       (* Object.keys(this.currentIndex.files) throws on a
                          document without [files] *)
                       match j_files indexData with
                       | None =>
                           throw (mkError "Cannot convert undefined or null to object")
                       | Some fs =>
                           let idx := mkCloudIndexV2 2 (j_lastUpdated indexData)
                                        (j_instanceId indexData) fs None in
                           setCurrentIndex idx ;;;
                           ret idx
                       end
                   | _ => resetToEmpty
                   end
               end
         end)
        (fun _ => resetToEmpty)
  end.

(** A reference to an index document.  The documents of this program live
    in the cache: [load] returns [this.currentIndex] itself, and every call
    of [save] in the repository passes the object [load] returned. *)
Inductive IndexRef : Type := Cached.

Definition deref (index : IndexRef) (this : t) : option CloudIndexV2 :=
  match index with
  | Cached => currentIndex this
  end.

(** [save(index?)].  [index || this.currentIndex]; the assignment to
    [indexToSave.lastUpdated] is an assignment to the cached object, and
    the closing [this.currentIndex = indexToSave] stores that same
    object. *)
Definition save (index : option IndexRef) : M t unit :=
  let* this := get in
  let indexToSave :=
    match index ≫= (fun ref => deref ref this) with
    | Some doc => Some doc
    | None => currentIndex this
    end in
  match indexToSave with
  | None => throw (mkError "No index to save")
  | Some indexToSave =>
      try_catch
        (let* now := dateNow in
         let stamped := mkCloudIndexV2 (version indexToSave) now
                          (indexInstanceId indexToSave) (files indexToSave)
                          (filesPrototype indexToSave) in
         setCurrentIndex stamped ;;;
         let* listing := listFiles (remoteFolderId this) in
         match findFile indexFileName listing with
         | Some oldIndexFile => deleteFiles [Some (fileId oldIndexFile)]
         | None => ret tt
         end ;;;
         let* lastModified := dateNow in
         let* _ := uploadSingle (remoteFolderId this) indexFileName (BIndex stamped) 2 in
         setCurrentIndex stamped)
        (fun error => throw error)
  end.

(** An assignment through the reference [load] returned. *)
Definition updateIndex (f : CloudIndexV2 -> CloudIndexV2) : M t unit :=
  modify (fun this => mk (remoteFolderId this) (f <$> currentIndex this)).

Definition setFiles (fs : gmap string CloudFileInfo) (idx : CloudIndexV2) : CloudIndexV2 :=
  mkCloudIndexV2 (version idx) (lastUpdated idx) (indexInstanceId idx) fs
    (filesPrototype idx).

(** [index.files[path]] used as a condition. *)
Definition listed (idx : CloudIndexV2) (path : string) : bool :=
  JsObject.test (files idx) (filesPrototype idx) path.

(** [index.files[path] = fileInfo] *)
Definition assign (path : string) (fileInfo : CloudFileInfo) (idx : CloudIndexV2) :
    CloudIndexV2 :=
  let '(own, proto) :=
    JsObject.set (files idx) (filesPrototype idx) path fileInfo in
  mkCloudIndexV2 (version idx) (lastUpdated idx) (indexInstanceId idx) own proto.

(** [delete index.files[path]]: an own property goes, the prototype stays. *)
Definition unassign (path : string) (idx : CloudIndexV2) : CloudIndexV2 :=
  setFiles (delete path (files idx)) idx.

Definition updateFile (path : string) (fileInfo : CloudFileInfo) : M t unit :=
  let* index := load in
  updateIndex (assign path fileInfo) ;;;
  save (Some Cached).

Definition removeFile (path : string) : M t unit :=
  let* index := load in
  if listed index path then
    updateIndex (unassign path) ;;;
    save (Some Cached)
  else ret tt.

(** The [forEach] of [removeFiles]: the document left and the count. *)
Fixpoint removeEach (paths : list string) (idx : CloudIndexV2) (removed : Z) :
    CloudIndexV2 * Z :=
  match paths with
  | [] => (idx, removed)
  | path :: rest =>
      if listed idx path then removeEach rest (unassign path idx) (removed + 1)
      else removeEach rest idx removed
  end.

Definition removeFiles (paths : list string) : M t unit :=
  let* index := load in
  let '(remaining, removed) := removeEach paths index 0 in
  updateIndex (fun _ => remaining) ;;;
  if 0 <? removed then save (Some Cached) else ret tt.

Definition getAllFiles : M t (gmap string CloudFileInfo) :=
  let* index := load in
  ret (files index).

Definition setInstanceId (id : string) : M t unit :=
  let* index := load in
  updateIndex (fun idx => mkCloudIndexV2 (version idx) (lastUpdated idx) id (files idx)
                            (filesPrototype idx)) ;;;
  save (Some Cached).

End CloudIndexManager.

(** ** Reading observations back *)

Definition obs_listing (o : Obs) : option (list CloudFile) :=
  match o with
  | existT ev r =>
      match ev as e return Resp e -> option (list CloudFile) with
      | ListFiles _ => fun r => match r with Ok l => Some l | Err _ => None end
      | _ => fun _ => None
      end r
  end.

Definition obs_url (o : Obs) : option string :=
  match o with
  | existT ev r =>
      match ev as e return Resp e -> option string with
      | GetDownloadUrl _ => fun r => match r with Ok u => Some u | Err _ => None end
      | _ => fun _ => None
      end r
  end.

Definition obs_response (o : Obs) : option Response :=
  match o with
  | existT ev r =>
      match ev as e return Resp e -> option Response with
      | Fetch _ => fun r => match r with Ok x => Some x | Err _ => None end
      | _ => fun _ => None
      end r
  end.

(** The mutating requests of a trace, in order. *)
Definition mutations (tr : list Obs) : list Event :=
  List.filter mutating (List.map obs_event tr).

(** ** Specification vocabulary for the index store *)

(** The document a run of [load] obtained from the hub, if its first three
    requests found the index object, resolved and downloaded it, and the
    body parsed to a version-2 document. *)
Definition downloadedIndex (tr : list Obs) : option CloudIndexV2 :=
  match tr with
  | o1 :: o2 :: o3 :: _ =>
      match obs_listing o1, obs_url o2, obs_response o3 with
      | Some listing, Some _, Some response =>
          match findFile CloudIndexManager.indexFileName listing, json response with
          | Some _, Some indexData =>
              match ok response, j_version indexData, j_files indexData with
              | true, Some 2, Some fs =>
                  Some (mkCloudIndexV2 2 (j_lastUpdated indexData)
                          (j_instanceId indexData) fs None)
              | _, _, _ => None
              end
          | _, _ => None
          end
      | _, _, _ => None
      end
  | _ => None
  end.

Definition emptyIndex (idx : CloudIndexV2) : Prop :=
  version idx = 2 /\ files idx = ∅ /\ filesPrototype idx = None /\
  indexInstanceId idx = "".

(** The ways fetching or parsing the hub index fails against an
    environment [respond], from the world [w] to the world in which the
    attempt is given up. *)
Inductive fetchFails {W : Type} (respond : forall ev, W -> Resp ev * W)
    (folder : Z) (w : W) : W -> Prop :=
| listingFails (e : Error) (w1 : W) :
    respond (ListFiles folder) w = (Err e, w1) ->
    fetchFails respond folder w w1
| indexMissing (listing : list CloudFile) (w1 : W) :
    respond (ListFiles folder) w = (Ok listing, w1) ->
    findFile CloudIndexManager.indexFileName listing = None ->
    fetchFails respond folder w w1
| urlFails (listing : list CloudFile) (indexFile : CloudFile) (e : Error)
    (w1 w2 : W) :
    respond (ListFiles folder) w = (Ok listing, w1) ->
    findFile CloudIndexManager.indexFileName listing = Some indexFile ->
    respond (GetDownloadUrl (fileId indexFile)) w1 = (Err e, w2) ->
    fetchFails respond folder w w2
| downloadFails (listing : list CloudFile) (indexFile : CloudFile)
    (url : string) (e : Error) (w1 w2 w3 : W) :
    respond (ListFiles folder) w = (Ok listing, w1) ->
    findFile CloudIndexManager.indexFileName listing = Some indexFile ->
    respond (GetDownloadUrl (fileId indexFile)) w1 = (Ok url, w2) ->
    respond (Fetch url) w2 = (Err e, w3) ->
    fetchFails respond folder w w3
| downloadAnswered (listing : list CloudFile) (indexFile : CloudFile)
    (url : string) (response : Response) (w1 w2 w3 : W) :
    respond (ListFiles folder) w = (Ok listing, w1) ->
    findFile CloudIndexManager.indexFileName listing = Some indexFile ->
    respond (GetDownloadUrl (fileId indexFile)) w1 = (Ok url, w2) ->
    respond (Fetch url) w2 = (Ok response, w3) ->
    (* a status that is not ok, a body that does not parse, another
       version, or a version-2 document without [files] *)
    (ok response = false \/
     json response = None \/
     exists indexData,
       json response = Some indexData /\
       (j_version indexData <> Some 2 \/ j_files indexData = None)) ->
    fetchFails respond folder w w3.

(** ** Strings, the JavaScript way *)

Module Str.

(** [s.lastIndexOf(c)] split: the text before and after the last [c]. *)
Fixpoint splitLast (c : ascii) (s : string) : option (string * string) :=
  match s with
  | EmptyString => None
  | String a rest =>
      match splitLast c rest with
      | Some (before, after) => Some (String a before, after)
      | None => if Ascii.eqb a c then Some (EmptyString, rest) else None
      end
  end.

(** [s.split(c).pop()] *)
Definition afterLast (c : ascii) (s : string) : string :=
  match splitLast c s with Some (_, after) => after | None => s end.

(** [s.split(c).slice(0, -1).join(c)] *)
Definition beforeLast (c : ascii) (s : string) : string :=
  match splitLast c s with Some (before, _) => before | None => EmptyString end.

Fixpoint includes (c : ascii) (s : string) : bool :=
  match s with
  | EmptyString => false
  | String a rest => Ascii.eqb a c || includes c rest
  end.

(** [s.replace(/^c+/, "")] *)
Fixpoint stripLeading (c : ascii) (s : string) : string :=
  match s with
  | String a rest => if Ascii.eqb a c then stripLeading c rest else s
  | EmptyString => EmptyString
  end.

(** [s.replace(/c+$/, "")] *)
Fixpoint stripTrailing (c : ascii) (s : string) : string :=
  match s with
  | EmptyString => EmptyString
  | String a rest =>
      match stripTrailing c rest with
      | EmptyString => if Ascii.eqb a c then EmptyString else String a EmptyString
      | kept => String a kept
      end
  end.

(** [s.replace(/.../g, to)] for a class of single characters. *)
Fixpoint replaceAll (class : ascii -> bool) (to : ascii) (s : string) : string :=
  match s with
  | EmptyString => EmptyString
  | String a rest => String (if class a then to else a) (replaceAll class to rest)
  end.

Definition isSlash (a : ascii) : bool := Ascii.eqb a "/".

(** [\s] on the characters a formatted date can hold, and [:]. *)
Definition isSpace (a : ascii) : bool :=
  let n := nat_of_ascii a in
  (n =? 32)%nat || ((9 <=? n)%nat && (n <=? 13)%nat).

Definition isColonOrSpace (a : ascii) : bool := Ascii.eqb a ":" || isSpace a.

(** [toLowerCase] on ASCII letters (digests are hexadecimal). *)
Definition lowerChar (a : ascii) : ascii :=
  let n := nat_of_ascii a in
  if (65 <=? n)%nat && (n <=? 90)%nat then ascii_of_nat (n + 32) else a.

Fixpoint toLowerCase (s : string) : string :=
  match s with
  | EmptyString => EmptyString
  | String a rest => String (lowerChar a) (toLowerCase rest)
  end.

Definition isDigit (a : ascii) : bool :=
  let n := nat_of_ascii a in (48 <=? n)%nat && (n <=? 57)%nat.

Fixpoint digitsFrom (fuel : nat) (n : Z) (acc : string) : string :=
  let acc' := String (ascii_of_nat (48 + Z.to_nat (n mod 10))) acc in
  match fuel with
  | O => acc'
  | S fuel' => if n <? 10 then acc' else digitsFrom fuel' (n / 10) acc'
  end.

(** [`${n}`] for an integer. *)
Definition ofZ (n : Z) : string :=
  if n <? 0 then String "-" (digitsFrom (Z.to_nat (Z.log2 (- n))) (- n) EmptyString)
  else digitsFrom (Z.to_nat (Z.log2 n)) n EmptyString.

(** Two-digit, zero-padded. *)
Definition pad2 (n : Z) : string :=
  if n <? 10 then String "0" (ofZ n) else ofZ n.

Fixpoint readDigits (s : string) (acc : Z) : option Z :=
  match s with
  | EmptyString => Some acc
  | String a rest =>
      if isDigit a then readDigits rest (10 * acc + Z.of_nat (nat_of_ascii a - 48))
      else None
  end.

Definition trim (s : string) : string :=
  let fix dropSpaces (s : string) : string :=
    match s with
    | String a rest => if isSpace a then dropSpaces rest else s
    | EmptyString => EmptyString
    end in
  let fix dropTrailing (s : string) : string :=
    match s with
    | EmptyString => EmptyString
    | String a rest =>
        match dropTrailing rest with
        | EmptyString => if isSpace a then EmptyString else String a EmptyString
        | kept => String a kept
        end
    end in
  dropTrailing (dropSpaces s).

(** [ToNumber] of a string, on the integer fragment: surrounding white
    space is ignored, the empty string is [0], an optionally signed run of
    decimal digits is that integer, and a text that is no numeric literal
    (a formatted date, for one) is [NaN].  Fractions, exponents, radix
    prefixes and [Infinity] are outside the fragment. *)
Definition toNumber (s : string) : Js.number :=
  match trim s with
  | EmptyString => Js.Num 0
  | String "-" (String a rest) =>
      match readDigits (String a rest) 0 with
      | Some n => Js.Num (- n)
      | None => Js.NaN
      end
  | String "+" (String a rest) =>
      match readDigits (String a rest) 0 with
      | Some n => Js.Num n
      | None => Js.NaN
      end
  | t =>
      match readDigits t 0 with
      | Some n => Js.Num n
      | None => Js.NaN
      end
  end.

End Str.

(** ** sync-targets.ts *)

Record SyncOptions : Type := mkSyncOptions {
  deleteFoldersOnly : option bool;
  onlyIfMissing : option bool;
  avoidDeletions : option bool;
  trackConflicts : option bool;
  trackUpdatedFiles : option bool
}.

Record SyncTarget : Type := mkSyncTarget {
  targetPath : string;
  excludedItems : option (list string);
  options : option SyncOptions
}.

(** [target.options?.flag] used as a condition. *)
Definition flag (proj : SyncOptions -> option bool) (target : SyncTarget) : bool :=
  match options target with
  | Some o => match proj o with Some b => b | None => false end
  | None => false
  end.

Definition shouldAvoidDeletion (path : string) (target : SyncTarget) (isDir : bool) : bool :=
  if flag avoidDeletions target then true
  else if flag deleteFoldersOnly target && negb isDir then true
  else false.

(** ** storage-item.ts *)

Record FileInfo : Type := mkFileInfo {
  fi_name : string;
  fi_path : string;
  fi_isDir : bool;
  fi_updated : Z;
  fi_size : option Z;
  fi_md5 : option string;
  fi_fileId : option Z
}.

#[warnings="-register-all"] Inductive StorageItem : Type :=
  mkStorageItem (path : string) (parentPath : option string)
                (item : option FileInfo) (children : list StorageItem).

Module StorageItem.

Definition path (s : StorageItem) : string :=
  match s with mkStorageItem p _ _ _ => p end.
Definition parentPath (s : StorageItem) : option string :=
  match s with mkStorageItem _ pp _ _ => pp end.
Definition item (s : StorageItem) : option FileInfo :=
  match s with mkStorageItem _ _ i _ => i end.
(** The field [files]. *)
Definition files (s : StorageItem) : list StorageItem :=
  match s with mkStorageItem _ _ _ fs => fs end.

(** The constructor rejects an empty path. *)
Definition new (p : string) (pp : option string) (i : option FileInfo)
    (fs : list StorageItem) : Result StorageItem :=
  match p with
  | EmptyString => Err (mkError "StorageItem path cannot be null or undefined")
  | _ => Ok (mkStorageItem p pp i fs)
  end.

(** [Map.prototype.set]: an existing key keeps its position and takes the
    new value, a new key goes last. *)
Fixpoint mapSet (k : string) (v : StorageItem) (m : list (string * StorageItem)) :
    list (string * StorageItem) :=
  match m with
  | [] => [(k, v)]
  | (k', v') :: rest =>
      if String.eqb k' k then (k', v) :: rest else (k', v') :: mapSet k v rest
  end.

(** [for (const file of list) filesMap.set(file.path, file)] *)
Definition setAll (items : list StorageItem) (m : list (string * StorageItem)) :
    list (string * StorageItem) :=
  fold_left (fun acc file => mapSet (path file) file acc) items m.

Definition joinItems (item1 item2 : option StorageItem) : Result StorageItem :=
  match item1, item2 with
  | None, None => Err (mkError "Cannot join two null items")
  | None, Some i2 => Ok i2
  | Some i1, None => Ok i1
  | Some i1, Some i2 =>
      if negb (String.eqb (path i1) (path i2)) then
        Err (mkError "Cannot join StorageItems with different paths")
      else
        let filesMap := setAll (files i1 ++ files i2) [] in
        new (path i1) (parentPath i1)
            (match item i1 with Some i => Some i | None => item i2 end)
            (List.map snd filesMap)
  end.

(** The child a path-keyed reading of [items] yields: the last one with
    that path. *)
Definition childAt (p : string) (items : list StorageItem) : option StorageItem :=
  List.find (fun c => String.eqb (path c) p) (rev items).

End StorageItem.

(** ** sync-manager.ts: the state of a [SyncManager] *)

Inductive ConflictStrategy : Type := keepBoth | keepNewer | keepLocal | keepRemote.

Inductive Operation : Type := OpUpload | OpDownload | OpDelete.

Record SyncError : Type := mkSyncError {
  se_path : string;
  se_operation : Operation;
  se_error : string;
  se_timestamp : Z
}.

Record SyncManager : Type := mkSyncManager {
  sm_remoteFolderId : Z;
  conflictDetected : bool;
  i18n : gmap string string;
  conflictStrategy : ConflictStrategy;
  cloudIndexManager : CloudIndexManager.t;
  syncErrors : list SyncError
}.

Definition setConflictDetected (b : bool) (this : SyncManager) : SyncManager :=
  mkSyncManager (sm_remoteFolderId this) b (i18n this) (conflictStrategy this)
    (cloudIndexManager this) (syncErrors this).

Definition setSyncErrors (errs : list SyncError) (this : SyncManager) : SyncManager :=
  mkSyncManager (sm_remoteFolderId this) (conflictDetected this) (i18n this)
    (conflictStrategy this) (cloudIndexManager this) errs.

Definition setCloudIndexManager (m : CloudIndexManager.t) (this : SyncManager) :
    SyncManager :=
  mkSyncManager (sm_remoteFolderId this) (conflictDetected this) (i18n this)
    (conflictStrategy this) m (syncErrors this).

(** [this.syncErrors.push(e)] *)
Definition pushSyncError (e : SyncError) (this : SyncManager) : SyncManager :=
  setSyncErrors (syncErrors this ++ [e]) this.

(** [this.i18n.key || fallback] *)
Definition i18nOr (key fallback : string) (this : SyncManager) : string :=
  Js.opt_or_string (i18n this !! key) fallback.

(** A method of [this.cloudIndexManager]. *)
Definition onIndex {A : Type} (m : M CloudIndexManager.t A) : M SyncManager A :=
  zoom cloudIndexManager setCloudIndexManager m.

Definition nl : string := String (ascii_of_nat 10) EmptyString.

(** [(error as Error).message] *)
Definition messageOf (error : Error) : string := message error.

(** [x!]: the non-null assertion is erased at run time. *)
Definition nonNull (o : option string) : string := default "" o.

(** ** The engine *)

Section Engine.

(** [ConflictHandler.getFormattedDate(new Date(ms))]: "YYYY-MM-DD HH:mm:ss"
    in the host's locale and time zone. *)
Variable getFormattedDate : Z -> string.

(** Steps 3 to 6 of [sync], between taking and releasing the lock: loading
    the histories, walking the targets, stamping and saving the histories. *)
Variable reconcile : Remote -> Remote -> M SyncManager unit.

(** *** conflict-handler.ts: resolution *)

Definition conflictFileName (path : string) (olderTimestamp : Z) : string :=
  let timestamp := olderTimestamp * 1000 in
  let formattedDate :=
    Str.replaceAll Str.isColonOrSpace "-" (getFormattedDate timestamp) in
  let fileName := Str.afterLast "/" path in
  let fileExt := if Str.includes "." fileName then Str.afterLast "." fileName else "" in
  let fileBaseName :=
    match fileExt with
    | EmptyString => fileName
    | _ => Str.beforeLast "." fileName
    end in
  (fileBaseName ++ " (冲突副本 " ++ formattedDate ++ ")" ++
   match fileExt with EmptyString => "" | _ => "." ++ fileExt end)%string.

Definition conflictPath (path : string) (olderTimestamp : Z) : string :=
  let dirPath := Str.beforeLast "/" path in
  (dirPath ++ "/" ++ conflictFileName path olderTimestamp)%string.

Definition handleConflict {S : Type} (path : string)
    (localTimestamp cloudTimestamp : Z) (message : string) : M S unit :=
  try_catch
    (let olderTimestamp := Z.min localTimestamp cloudTimestamp in
     let isLocalOlder := localTimestamp <? cloudTimestamp in
     let olderVersion := if isLocalOlder then "本地" else "云端" in
     (if isLocalOlder then
        let* response := kernelGetFile path in
        if ok response then
          let* _ := kernelPutFile (conflictPath path olderTimestamp)
                      (BBlob (text response)) olderTimestamp in
          ret tt
        else ret tt
      else ret tt) ;;;
     showMessage
       (message ++ ": " ++ path ++ nl ++
        olderVersion ++ "版本已保存为: " ++ conflictFileName path olderTimestamp ++ nl ++
        "较新版本将保留为原文件名。")%string
       10000 "info")
    (fun error =>
       showMessage ("处理冲突失败: " ++ path ++ " - " ++ messageOf error)%string
         10000 "error").

(** Returns [true] when the caller should go on and synchronise. *)
Definition handleConflictWithStrategy {S : Type} (path : string)
    (localTimestamp cloudTimestamp : Z) (strategy : ConflictStrategy)
    (message : string) : M S bool :=
  match strategy with
  | keepNewer =>
      showMessage (message ++ ": " ++ path ++ " - 将保留较新版本")%string 5000 "warning" ;;;
      ret true
  | keepLocal =>
      showMessage (message ++ ": " ++ path ++ " - 保留本地版本")%string 5000 "warning" ;;;
      ret false
  | keepRemote =>
      showMessage (message ++ ": " ++ path ++ " - 保留云端版本")%string 5000 "warning" ;;;
      ret true
  | keepBoth =>
      handleConflict path localTimestamp cloudTimestamp message ;;;
      ret true
  end.

(** *** sync-utils.ts: identities *)

Definition instanceIdPath : string := "/data/.siyuan/sync/instance-id".

Definition setLocalInstanceId {S : Type} (id : string) : M S unit :=
  let* lastModified := dateNow in
  let* now := dateNow in
  let* _ := kernelPutFile instanceIdPath (BText id) (now / 1000) in
  ret tt.

Definition getLocalInstanceId {S : Type} : M S string :=
  try_catch
    (let* response := kernelGetFile instanceIdPath in
     if status response =? 200 then ret (text response)
     else
       let* newInstanceId := randomUUID in
       setLocalInstanceId newInstanceId ;;;
       ret newInstanceId)
    (fun _ =>
       let* newInstanceId := randomUUID in
       setLocalInstanceId newInstanceId ;;;
       ret newInstanceId).

Definition setCloudInstanceId {S : Type} (remoteFolderId : Z) (id : string) : M S unit :=
  let* listing := listFiles remoteFolderId in
  match findFile "instance-id" listing with
  | Some oldInstanceIdFile => deleteFiles [Some (fileId oldInstanceIdFile)]
  | None => ret tt
  end ;;;
  let* lastModified := dateNow in
  let* _ := uploadSingle remoteFolderId "instance-id" (BText id) 2 in
  ret tt.

Definition getCloudInstanceId {S : Type} (remoteFolderId : Z) : M S string :=
  try_catch
    (let* listing := listFiles remoteFolderId in
     match findFile "instance-id" listing with
     | None =>
         let* newInstanceId := randomUUID in
         setCloudInstanceId remoteFolderId newInstanceId ;;;
         ret newInstanceId
     | Some instanceIdFile =>
         let* downloadUrl := getDownloadUrl (fileId instanceIdFile) in
         let* response := fetch downloadUrl in
         ret (text response)
     end)
    (fun _ =>
       let* newInstanceId := randomUUID in
       setCloudInstanceId remoteFolderId newInstanceId ;;;
       ret newInstanceId).

(** [/^\/+/] stripped, every [/] turned into [_]. *)
Definition encodePathToFileName (path : string) : string :=
  Str.replaceAll Str.isSlash "_" (Str.stripLeading "/" path).

(** *** sync-manager.ts: locking *)

Definition lockFileName : string := "sync.lock".
Definition fiveMinutesInMs : Z := 5 * 60 * 1000.

Definition initializeRemotes : M SyncManager (Remote * Remote) :=
  let* this := get in
  let* localId := getLocalInstanceId in
  let* cloudId := getCloudInstanceId (sm_remoteFolderId this) in
  ret (mkRemote "本地" false (Some localId) ∅,
       mkRemote "云端" true (Some cloudId) ∅).

(** [now - (lockFile.createAt || 0)]: [createAt] is a string, so the
    subtraction converts it with [ToNumber]. *)
Definition lockAge (now : Z) (lockFile : CloudFile) : Js.number :=
  Js.sub (Js.Num now)
    (match createAt lockFile with
     | EmptyString => Js.Num 0
     | s => Str.toNumber s
     end).

(** [new Error(this.i18n.syncLockAlreadyExists || ...)] *)
Definition lockError (this : SyncManager) : Error :=
  mkError (i18nOr "syncLockAlreadyExists" "同步锁已存在，请稍后再试" this).

(** The second half of [acquireLock]: the new lock file. *)
Definition createLock : M SyncManager unit :=
  let* this := get in
  let* timestamp := dateNow in
  let* holder := getLocalInstanceId in
  let* lastModified := dateNow in
  let* _ := uploadSingle (sm_remoteFolderId this) lockFileName
              (BLock timestamp holder) 2 in
  ret tt.

Definition acquireLock : M SyncManager unit :=
  let* this := get in
  let* listing := listFiles (sm_remoteFolderId this) in
  match findFile lockFileName listing with
  | Some lockFile =>
      let* now := dateNow in
      if Js.lt (lockAge now lockFile) (Js.Num fiveMinutesInMs) then
        throw (lockError this)
      else deleteFiles [Some (fileId lockFile)]
  | None => ret tt
  end ;;;
  createLock.

Definition releaseLock : M SyncManager unit :=
  try_catch
    (let* this := get in
     let* listing := listFiles (sm_remoteFolderId this) in
     match findFile lockFileName listing with
     | Some lockFile => deleteFiles [Some (fileId lockFile)]
     | None => ret tt
     end)
    (fun _ => ret tt).

(** *** sync-manager.ts: one run *)

(** Steps 1 and 1.5 of [sync]: the identities of both endpoints, then the
    index and its owner id. *)
Definition resolveAndBind : M SyncManager (Remote * Remote) :=
  let* remotes := initializeRemotes in
  let cloudRemote := remotes.2 in
  let* _ := onIndex CloudIndexManager.load in
  onIndex (CloudIndexManager.setInstanceId (nonNull (instanceId cloudRemote))) ;;;
  ret remotes.

(** The notice of the outer [catch]. *)
Definition syncFailedNotice (error : Error) (this : SyncManager) : string :=
  (i18nOr "syncFailed" "同步失败" this ++ ": " ++ message error)%string.

Definition sync : M SyncManager unit :=
  modify (setConflictDetected false) ;;;
  modify (setSyncErrors []) ;;;
  try_catch
    (let* remotes := resolveAndBind in
     let localRemote := remotes.1 in
     let cloudRemote := remotes.2 in
     acquireLock ;;;
     try_finally (reconcile localRemote cloudRemote) releaseLock)
    (fun error =>
       let* this := get in
       showMessage (syncFailedNotice error this) 7000 "error" ;;;
       throw error).

(** *** sync-manager.ts: transfers *)

Definition recordError (path : string) (op : Operation) (error : Error) :
    M SyncManager unit :=
  let* now := dateNow in
  modify (pushSyncError (mkSyncError path op (message error) now)).

Definition uploadFileToCloud (path : string) (localFile : FileInfo) : M SyncManager unit :=
  try_catch
    (let* this := get in
     let fileName := Js.or_string (Str.afterLast "/" path) "file" in
     let encodedFileName := encodePathToFileName path in
     let* uploadResult :=
       await (UploadLocalFileToCloud (sm_remoteFolderId this) path fileName)
             (fun r => r) in
     let* updated :=
       if fi_updated localFile =? 0 then dateNow else ret (fi_updated localFile) in
     let cloudFileInfo :=
       mkCloudFileInfo (fi_name localFile) path encodedFileName
         (um_fileId uploadResult) updated (um_size uploadResult)
         (Some (um_md5 uploadResult)) false in
     onIndex (CloudIndexManager.updateFile path cloudFileInfo))
    (fun error => recordError path OpUpload error ;;; throw error).

Definition downloadFileFromCloud (path : string) (cloudFile : FileInfo) :
    M SyncManager unit :=
  try_catch
    (await (DownloadCloudFileToLocal (fi_fileId cloudFile) path (fi_updated cloudFile))
           (fun r => r))
    (fun error => recordError path OpDownload error ;;; throw error).

(** *** sync-manager.ts: deletion against creation *)

(** [localFile?.updated || cloudFile?.updated || 0] *)
Definition existingTimestampOf (localFile cloudFile : option FileInfo) : Z :=
  match localFile with
  | Some l =>
      if fi_updated l =? 0
      then match cloudFile with Some c => Js.or_zero (fi_updated c) | None => 0 end
      else fi_updated l
  | None => match cloudFile with Some c => Js.or_zero (fi_updated c) | None => 0 end
  end.

(** [localFile?.isDir || cloudFile?.isDir || false] *)
Definition isDirOf (localFile cloudFile : option FileInfo) : bool :=
  match localFile with
  | Some l =>
      if fi_isDir l then true
      else match cloudFile with Some c => fi_isDir c | None => false end
  | None => match cloudFile with Some c => fi_isDir c | None => false end
  end.

Definition shouldDeleteOf (commonSync existingTimestamp mostRecentSync : Z) : bool :=
  (0 <? commonSync) && (existingTimestamp <? commonSync) &&
  (mostRecentSync <=? commonSync).

(** The branch "deleted locally": the hub object goes, then its index entry. *)
Definition deleteFromCloud (path : string) (cloudFile : FileInfo) : M SyncManager unit :=
  try_catch
    (deleteFiles [fi_fileId cloudFile] ;;;
     onIndex (CloudIndexManager.removeFile path))
    (fun error => recordError path OpDelete error ;;; throw error).

(** The branch "deleted on cloud": [SyncUtils.deleteLocalFile(path)]. *)
Definition deleteFromLocal (path : string) : M SyncManager unit :=
  try_catch
    (let* _ := kernelRemoveFile path in ret tt)
    (fun error => recordError path OpDelete error ;;; throw error).

Definition handleDeletion (path : string) (localFile cloudFile : option FileInfo)
    (localRemote cloudRemote : Remote) (target : option SyncTarget) :
    M SyncManager unit :=
  let missingLocal := match localFile with None => true | Some _ => false end in
  let existingTimestamp := existingTimestampOf localFile cloudFile in
  let commonSync :=
    if missingLocal
    then SyncHistory.getLastSyncWithRemote cloudRemote (instanceId localRemote)
    else SyncHistory.getLastSyncWithRemote localRemote (instanceId cloudRemote) in
  let mostRecentSync :=
    if missingLocal
    then SyncHistory.getMostRecentSyncTime cloudRemote
    else SyncHistory.getMostRecentSyncTime localRemote in
  let shouldDelete := shouldDeleteOf commonSync existingTimestamp mostRecentSync in
  let isDir := isDirOf localFile cloudFile in
  let avoidDeletion :=
    match target with
    | Some t => shouldAvoidDeletion path t isDir
    | None => false
    end in
  if shouldDelete && negb avoidDeletion then
    match localFile, cloudFile with
    | None, Some cloud => deleteFromCloud path cloud
    | Some _, _ => deleteFromLocal path
    | None, None => ret tt
    end
  else
    match localFile, cloudFile with
    | None, Some cloud => downloadFileFromCloud path cloud
    | Some loc, _ => uploadFileToCloud path loc
    | None, None => ret tt
    end.

(** *** sync-manager.ts: one file *)

Definition updatedOf (file : option FileInfo) : Z :=
  match file with Some f => Js.or_zero (fi_updated f) | None => 0 end.

Definition present (file : option FileInfo) : bool :=
  match file with Some _ => true | None => false end.

(** [target?.options?.trackConflicts !== false] *)
Definition shouldTrackConflictsOf (target : option SyncTarget) : bool :=
  match target with
  | Some t =>
      match options t with
      | Some o => match trackConflicts o with Some false => false | _ => true end
      | None => true
      end
  | None => true
  end.

Definition onlyIfMissingOf (target : option SyncTarget) : bool :=
  match target with Some t => flag onlyIfMissing t | None => false end.

Definition syncFile (path : string) (localFile cloudFile : option FileInfo)
    (localRemote cloudRemote : Remote) (target : option SyncTarget) :
    M SyncManager unit :=
  if negb (present localFile) && negb (present cloudFile) then ret tt
  else if onlyIfMissingOf target && (present localFile && present cloudFile) then ret tt
  else
    let localTimestamp := updatedOf localFile in
    let cloudTimestamp := updatedOf cloudFile in
    if present localFile && present cloudFile && (localTimestamp =? cloudTimestamp)
    then ret tt
    else
      let* shouldSync :=
        if shouldTrackConflictsOf target && present localFile && present cloudFile &&
           ConflictHandler.detectConflict path localTimestamp cloudTimestamp
             localRemote cloudRemote
        then
          modify (setConflictDetected true) ;;;
          let* this := get in
          handleConflictWithStrategy path localTimestamp cloudTimestamp
            (conflictStrategy this) (i18nOr "conflictDetected" "检测到冲突" this)
        else ret true in
      if negb shouldSync then ret tt
      else
        match localFile, cloudFile with
        | Some loc, Some cloud =>
            if cloudTimestamp <? localTimestamp then uploadFileToCloud path loc
            else if localTimestamp <? cloudTimestamp then downloadFileFromCloud path cloud
            else ret tt
        | _, _ =>
            handleDeletion path localFile cloudFile localRemote cloudRemote target
        end.

End Engine.

(** ** The chunked uploader of the 123 Pan client *)

Module Pan123Client.

Definition DEFAULT_SLICE_SIZE : Z := 16 * 1024 * 1024.
Definition UPLOAD_TIMEOUT : Z := 120000.
Definition MAX_SLICE_RETRIES : Z := 3.
Definition RETRY_DELAY : Z := 1000.

Record t : Type := mk { accessToken : option string }.

Record UploadSession : Type := mkUploadSession {
  us_fileId : option Z;
  us_reuse : option bool;
  us_preuploadId : option string;
  us_sliceSize : option Z;
  us_servers : option (list string)
}.

(** A [File]: its bytes. *)
Record File : Type := mkFile { bytes : string }.

Record UploadSingleOptions : Type := mkUploadSingleOptions {
  uo_parentId : Z;
  uo_file : File;
  uo_size : Z;
  uo_filename : string
}.

Record SliceUploadResult : Type := mkSliceUploadResult {
  success : bool;
  error : option Error
}.

(** [file.slice(offset, end)] *)
Definition slice (f : File) (offset stop : Z) : string :=
  String.substring (Z.to_nat offset) (Z.to_nat (stop - offset)) (bytes f).

Definition normalizeServer (server : string) : string :=
  if negb (String.prefix "http" server)
  then Str.stripTrailing "/" ("https://" ++ Str.stripLeading "/" server)%string
  else Str.stripTrailing "/" server.

(** [Math.ceil(a / b)] for a positive [b]. *)
Definition ceilDiv (a b : Z) : Z := - ((- a) / b).

Definition fuelExhausted : Error := mkError "fuel exhausted".

Section Upload.

(** [SparkMD5.ArrayBuffer]: the hexadecimal digest of a byte string. *)
Variable sparkMd5 : string -> string.

(** [this.authHeaders()] *)
Definition authHeaders : M t string :=
  let* this := get in
  match accessToken this with
  | None | Some EmptyString => throw (mkError "尚未设置访问凭证")
  | Some token => ret ("Bearer " ++ token)%string
  end.

(** The body of the outer [try] of one attempt: returns when the chunk was
    accepted and verified, throws otherwise. *)
Definition attemptSlice (server preuploadId : string) (file : File)
    (offset stop sliceNo : Z) (fname : string) : M t unit :=
  let buffer := slice file offset stop in
  let chunkMd5 := Str.toLowerCase (sparkMd5 buffer) in
  let* headers := authHeaders in
  let* reply := ask (PostSlice server preuploadId sliceNo offset stop chunkMd5) in
  match reply with
  | SliceTimeout =>
      throw (mkError ("分片 " ++ Str.ofZ sliceNo ++ " 上传超时 (" ++
                      Str.ofZ (UPLOAD_TIMEOUT / 1000) ++ "秒)")%string)
  | SliceNetworkError e => throw e
  | SliceHttpError st stText =>
      throw (mkError ("HTTP " ++ Str.ofZ st ++ ": " ++ stText)%string)
  | SliceServerError code msg =>
      throw (mkError ("分片 " ++ Str.ofZ sliceNo ++ " 上传失败: " ++
                      Js.opt_or_string msg "未知错误")%string)
  | SliceAccepted serverMd5 =>
      match serverMd5 with
      | Some digest =>
          if negb (String.eqb (Str.toLowerCase digest) chunkMd5) then
            throw (mkError ("分片 " ++ Str.ofZ sliceNo ++ " MD5校验失败 (本地: " ++
                            chunkMd5 ++ ", 服务器: " ++ digest ++ ")")%string)
          else ret tt
      | None => ret tt
      end
  end.

(** [for (let attempt = ...; attempt <= MAX_SLICE_RETRIES; attempt++)] *)
Fixpoint retryLoop (fuel : nat) (attempt : Z) (lastError : option Error)
    (server preuploadId : string) (file : File) (offset stop sliceNo : Z)
    (fname : string) : M t SliceUploadResult :=
  if attempt <=? MAX_SLICE_RETRIES then
    match fuel with
    | O => throw fuelExhausted
    | S fuel' =>
        let* failure :=
          try_catch
            (attemptSlice server preuploadId file offset stop sliceNo fname ;;;
             ret None)
            (fun error =>
               (if attempt <? MAX_SLICE_RETRIES
                then sleep (RETRY_DELAY * attempt)
                else ret tt) ;;;
               ret (Some error)) in
        match failure with
        | None => ret (mkSliceUploadResult true None)
        | Some error =>
            retryLoop fuel' (attempt + 1) (Some error)
              server preuploadId file offset stop sliceNo fname
        end
    end
  else
    ret (mkSliceUploadResult false
           (Some (match lastError with
                  | Some e => e
                  | None => mkError ("分片 " ++ Str.ofZ sliceNo ++ " 上传失败")%string
                  end))).

Definition uploadSliceWithRetry (server preuploadId : string) (file : File)
    (offset stop sliceNo : Z) (fname : string) : M t SliceUploadResult :=
  retryLoop (Z.to_nat MAX_SLICE_RETRIES) 1 None
    server preuploadId file offset stop sliceNo fname.

(** [while (offset < totalSize)] *)
Fixpoint sliceLoop (fuel : nat) (offset sliceNo uploadedBytes : Z)
    (server preuploadId : string) (options : UploadSingleOptions)
    (chunkSize totalSlices : Z) : M t unit :=
  let totalSize := uo_size options in
  if offset <? totalSize then
    match fuel with
    | O => throw fuelExhausted
    | S fuel' =>
        let stop := Z.min (offset + chunkSize) totalSize in
        let sliceSize := stop - offset in
        let* result :=
          uploadSliceWithRetry server preuploadId (uo_file options)
            offset stop sliceNo (uo_filename options) in
        if negb (success result) then
          throw (match error result with
                 | Some e => e
                 | None => mkError ("分片 " ++ Str.ofZ sliceNo ++ " 上传失败")%string
                 end)
        else
          let uploadedBytes' := uploadedBytes + sliceSize in
          ask (Progress uploadedBytes' totalSize sliceNo totalSlices) ;;;
          sliceLoop fuel' stop (sliceNo + 1) uploadedBytes'
            server preuploadId options chunkSize totalSlices
    end
  else ret tt.

Definition chunkSizeOf (session : UploadSession) : Z :=
  match us_sliceSize session with
  | Some n => if 0 <? n then n else DEFAULT_SLICE_SIZE
  | None => DEFAULT_SLICE_SIZE
  end.

Definition uploadSlices (server : string) (session : UploadSession)
    (options : UploadSingleOptions) : M t unit :=
  let normalizedServer := normalizeServer server in
  if String.eqb normalizedServer "" || String.eqb normalizedServer "https:" ||
     String.eqb normalizedServer "https://"
  then throw (mkError "无效的上传服务器地址")
  else
    let chunkSize := chunkSizeOf session in
    let totalSize := uo_size options in
    let preuploadId := nonNull (us_preuploadId session) in
    let totalSlices := if 0 <? totalSize then ceilDiv totalSize chunkSize else 0 in
    sliceLoop (Z.to_nat totalSize) 0 1 0
      normalizedServer preuploadId options chunkSize totalSlices ;;;
    if totalSize =? 0 then ask (Progress 0 0 0 0) else ret tt.

End Upload.

End Pan123Client.

(** ** Specification vocabulary for the uploader *)

(** What a trace shows of an upload: chunk submissions, with the verdict
    of the digest check, and back-off waits. *)
Inductive Step : Type :=
| Submit (sliceNo offset stop : Z) (accepted : bool)
| Wait (ms : Z).

(** Was this reply to a submission an acceptance with a matching (or no)
    echoed digest? *)
Definition verified (sliceMD5 : string) (reply : SliceReply) : bool :=
  match reply with
  | SliceAccepted (Some digest) => String.eqb (Str.toLowerCase digest) sliceMD5
  | SliceAccepted None => true
  | _ => false
  end.

Definition stepOf (o : Obs) : option Step :=
  match o with
  | existT ev r =>
      match ev as e return Resp e -> option Step with
      | PostSlice _ _ sliceNo offset stop md5 =>
          fun reply => Some (Submit sliceNo offset stop (verified md5 reply))
      | Sleep ms => fun _ => Some (Wait ms)
      | _ => fun _ => None
      end r
  end.

Definition steps (tr : list Obs) : list Step := omap stepOf tr.

(** The chunk numbers accepted, in order. *)
Definition acceptedChunks (s : list Step) : list Z :=
  omap (fun st => match st with
                  | Submit k _ _ true => Some k
                  | _ => None
                  end) s.

(** The attempts on chunk [k] from attempt number [a] on: an accepted
    submission ends them; a failed one is followed by a wait of [a] times
    the base delay and the next attempt, unless it was the third. *)
Inductive chunkAttempts (k offset stop : Z) : Z -> list Step -> bool -> Prop :=
| attempt_accepted (a : Z) :
    1 <= a <= 3 ->
    chunkAttempts k offset stop a [Submit k offset stop true] true
| attempt_exhausted :
    chunkAttempts k offset stop 3 [Submit k offset stop false] false
| attempt_retry (a : Z) (rest : list Step) (ok : bool) :
    1 <= a < 3 ->
    chunkAttempts k offset stop (a + 1) rest ok ->
    chunkAttempts k offset stop a
      (Submit k offset stop false :: Wait (1000 * a) :: rest) ok.

(** Chunks [k], [k+1], ... of [chunkSize] bytes each, one after the other:
    the upload completes when no byte is left, and stops at the first
    chunk whose attempts are exhausted. *)
Inductive chunkedUpload (chunkSize totalSize : Z) : Z -> list Step -> bool -> Prop :=
| upload_complete (k : Z) :
    totalSize <= (k - 1) * chunkSize ->
    chunkedUpload chunkSize totalSize k [] true
| upload_chunk (k : Z) (s rest : list Step) (ok : bool) :
    (k - 1) * chunkSize < totalSize ->
    chunkAttempts k ((k - 1) * chunkSize) (Z.min (k * chunkSize) totalSize) 1 s true ->
    chunkedUpload chunkSize totalSize (k + 1) rest ok ->
    chunkedUpload chunkSize totalSize k (s ++ rest) ok
| upload_aborted (k : Z) (s : list Step) :
    (k - 1) * chunkSize < totalSize ->
    chunkAttempts k ((k - 1) * chunkSize) (Z.min (k * chunkSize) totalSize) 1 s false ->
    chunkedUpload chunkSize totalSize k s false.

(** [first, first + 1, ..., last] *)
Definition chunkNumbers (first last : Z) : list Z :=
  List.map (fun i => first + Z.of_nat i) (seq 0 (Z.to_nat (last - first + 1))).

(** ** A well-behaved world, for running the engine

    The hub folder is a list of objects, the local disk a map from paths
    to contents and modification times.  Every request succeeds when its
    target exists.  The hub stamps [createAt] as a date-time text, the way
    the file-list API of the hub reports it. *)

Module World.

(** "YYYY-MM-DD HH:mm:ss" in UTC for epoch milliseconds. *)
Definition utcFormattedDate (ms : Z) : string :=
  let secs := ms / 1000 in
  let days := secs / 86400 in
  let rem := secs mod 86400 in
  let z := days + 719468 in
  let era := z / 146097 in
  let doe := z - era * 146097 in
  let yoe := (doe - doe / 1460 + doe / 36524 - doe / 146096) / 365 in
  let doy := doe - (365 * yoe + yoe / 4 - yoe / 100) in
  let mp := (5 * doy + 2) / 153 in
  let d := doy - (153 * mp + 2) / 5 + 1 in
  let m := if mp <? 10 then mp + 3 else mp - 9 in
  let y := yoe + era * 400 + (if m <=? 2 then 1 else 0) in
  (Str.ofZ y ++ "-" ++ Str.pad2 m ++ "-" ++ Str.pad2 d ++ " " ++
   Str.pad2 (rem / 3600) ++ ":" ++ Str.pad2 (rem mod 3600 / 60) ++ ":" ++
   Str.pad2 (rem mod 60))%string.

Record HubObject : Type := mkHubObject {
  ho_file : CloudFile;
  ho_body : Body
}.

Record t : Type := mk {
  hub : list HubObject;
  disk : gmap string (Body * Z);
  clock : Z;
  fresh : Z
}.

Definition urlOf (id : Z) : string := ("https://hub/" ++ Str.ofZ id)%string.

Definition bodyText (b : Body) : string :=
  match b with
  | BText s | BBlob s => s
  | BIndex _ | BLock _ _ => "" (* the JSON text is not spelled out *)
  end.

Definition bodyJson (b : Body) : option IndexJson :=
  match b with
  | BIndex d =>
      Some (mkIndexJson (Some (version d)) (lastUpdated d) (indexInstanceId d)
              (Some (files d)))
  | BLock _ _ => Some (mkIndexJson None 0 "" None)
  | BText _ | BBlob _ => None
  end.

Definition okResponse (b : Body) : Response :=
  mkResponse true 200 "OK" (bodyText b) (bodyJson b).

Definition notFound : Response := mkResponse false 404 "Not Found" "" None.

Definition hasId (ids : list (option Z)) (o : HubObject) : bool :=
  existsb (fun i => match i with Some n => n =? fileId (ho_file o) | None => false end) ids.

Definition named (parent : Z) (fname : string) (o : HubObject) : bool :=
  (parentFileId (ho_file o) =? parent) && (filename (ho_file o) =? fname)%string.

(** A new file object; with [duplicateStrategy] 2 it replaces its namesake. *)
Definition store (parent : Z) (fname : string) (content : Body) (dup : Z) (w : t) : Z * t :=
  let kept :=
    if dup =? 2 then List.filter (fun o => negb (named parent fname o)) (hub w)
    else hub w in
  let stamp := utcFormattedDate (clock w) in
  let file := mkCloudFile (fresh w) fname parent 0 ""
                (Z.of_nat (String.length (bodyText content))) stamp stamp in
  (fresh w, mk (kept ++ [mkHubObject file content]) (disk w) (clock w) (fresh w + 1)).

Definition respond (ev : Event) (w : t) : Resp ev * t :=
  match ev as e return Resp e * t with
  | ListFiles parent =>
      (Ok (List.map ho_file
             (List.filter (fun o => parentFileId (ho_file o) =? parent) (hub w))), w)
  | DeleteFiles ids =>
      (Ok tt, mk (List.filter (fun o => negb (hasId ids o)) (hub w))
                 (disk w) (clock w) (fresh w))
  | UploadSingle parent fname content dup =>
      let '(id, w') := store parent fname content dup w in
      (Ok (mkUploadResult id true), w')
  | GetDownloadUrl id =>
      (if existsb (fun o => fileId (ho_file o) =? id) (hub w)
       then Ok (urlOf id) else Err (mkError "文件不存在或已被删除"), w)
  | Fetch url =>
      (match List.find (fun o => (urlOf (fileId (ho_file o)) =? url)%string) (hub w) with
       | Some o => Ok (okResponse (ho_body o))
       | None => Ok notFound
       end, w)
  | DateNow => (clock w, w)
  | RandomUUID =>
      (("uuid-" ++ Str.ofZ (fresh w))%string,
       mk (hub w) (disk w) (clock w) (fresh w + 1))
  | ShowMessage _ _ _ => (tt, w)
  | Sleep ms => (tt, mk (hub w) (disk w) (clock w + ms) (fresh w))
  | KernelGetFile path =>
      (match disk w !! path with
       | Some (b, _) => Ok (okResponse b)
       | None => Ok notFound
       end, w)
  | KernelPutFile path content modTime =>
      (Ok (okResponse (BText "")),
       mk (hub w) (<[path := (content, modTime)]> (disk w)) (clock w) (fresh w))
  | KernelRemoveFile path =>
      (Ok (okResponse (BText "")),
       mk (hub w) (delete path (disk w)) (clock w) (fresh w))
  | UploadLocalFileToCloud folder path fileName =>
      match disk w !! path with
      | Some (b, _) =>
          let '(id, w') :=
            store folder (Str.replaceAll Str.isSlash "_" (Str.stripLeading "/" path)) b 2 w in
          (Ok (mkUploadMeta id "" (Z.of_nat (String.length (bodyText b)))), w')
      | None => (Err (mkError "Failed to get local file"), w)
      end
  | DownloadCloudFileToLocal id path timestamp =>
      match List.find (hasId [id]) (hub w) with
      | Some o =>
          (Ok tt, mk (hub w) (<[path := (ho_body o, timestamp)]> (disk w))
                     (clock w) (fresh w))
      | None => (Err (mkError "文件不存在或已被删除"), w)
      end
  | Progress _ _ _ _ => (tt, w)
  | PostSlice _ _ _ _ _ md5 => (SliceAccepted (Some md5), w)
  end.

End World.

(** ** Scenarios *)

Module Scenario.

Definition folder : Z := 100.

Definition manager (strategy : ConflictStrategy) : SyncManager :=
  mkSyncManager folder false ∅ strategy (CloudIndexManager.mk folder None) [].

Definition hubFile (id : Z) (fname createdAt : string) : CloudFile :=
  mkCloudFile id fname folder 0 "" 0 createdAt createdAt.

(** 2025-11-02 05:40:00 UTC, in epoch milliseconds. *)
Definition now : Z := 1762062000000.

(** Device B took the lock one minute ago; device A starts a run. *)
Definition youngLock : World.HubObject :=
  World.mkHubObject (hubFile 7 "sync.lock" "2025-11-02 05:39:00")
    (BLock (now - 60000) "device-b").

Definition deviceA : gmap string (Body * Z) :=
  {[ instanceIdPath := (BText "device-a", 0) ]}.

Definition lockedHub : World.t := World.mk [youngLock] deviceA now 50.

(** A hub that reports [createAt] in epoch milliseconds, holding an
    identity, an index with one entry and a lock taken one minute ago. *)
Definition note : CloudFileInfo :=
  mkCloudFileInfo "a.sy" "data/a.sy" "data_a.sy" 21 1762000000 12 (Some "0cc1") false.

Definition hubIndex : CloudIndexV2 :=
  mkCloudIndexV2 2 (now - 3600000) "hub-1" {[ "data/a.sy" := note ]} None.

Definition busyHub : World.t :=
  World.mk
    [ World.mkHubObject (hubFile 10 "instance-id" "1761000000000") (BText "hub-1");
      World.mkHubObject (hubFile 11 "cloud-index-v2.json" "1762058400000") (BIndex hubIndex);
      World.mkHubObject (hubFile 12 "sync.lock" "1762061940000")
        (BLock (now - 60000) "device-b") ]
    deviceA now 50.

(** The busy hub after the steps of [sync] that precede the lock, and the
    lock acquisition that follows. *)
Definition bound : list Obs * (Result (Remote * Remote) * SyncManager) * World.t :=
  run World.respond (resolveAndBind (manager keepNewer)) busyHub.

Definition contended : list Obs * (Result unit * SyncManager) * World.t :=
  run World.respond (acquireLock (value_of bound).2) (world_of bound).

(** A note whose cloud copy (t = 100) is older than the local one (t = 200). *)
Definition editedDisk : World.t :=
  World.mk [] {[ "data/notes/a.sy" := (BText "local edit", 200) ]} now 50.

End Scenario.

(** ** Specification vocabulary for the run lock *)

Definition obs_now (o : Obs) : option Z :=
  match o with
  | existT ev r =>
      match ev as e return Resp e -> option Z with
      | DateNow => fun r => Some r
      | _ => fun _ => None
      end r
  end.

(** The lock is held: the listing that opens the trace shows a lock object
    whose age, at the clock reading that follows, is below five minutes. *)
Definition lockHeld (tr : list Obs) : bool :=
  match tr with
  | o1 :: o2 :: _ =>
      match obs_listing o1, obs_now o2 with
      | Some listing, Some now =>
          match findFile lockFileName listing with
          | Some lockFile => Js.lt (lockAge now lockFile) (Js.Num fiveMinutesInMs)
          | None => false
          end
      | _, _ => false
      end
  | _ => false
  end.

(** ** Specification vocabulary for reconciliation *)

(** The first request a program issues, if it issues any. *)
Definition firstRequest {A : Type} (p : Prog A) : option Event :=
  match p with
  | Ret _ => None
  | Call ev _ => Some ev
  end.

(** Did the hub accept the deletion that opens the trace? *)
Definition hubDeleted (tr : list Obs) : bool :=
  match tr with
  | existT ev r :: _ =>
      match ev as e return Resp e -> bool with
      | DeleteFiles _ => fun r => match r with Ok _ => true | Err _ => false end
      | _ => fun _ => false
      end r
  | [] => false
  end.

(** The path has no entry in the manager's cached index. *)
Definition unindexed (path : string) (this : SyncManager) : Prop :=
  exists idx : CloudIndexV2,
    CloudIndexManager.currentIndex (cloudIndexManager this) = Some idx /\
    files idx !! path = None.

(** The first of the default targets: the main data directory. *)
Definition dataTarget : SyncTarget :=
  mkSyncTarget "data" (Some [".siyuan"])
    (Some (mkSyncOptions None None None (Some true) (Some true))).

(** ** Specification vocabulary for merging *)

(** A path-keyed collection: distinct keys, each entry filed under its own
    path. *)
Definition keyed (m : list (string * StorageItem)) : Prop :=
  NoDup (List.map fst m) /\
  Forall (fun kv => StorageItem.path kv.2 = kv.1) m.

(** [Map.prototype.get] *)
Definition valueAt (p : string) (m : list (string * StorageItem)) :
    option StorageItem :=
  snd <$> List.find (fun kv => String.eqb kv.1 p) m.

(** ** Sample inputs *)

Module Sample.

Definition localRemote : Remote := mkRemote "本地" false (Some "device-a") {[ "hub-1" := 100 ]}.
Definition cloudRemote : Remote := mkRemote "云端" true (Some "hub-1") {[ "device-a" := 100 ]}.

(** The worked example: the hub still holds [b] (t = 50), the local side
    does not, and the two last synchronised at 80. *)
Definition b50 : FileInfo := mkFileInfo "b" "data/b" false 50 None None (Some 42).
Definition neverEdited : Remote := mkRemote "本地" false (Some "device-a") {[ "hub-1" := 80 ]}.
Definition hubAt80 : Remote := mkRemote "云端" true (Some "hub-1") {[ "device-a" := 80 ]}.

(** The same hub after another device synchronised at 90. *)
Definition hubAt90 : Remote :=
  mkRemote "云端" true (Some "hub-1") {[ "device-a" := 80; "device-b" := 90 ]}.

Definition a120 : FileInfo := mkFileInfo "a.sy" "data/a.sy" false 120 None None None.
Definition a130 : FileInfo := mkFileInfo "a.sy" "data/a.sy" false 130 (Some 9) (Some "0cc1") (Some 21).

Definition snippets : SyncTarget :=
  mkSyncTarget "data/snippets" None
    (Some (mkSyncOptions None (Some true) (Some true) None None)).

Definition leaf (p n : string) (t : Z) : StorageItem :=
  mkStorageItem p (Some "data") (Some (mkFileInfo n p false t None None None)) [].

Definition localTree : StorageItem :=
  mkStorageItem "data" None None [leaf "data/a" "a" 100; leaf "data/c" "c" 7].
Definition cloudTree : StorageItem :=
  mkStorageItem "data" None None [leaf "data/a" "a" 120; leaf "data/b" "b" 50].

Definition cachedIndex : CloudIndexManager.t :=
  CloudIndexManager.mk Scenario.folder (Some Scenario.hubIndex).

(** The hub's copy of the note of the sample index, last edited before the
    synchronisation at 80, and an engine that has the index in its cache. *)
Definition note50 : FileInfo :=
  mkFileInfo "a.sy" "data/a.sy" false 50 (Some 12) (Some "0cc1") (Some 21).

Definition indexedManager : SyncManager :=
  mkSyncManager Scenario.folder false ∅ keepNewer cachedIndex [].

Definition tenBytes : Pan123Client.UploadSingleOptions :=
  Pan123Client.mkUploadSingleOptions Scenario.folder
    (Pan123Client.mkFile "0123456789") 10 "data_a.sy".

Definition fourByteChunks : Pan123Client.UploadSession :=
  Pan123Client.mkUploadSession None None (Some "pre-1") (Some 4) None.

End Sample.

(** ** cloud-index.ts: the remaining methods *)

Module IndexStore.

Import CloudIndexManager.

(** [for (const [path, fileInfo] of files) index.files[path] = fileInfo],
    the [Map] given by its entries in iteration order. *)
Definition assignAll (batch : list (string * CloudFileInfo)) (idx : CloudIndexV2) :
    CloudIndexV2 :=
  fold_left (fun acc kv => assign kv.1 kv.2 acc) batch idx.

Definition updateFiles (batch : list (string * CloudFileInfo)) : M t unit :=
  let* index := load in
  updateIndex (assignAll batch) ;;;
  save (Some Cached).

(** [index.files[path] || null] *)
Definition valueOrNull (idx : CloudIndexV2) (path : string) : option JsObject.Value :=
  match JsObject.get (files idx) (filesPrototype idx) path with
  | Some v => if JsObject.truthy v then Some v else None
  | None => None
  end.

Definition getFile (path : string) : M t (option JsObject.Value) :=
  let* index := load in
  ret (valueOrNull index path).

(** [path in index.files] *)
Definition hasFile (path : string) : M t bool :=
  let* index := load in
  ret (JsObject.has (files index) (filesPrototype index) path).

(** [index.files = {}]: a new object, with [Object.prototype]. *)
Definition emptied (idx : CloudIndexV2) : CloudIndexV2 :=
  mkCloudIndexV2 (version idx) (lastUpdated idx) (indexInstanceId idx) ∅ None.

Definition clear : M t unit :=
  let* index := load in
  updateIndex emptied ;;;
  save (Some Cached).

Definition resetCache : M t unit :=
  modify (fun this => mk (remoteFolderId this) None).

Record Stats : Type := mkStats {
  totalFiles : Z;
  totalSize : Z;
  statsLastUpdated : Z;
  statsInstanceId : string
}.

(** [files.reduce((sum, f) => sum + (f.size || 0), 0)] *)
Definition getStats : M t Stats :=
  let* index := load in
  let entries := (map_to_list (files index)).*2 in
  ret (mkStats (Z.of_nat (length entries))
         (fold_left (fun sum f => sum + Js.or_zero (cfi_size f)) entries 0)
         (lastUpdated index) (indexInstanceId index)).

End IndexStore.

(** [info] is what the document holds at [path]: as an own entry, or, at
    ["__proto__"], as the prototype an assignment installed. *)
Definition entryAt (idx : CloudIndexV2) (path : string) (info : CloudFileInfo) : Prop :=
  files idx !! path = Some info \/
  (path = "__proto__" /\ files idx !! path = None /\ filesPrototype idx = Some info).

(** The cached document, if any, is a version-2 document. *)
Definition wellVersioned (this : CloudIndexManager.t) : Prop :=
  match CloudIndexManager.currentIndex this with
  | Some idx => version idx = 2
  | None => True
  end.

(** The requests by which [save] changes the hub: the deletion of one
    listed object and the upload of the index document. *)
Definition indexMutation (folder : Z) (ev : Event) : Prop :=
  match ev with
  | DeleteFiles [Some _] => True
  | UploadSingle parent fname (BIndex _) 2 =>
      parent = folder /\ fname = CloudIndexManager.indexFileName
  | _ => False
  end.

(** ** Specification vocabulary for transfers *)

(** The requests of a trace, in order. *)
Definition events (tr : list Obs) : list Event := List.map obs_event tr.

(** Requests that write to the workspace on the local disk. *)
Definition touchesDisk (ev : Event) : bool :=
  match ev with
  | KernelPutFile _ _ _ | KernelRemoveFile _ | DownloadCloudFileToLocal _ _ _ => true
  | _ => false
  end.

(** Requests that write to the hub. *)
Definition touchesHub (ev : Event) : bool :=
  match ev with
  | DeleteFiles _ | UploadSingle _ _ _ _ | UploadLocalFileToCloud _ _ _
  | PostSlice _ _ _ _ _ _ => true
  | _ => false
  end.

Definition isNotice (ev : Event) : bool :=
  match ev with ShowMessage _ _ _ => true | _ => false end.

(** What a successful transfer to the hub answered. *)
Definition obs_uploaded (o : Obs) : option UploadMeta :=
  match o with
  | existT ev r =>
      match ev as e return Resp e -> option UploadMeta with
      | UploadLocalFileToCloud _ _ _ =>
          fun r => match r with Ok meta => Some meta | Err _ => None end
      | _ => fun _ => None
      end r
  end.

(** What a successful read of a workspace file answered. *)
Definition obs_read (o : Obs) : option (string * Response) :=
  match o with
  | existT ev r =>
      match ev as e return Resp e -> option (string * Response) with
      | KernelGetFile path =>
          fun r => match r with Ok x => Some (path, x) | Err _ => None end
      | _ => fun _ => None
      end r
  end.

(** The error list after a guarded operation on [path]: untouched when it
    returned, longer by one record carrying the raised message when it
    raised. *)
Definition recorded (path : string) (ops : list Operation)
    (before : list SyncError) (x : Result unit * SyncManager) : Prop :=
  match x.1 with
  | Ok _ => syncErrors x.2 = before
  | Err e =>
      exists op now,
        op ∈ ops /\
        syncErrors x.2 = (before ++ [mkSyncError path op (message e) now])%list
  end.

(** The changes [setCloudInstanceId] and [getCloudInstanceId] make. *)
Definition idChange (folder : Z) (ev : Event) : Prop :=
  (exists old, ev = DeleteFiles [Some old]) \/
  (exists id, ev = UploadSingle folder "instance-id" (BText id) 2).


(** ** sync-utils.ts and sync-targets.ts: names *)

Definition isUnderscore (a : ascii) : bool := Ascii.eqb a "_".

(** [fileName.replace(/_/g, "/")] *)
Definition decodeFileNameToPath (fileName : string) : string :=
  Str.replaceAll isUnderscore "/" fileName.

(** [target.excludedItems.includes(lastSegment)] *)
Definition shouldExcludePath (path : string) (target : SyncTarget) : bool :=
  match excludedItems target with
  | None | Some [] => false
  | Some items =>
      let lastSegment := Str.afterLast "/" path in
      existsb (String.eqb lastSegment) items
  end.

(** ** Specification vocabulary for the uploader, continued *)

(** How many submissions a run made. *)
Definition submissions (s : list Step) : Z :=
  Z.of_nat (length (List.filter (fun st => match st with
                                           | Submit _ _ _ _ => true
                                           | Wait _ => false
                                           end) s)).

(** The time spent in back-off waits, in milliseconds. *)
Definition waited (s : list Step) : Z :=
  fold_right (fun st acc => match st with
                            | Wait ms => ms + acc
                            | Submit _ _ _ _ => acc
                            end) 0 s.

(** The bytes of the accepted submissions, in order. *)
Definition sent (file : Pan123Client.File) (s : list Step) : string :=
  fold_right (fun st acc => match st with
                            | Submit _ offset stop true =>
                                (Pan123Client.slice file offset stop ++ acc)%string
                            | _ => acc
                            end) EmptyString s.

(** ** storage-item.ts: the remaining methods *)

Module Tree.

Import StorageItem.

(** [this.item?.isDir ?? false] *)
Definition isDir (s : StorageItem) : bool :=
  match item s with Some i => fi_isDir i | None => false end.

(** [addFile]: the item after the push; the constructor of the child may
    throw. *)
Definition addFile (i : FileInfo) (this : StorageItem) : Result StorageItem :=
  let filePath := (path this ++ "/" ++ fi_name i)%string in
  match new filePath (Some (path this)) (Some i) [] with
  | Ok storageItem =>
      Ok (mkStorageItem (path this) (parentPath this) (item this)
            (files this ++ [storageItem]))
  | Err e => Err e
  end.

Fixpoint getAllChildFiles (s : StorageItem) : list StorageItem :=
  match s with
  | mkStorageItem _ _ _ fs =>
      flat_map (fun file => if isDir file then getAllChildFiles file else [file]) fs
  end.

Fixpoint getAllChildDirectories (s : StorageItem) : list StorageItem :=
  match s with
  | mkStorageItem _ _ _ fs =>
      flat_map (fun file =>
                  if isDir file then file :: getAllChildDirectories file else [])
               fs
  end.

(** The items the generator yields, in order. *)
Fixpoint iterateStorageItem (s : StorageItem) : list StorageItem :=
  match s with
  | mkStorageItem _ _ _ fs => s :: flat_map iterateStorageItem fs
  end.

(** [getFilesMap()], the [Map] as its entries in insertion order. *)
Definition getFilesMap (s : StorageItem) : list (string * StorageItem) :=
  setAll (files s) [].

End Tree.

(** A value handed to [fromObject]: an object whose properties may be
    missing, with children that may be [null]. *)
#[warnings="-register-all"] Inductive ItemObject : Type :=
  mkItemObject (o_path : option string) (o_parentPath : option string)
               (o_item : option FileInfo)
               (o_files : option (list (option ItemObject))).

Definition invalidObject : Error :=
  mkError "Invalid object: missing required 'path' property".

(** [StorageItem.fromObject]; [Array.prototype.map] stops at the first
    child that throws. *)
Fixpoint fromObject (obj : ItemObject) : Result StorageItem :=
  match obj with
  | mkItemObject o_path o_parentPath o_item o_files =>
      match o_path with
      | None | Some EmptyString => Err invalidObject
      | Some p =>
          let fix mapFromObject (fileObjs : list (option ItemObject)) :
              Result (list StorageItem) :=
            match fileObjs with
            | [] => Ok []
            | fileObj :: rest =>
                match match fileObj with
                      | Some o => fromObject o
                      | None => Err invalidObject
                      end with
                | Err e => Err e
                | Ok child =>
                    match mapFromObject rest with
                    | Err e => Err e
                    | Ok children => Ok (child :: children)
                    end
                end
            end in
          match match o_files with
                | Some fileObjs => mapFromObject fileObjs
                | None => Ok []
                end with
          | Err e => Err e
          | Ok childFiles =>
              StorageItem.new p
                (match o_parentPath with
                 | Some EmptyString | None => None
                 | Some pp => Some pp
                 end)
                o_item childFiles
          end
      end
  end.

(** A [StorageItem] seen as a plain object, as [JSON.stringify] writes it
    and [JSON.parse] reads it back. *)
Fixpoint asObject (s : StorageItem) : ItemObject :=
  match s with
  | mkStorageItem p pp i fs =>
      mkItemObject (Some p) pp i (Some (List.map (fun c => Some (asObject c)) fs))
  end.

(** No path in the tree is empty and no parent path is the empty text. *)
Fixpoint wellFormed (s : StorageItem) : bool :=
  match s with
  | mkStorageItem p pp _ fs =>
      negb (String.eqb p "") &&
      match pp with Some EmptyString => false | _ => true end &&
      forallb wellFormed fs
  end.

(** Only directories have children, all the way down. *)
Fixpoint leavesAreFiles (s : StorageItem) : bool :=
  match s with
  | mkStorageItem _ _ _ fs =>
      forallb (fun c => (Tree.isDir c || match StorageItem.files c with
                                         | [] => true
                                         | _ => false
                                         end) && leavesAreFiles c) fs
  end.

(** ** sync-manager.ts: the hub's side of a directory, from the index *)

Module Text.

(** [s.split(c)] *)
Fixpoint split (c : ascii) (s : string) : list string :=
  match s with
  | EmptyString => [EmptyString]
  | String a rest =>
      if Ascii.eqb a c then EmptyString :: split c rest
      else
        match split c rest with
        | first :: others => String a first :: others
        | [] => [String a EmptyString]
        end
  end.

(** [s.substring(n)] *)
Fixpoint substringFrom (n : nat) (s : string) : string :=
  match n, s with
  | O, _ => s
  | S n', String _ rest => substringFrom n' rest
  | S _, EmptyString => EmptyString
  end.

End Text.

Definition fileInfoOf (fileInfo : CloudFileInfo) : FileInfo :=
  mkFileInfo (cfi_name fileInfo) (cfi_path fileInfo) (cfi_isDir fileInfo)
    (cfi_updated fileInfo) (Some (cfi_size fileInfo)) (cfi_md5 fileInfo)
    (Some (cfi_fileId fileInfo)).

(** The body of the [forEach] of [buildCloudItemFromIndex]. *)
Definition addIfDirectChild (basePath : string) (acc : Result StorageItem)
    (entry : string * CloudFileInfo) : Result StorageItem :=
  match acc with
  | Err e => Err e
  | Ok storageItem =>
      let filePath := entry.1 in
      let fileInfo := entry.2 in
      if String.prefix (basePath ++ "/") filePath || String.eqb filePath basePath then
        let relativePath := Text.substringFrom (String.length basePath + 1) filePath in
        let pathParts := Text.split "/" relativePath in
        match pathParts with
        | [part] =>
            match part with
            | EmptyString => Ok storageItem
            | _ => Tree.addFile (fileInfoOf fileInfo) storageItem
            end
        | _ => Ok storageItem
        end
      else Ok storageItem
  end.

(** [cloudFiles]: the entries of the [Map], in iteration order. *)
Definition buildCloudItemFromIndex (basePath : string)
    (cloudFiles : list (string * CloudFileInfo)) : Result StorageItem :=
  match StorageItem.new basePath None None [] with
  | Err e => Err e
  | Ok storageItem => fold_left (addIfDirectChild basePath) cloudFiles (Ok storageItem)
  end.

(** The child [buildCloudItemFromIndex] makes of an index entry. *)
Definition childOf (basePath : string) (fileInfo : CloudFileInfo) : StorageItem :=
  mkStorageItem (basePath ++ "/" ++ cfi_name fileInfo) (Some basePath)
    (Some (fileInfoOf fileInfo)) [].

(** ** sync-manager.ts: stamping the histories (step 5 of [sync]) *)

(** [remote.syncHistory.set(peerId, timestamp)] *)
Definition stamp (peerId : string) (timestamp : Z) (remote : Remote) : Remote :=
  mkRemote (name remote) (isCloud remote) (instanceId remote)
    (<[peerId := timestamp]> (syncHistory remote)).

(** * Properties *)

(** ** Generic facts about programs *)

Lemma or_zero_id x : Js.or_zero x = x.
Proof. unfold Js.or_zero. destruct (Z.eqb_spec x 0); congruence. Qed.

Lemma always_run {A W : Type} (respond : forall ev, W -> Resp ev * W)
    (p : Prog A) :
  forall (P : list Obs -> A -> Prop) (w : W),
    always P p ->
    P (trace_of (run respond p w)) (value_of (run respond p w)).
Proof.
  induction p as [a | ev k IH]; intros P w Hp; simpl in *.
  - exact Hp.
  - destruct (respond ev w) as [r w1].
    specialize (IH r _ w1 (Hp r)).
    destruct (run respond (k r) w1) as [[tr a] w2]. exact IH.
Qed.

Lemma always_mono {A : Type} (p : Prog A) :
  forall (P Q : list Obs -> A -> Prop),
    (forall tr a, P tr a -> Q tr a) -> always P p -> always Q p.
Proof.
  induction p as [a | ev k IH]; intros P Q HPQ Hp; simpl in *.
  - auto.
  - intros r. eapply IH; [|apply Hp]. simpl. auto.
Qed.

Lemma always_trivial {A : Type} (p : Prog A) :
  forall P : list Obs -> A -> Prop, (forall tr a, P tr a) -> always P p.
Proof.
  induction p as [a | ev k IH]; intros P HP; simpl; [apply HP|].
  intros r. apply IH. intros tr a. apply HP.
Qed.

Lemma always_pbind {A B : Type} (p : Prog A) (f : A -> Prog B) :
  forall (P : list Obs -> B -> Prop),
    always (fun tr a => always (fun tr' b => P (tr ++ tr')%list b) (f a)) p ->
    always P (pbind p f).
Proof.
  induction p as [a | ev k IH]; intros P Hp; simpl in *.
  - exact Hp.
  - intros r. apply IH. apply Hp.
Qed.

Lemma run_pbind {A B W : Type} (respond : forall ev, W -> Resp ev * W)
    (p : Prog A) (f : A -> Prog B) (w : W) :
  run respond (pbind p f) w =
  let '(tr1, a, w1) := run respond p w in
  let '(tr2, b, w2) := run respond (f a) w1 in
  ((tr1 ++ tr2)%list, b, w2).
Proof.
  revert w. induction p as [a | ev k IH]; intros w; simpl.
  - now destruct (run respond (f a) w) as [[tr2 b] w2].
  - destruct (respond ev w) as [r w1]. rewrite IH.
    destruct (run respond (k r) w1) as [[tr1 a] w2].
    now destruct (run respond (f a) w2) as [[tr2 b] w3].
Qed.

Lemma mutations_app tr1 tr2 :
  mutations (tr1 ++ tr2) = (mutations tr1 ++ mutations tr2)%list.
Proof. unfold mutations. now rewrite List.map_app, List.filter_app. Qed.

(** ** Conflict detection *)

Section DetectConflict.

Import SyncHistory ConflictHandler.

Lemma getLastSyncWithRemote_lookup r id t :
  syncHistory r !! id = Some t -> getLastSyncWithRemote r (Some id) = t.
Proof.
  intros H. unfold getLastSyncWithRemote. rewrite H. apply or_zero_id.
Qed.

Lemma getLastSyncWithRemote_unknown r id :
  syncHistory r !! id = None -> getLastSyncWithRemote r (Some id) = 0.
Proof. intros H. unfold getLastSyncWithRemote. now rewrite H. Qed.

(** C3. [detectConflict] answers [false] when both histories record 0 for
    each other and [false] when the two timestamps are equal; in every
    other case it answers [true] exactly when the local timestamp is
    strictly after the local history's last sync with the cloud id and the
    cloud timestamp strictly after the cloud history's last sync with the
    local id.  The last sync with a peer the history does not know is 0. *)
Theorem detectConflict_spec (path : string) (localTs cloudTs : Z)
    (localRemote cloudRemote : Remote) :
  let localLast := getLastSyncWithRemote localRemote (Some (peerId cloudRemote)) in
  let cloudLast := getLastSyncWithRemote cloudRemote (Some (peerId localRemote)) in
  (localLast = 0 /\ cloudLast = 0 ->
     detectConflict path localTs cloudTs localRemote cloudRemote = false) /\
  (localTs = cloudTs ->
     detectConflict path localTs cloudTs localRemote cloudRemote = false) /\
  (~ (localLast = 0 /\ cloudLast = 0) -> localTs <> cloudTs ->
     (detectConflict path localTs cloudTs localRemote cloudRemote = true <->
      localTs > localLast /\ cloudTs > cloudLast)) /\
  (forall (r : Remote) (id : string),
     syncHistory r !! id = None -> getLastSyncWithRemote r (Some id) = 0).
Proof.
  intros localLast cloudLast.
  unfold detectConflict. fold (peerId cloudRemote) (peerId localRemote).
  fold localLast cloudLast.
  clearbody localLast cloudLast.
  split; [|split; [|split]].
  - intros [-> ->]. reflexivity.
  - intros ->. rewrite Z.eqb_refl. now destruct (_ && _).
  - intros Hsync Hne.
    destruct (Z.eqb_spec localLast 0), (Z.eqb_spec cloudLast 0); simpl;
      try tauto;
      (destruct (Z.eqb_spec localTs cloudTs); [congruence|]);
      destruct (Z.ltb_spec localLast localTs), (Z.ltb_spec cloudLast cloudTs);
      simpl; split; intros; try discriminate; try reflexivity; lia.
  - apply getLastSyncWithRemote_unknown.
Qed.

End DetectConflict.

(** ** The index store *)

Section Load.

Import CloudIndexManager.

(** What every run of [load] on an empty cache guarantees. *)
Lemma load_outcome (folder : Z) :
  always (fun tr x =>
            exists idx : CloudIndexV2,
              x.1 = Ok idx /\ x.2 = mk folder (Some idx) /\
              mutations tr = [] /\
              match downloadedIndex tr with
              | Some doc => idx = doc
              | None => emptyIndex idx
              end)
         (load (mk folder None)).
Proof.
  unfold emptyIndex. cbn. intros [listing | e]; cbn.
  2: { intros now. eexists; repeat split; reflexivity. }
  destruct (findFile indexFileName listing) as [indexFile|] eqn:Hfind; cbn.
  2: { intros now. eexists; repeat split; reflexivity. }
  intros [url | e]; cbn.
  2: { intros now. eexists; repeat split; reflexivity. }
  intros [response | e]; cbn.
  2: { intros now. eexists; repeat split; reflexivity. }
  destruct (ok response); cbn.
  2: { intros now. eexists; do 3 (split; [reflexivity|]).
       destruct (json response); repeat split; reflexivity. }
  destruct (json response) as [indexData|]; cbn.
  2: { intros now. eexists; repeat split; reflexivity. }
  destruct (j_version indexData) as [[|[v|[v|v|]|]|v]|]; cbn;
    try (intros now; eexists; repeat split; reflexivity).
  destruct (j_files indexData) as [fs|]; cbn.
  - eexists; repeat split; reflexivity.
  - intros now. eexists; repeat split; reflexivity.
Qed.

(** The run of [load] against a hub that lists the index object, resolves
    it, serves it, and whose body parses to a version-2 document. *)
Lemma load_downloads {W : Type} (respond : forall ev, W -> Resp ev * W)
    (folder : Z) (w w1 w2 w3 : W) (listing : list CloudFile)
    (indexFile : CloudFile) (url : string) (response : Response)
    (indexData : IndexJson) (fs : gmap string CloudFileInfo) :
  respond (ListFiles folder) w = (Ok listing, w1) ->
  findFile indexFileName listing = Some indexFile ->
  respond (GetDownloadUrl (fileId indexFile)) w1 = (Ok url, w2) ->
  respond (Fetch url) w2 = (Ok response, w3) ->
  ok response = true ->
  json response = Some indexData ->
  j_version indexData = Some 2 ->
  j_files indexData = Some fs ->
  let doc := mkCloudIndexV2 2 (j_lastUpdated indexData) (j_instanceId indexData)
               fs None in
  run respond (load (mk folder None)) w =
  ([ existT (ListFiles folder) (Ok listing);
     existT (GetDownloadUrl (fileId indexFile)) (Ok url);
     existT (Fetch url) (Ok response) ],
   (Ok doc, mk folder (Some doc)), w3).
Proof.
  intros Hlist Hfind Hurl Hfetch Hok Hjson Hversion Hfiles doc.
  cbn. rewrite Hlist. cbn. rewrite Hfind. cbn. rewrite Hurl. cbn.
  rewrite Hfetch. cbn. rewrite Hok. cbn. rewrite Hjson. cbn.
  rewrite Hversion. cbn. rewrite Hfiles. reflexivity.
Qed.

(** The run of [load] against a hub with which the fetch or the parse
    fails: the clock is read and an empty document made and cached. *)
Lemma load_falls_back {W : Type} (respond : forall ev, W -> Resp ev * W)
    (folder : Z) (w w' : W) :
  fetchFails respond folder w w' ->
  let empty := mkCloudIndexV2 2 (respond DateNow w').1 "" ∅ None in
  value_of (run respond (load (mk folder None)) w) =
    (Ok empty, mk folder (Some empty)) /\
  world_of (run respond (load (mk folder None)) w) = (respond DateNow w').2.
Proof.
  intros Hfail empty. subst empty.
  destruct Hfail as [e w1 Hlist
                    |listing w1 Hlist Hfind
                    |listing indexFile e w1 w2 Hlist Hfind Hurl
                    |listing indexFile url e w1 w2 w3 Hlist Hfind Hurl Hfetch
                    |listing indexFile url response w1 w2 w3 Hlist Hfind Hurl
                       Hfetch Hbad];
    cbn; rewrite Hlist; cbn; try (rewrite Hfind; cbn);
    try (rewrite Hurl; cbn); try (rewrite Hfetch; cbn).
  1-4: destruct (respond DateNow _) as [now wn]; split; reflexivity.
  destruct (ok response) eqn:Hok; cbn.
  2: { destruct (respond DateNow w3) as [now wn]; split; reflexivity. }
  destruct Hbad as [Hno|[Hjson|(indexData & Hjson & Hdoc)]];
    [discriminate| |]; rewrite Hjson; cbn.
  { destruct (respond DateNow w3) as [now wn]; split; reflexivity. }
  destruct (j_version indexData) as [[|[v|[v|v|]|]|v]|]; cbn;
    try (destruct (respond DateNow w3) as [now wn]; split; reflexivity).
  destruct Hdoc as [Hv|Hfiles]; [congruence|]. rewrite Hfiles. cbn.
  destruct (respond DateNow w3) as [now wn]; split; reflexivity.
Qed.

(** C7. [load] on an empty cache starts by listing the sync folder, and
    whatever the hub answers while the index is fetched and parsed, it
    returns normally and caches what it returns.  Against a hub that
    lists the index object, resolves it and serves a body that parses to
    a version-2 document, the run is exactly those three requests and the
    value is that document as it is.  Against a hub with which the fetch
    or the parse fails (a failed listing, no index object, a failed
    resolution or download, a status that is not ok, a body that does not
    parse, another version, a document without [files]) the value is the
    empty version-2 document stamped with the clock reading that
    follows. *)
Theorem load_never_raises (folder : Z) :
  firstRequest (load (mk folder None)) = Some (ListFiles folder) /\
  always (fun tr x =>
            exists idx : CloudIndexV2,
              x.1 = Ok idx /\ currentIndex x.2 = Some idx /\
              mutations tr = [] /\
              match downloadedIndex tr with
              | Some doc => idx = doc
              | None => emptyIndex idx
              end)
         (load (mk folder None)) /\
  (forall (W : Type) (respond : forall ev, W -> Resp ev * W) (w w1 w2 w3 : W)
          (listing : list CloudFile) (indexFile : CloudFile) (url : string)
          (response : Response) (indexData : IndexJson)
          (fs : gmap string CloudFileInfo),
     respond (ListFiles folder) w = (Ok listing, w1) ->
     findFile indexFileName listing = Some indexFile ->
     respond (GetDownloadUrl (fileId indexFile)) w1 = (Ok url, w2) ->
     respond (Fetch url) w2 = (Ok response, w3) ->
     ok response = true ->
     json response = Some indexData ->
     j_version indexData = Some 2 ->
     j_files indexData = Some fs ->
     let doc := mkCloudIndexV2 2 (j_lastUpdated indexData)
                  (j_instanceId indexData) fs None in
     run respond (load (mk folder None)) w =
     ([ existT (ListFiles folder) (Ok listing);
        existT (GetDownloadUrl (fileId indexFile)) (Ok url);
        existT (Fetch url) (Ok response) ],
      (Ok doc, mk folder (Some doc)), w3)) /\
  (forall (W : Type) (respond : forall ev, W -> Resp ev * W) (w w' : W),
     fetchFails respond folder w w' ->
     let empty := mkCloudIndexV2 2 (respond DateNow w').1 "" ∅ None in
     value_of (run respond (load (mk folder None)) w) =
       (Ok empty, mk folder (Some empty)) /\
     world_of (run respond (load (mk folder None)) w) = (respond DateNow w').2).
Proof.
  split; [reflexivity|]. split; [|split].
  - eapply always_mono; [|apply load_outcome].
    intros tr x (idx & H1 & H2 & H3 & H4). exists idx.
    rewrite H2. auto.
  - intros W respond. apply load_downloads.
  - intros W respond w w'. apply load_falls_back.
Qed.

(** A cached index is returned without any request. *)
Lemma load_cached (this : t) (idx : CloudIndexV2) :
  currentIndex this = Some idx -> load this = Ret (Ok idx, this).
Proof. intros H. unfold load, bind, get. cbn. rewrite H. reflexivity. Qed.

End Load.

Section IndexRemoval.

Import CloudIndexManager.

Lemma load_any (this : t) :
  always (fun tr x =>
            exists idx : CloudIndexV2,
              x.1 = Ok idx /\ x.2 = mk (remoteFolderId this) (Some idx) /\
              mutations tr = [])
         (load this).
Proof.
  destruct this as [folder [idx|]].
  - rewrite (load_cached (mk folder (Some idx)) idx eq_refl). simpl. eauto.
  - eapply always_mono; [|apply load_outcome].
    intros tr x (idx & H1 & H2 & H3 & _). eauto.
Qed.

(** A name every object inherits is no entry of the sample index, yet it
    reads as present. *)
Lemma toString_is_inherited :
  files Scenario.hubIndex !! "toString" = None /\
  listed Scenario.hubIndex "toString" = true /\
  listed Scenario.hubIndex "data/none.sy" = false.
Proof. vm_compute. repeat split; reflexivity. Qed.

(** For a path that is no own entry and names nothing inherited, both
    removals answer without a request and leave the manager as it was. *)
Lemma remove_absent_is_silent (folder : Z) (cached : CloudIndexV2) (path : string) :
  files cached !! path = None ->
  JsObject.inherited (filesPrototype cached) path = None ->
  removeFile path (mk folder (Some cached)) =
    Ret (Ok tt, mk folder (Some cached)) /\
  removeFiles [path] (mk folder (Some cached)) =
    Ret (Ok tt, mk folder (Some cached)).
Proof.
  intros Hown Hinh.
  assert (Hl : listed cached path = false).
  { unfold listed, JsObject.test, JsObject.get. now rewrite Hown, Hinh. }
  unfold removeFile, removeFiles, bind. cbn. rewrite Hl. cbn.
  split; reflexivity.
Qed.


End IndexRemoval.

(** ** The run lock *)

Section Lock.

(** A [createAt] that is no numeric literal makes the age [NaN], and no
    [NaN] is below the threshold: the lock counts as stale. *)
Lemma lockAge_of_date_text (now : Z) (lockFile : CloudFile) :
  Str.toNumber (createAt lockFile) = Js.NaN ->
  Js.lt (lockAge now lockFile) (Js.Num fiveMinutesInMs) = false.
Proof.
  intros H. unfold lockAge. destruct (createAt lockFile); [discriminate|].
  now rewrite H.
Qed.

(** When [createAt] is epoch milliseconds in decimal, the age is the
    difference and the threshold test is the arithmetic one. *)
Lemma lockAge_of_decimal (now created : Z) (lockFile : CloudFile) :
  createAt lockFile <> "" ->
  Str.toNumber (createAt lockFile) = Js.Num created ->
  Js.lt (lockAge now lockFile) (Js.Num fiveMinutesInMs) = (now - created <? 300000).
Proof.
  intros Hne H. unfold lockAge. destruct (createAt lockFile); [congruence|].
  now rewrite H.
Qed.

(** What [acquireLock] does when the age test succeeds: after the listing
    and the clock it throws the lock error, having issued no other
    request. *)
Lemma acquireLock_contended (this : SyncManager) :
  exists k1,
    acquireLock this = Call (ListFiles (sm_remoteFolderId this)) k1 /\
    forall (listing : list CloudFile) (lockFile : CloudFile),
      findFile lockFileName listing = Some lockFile ->
      exists k2,
        k1 (Ok listing) = Call DateNow k2 /\
        forall now : Z,
          Js.lt (lockAge now lockFile) (Js.Num fiveMinutesInMs) = true ->
          k2 now = Ret (Err (lockError this), this).
Proof.
  eexists. split; [reflexivity|].
  intros listing lockFile Hfind. cbn. rewrite Hfind. cbn.
  eexists. split; [reflexivity|].
  intros now Hyoung. cbn. rewrite Hyoung. reflexivity.
Qed.

(** On a hub that reports creation times in epoch milliseconds, a lock
    taken one minute ago is respected: the lock error, and no mutation. *)
Lemma acquireLock_rejects_young_lock_in_milliseconds :
  let r := run World.respond (acquireLock (Scenario.manager keepNewer))
             Scenario.busyHub in
  (value_of r).1 = Err (mkError "同步锁已存在，请稍后再试") /\
  mutations (trace_of r) = [] /\
  world_of r = Scenario.busyHub.
Proof. vm_compute. repeat split; reflexivity. Qed.

(** A lock older than five minutes is deleted and replaced, whichever way
    its creation time is written. *)
Lemma acquireLock_replaces_stale_lock :
  let w := World.mk
             [ World.mkHubObject
                 (Scenario.hubFile 7 "sync.lock" "1762061000000")
                 (BLock 1762061000000 "device-b") ]
             Scenario.deviceA Scenario.now 50 in
  let r := run World.respond (acquireLock (Scenario.manager keepNewer)) w in
  (value_of r).1 = Ok tt /\
  mutations (trace_of r) =
    [ DeleteFiles [Some 7];
      UploadSingle Scenario.folder "sync.lock" (BLock Scenario.now "device-a") 2 ].
Proof. vm_compute. repeat split; reflexivity. Qed.

(** C4 (the code departs from it).  Device B created the lock at
    05:39:00 and the hub lists it with that creation time; device A
    acquires the lock at 05:40:00, one minute later.  The run does not
    fail: the one-minute-old lock is deleted and A's own lock is uploaded
    in its place. *)
Theorem acquireLock_replaces_young_lock :
  let r := run World.respond (acquireLock (Scenario.manager keepNewer))
             Scenario.lockedHub in
  (value_of r).1 = Ok tt /\
  mutations (trace_of r) =
    [ DeleteFiles [Some 7];
      UploadSingle Scenario.folder "sync.lock" (BLock Scenario.now "device-a") 2 ] /\
  List.map World.ho_body (World.hub (world_of r)) = [BLock Scenario.now "device-a"].
Proof. vm_compute. repeat split; reflexivity. Qed.

(** Whenever the lock is held, [acquireLock] ends with the lock error and
    has issued no mutating request. *)
Lemma acquireLock_held (this : SyncManager) :
  always (fun tr x =>
            lockHeld tr = true ->
            x = (Err (lockError this), this) /\ mutations tr = [])
         (acquireLock this).
Proof.
  unfold acquireLock. remember createLock as rest eqn:Hrest.
  cbn -[Js.lt lockAge]. intros [listing|e]; cbn -[Js.lt lockAge];
    [|intros; discriminate].
  destruct (findFile lockFileName listing) as [lockFile|] eqn:Hfind;
    cbn -[Js.lt lockAge].
  - intros now.
    destruct (Js.lt (lockAge now lockFile) (Js.Num fiveMinutesInMs)) eqn:Hage;
      cbn -[Js.lt lockAge].
    + auto.
    + intros [[]|e]; cbn -[Js.lt lockAge].
      * apply always_trivial. intros tr a.
        cbn -[Js.lt lockAge]. rewrite ?Hfind, ?Hage. discriminate.
      * rewrite ?Hfind, ?Hage. discriminate.
  - subst rest. cbn -[Js.lt lockAge getLocalInstanceId]. intros ts.
    apply always_trivial. intros tr a.
    cbn -[Js.lt lockAge]. rewrite ?Hfind. discriminate.
Qed.

(** C1 (as amended).  Let a run of [sync] get through its steps before the
    lock (resolving the identities, loading the index and binding its
    owner) and let the lock then be held.  From the lock acquisition on
    the run attempts no mutation: [acquireLock] ends with the lock error
    after its listing and clock reading, having deleted or created no
    lock object; reconciliation and lock release do not run; the only
    request that follows is the failure notice, and [sync] rethrows the
    lock error. *)
Theorem lock_contention_attempts_nothing {W : Type}
    (respond : forall ev, W -> Resp ev * W)
    (reconcile : Remote -> Remote -> M SyncManager unit)
    (this this1 : SyncManager) (w w1 w2 : W) (remotes : Remote * Remote)
    (tr1 tr2 : list Obs) (x2 : Result unit * SyncManager) :
  run respond
    (resolveAndBind (setSyncErrors [] (setConflictDetected false this))) w =
    (tr1, (Ok remotes, this1), w1) ->
  run respond (acquireLock this1) w1 = (tr2, x2, w2) ->
  lockHeld tr2 = true ->
  let notice :=
    ShowMessage (syncFailedNotice (lockError this1) this1) 7000 "error" in
  x2 = (Err (lockError this1), this1) /\
  mutations tr2 = [] /\
  run respond (sync reconcile this) w =
    ((tr1 ++ tr2 ++ [existT notice (respond notice w2).1])%list,
     (Err (lockError this1), this1),
     (respond notice w2).2).
Proof.
  intros Hpre Hlock Hheld notice.
  pose proof (always_run respond (acquireLock this1) _ w1 (acquireLock_held this1))
    as Hacq.
  rewrite Hlock in Hacq. cbn [trace_of value_of fst snd] in Hacq.
  destruct (Hacq Hheld) as [Hx2 Hmut]. subst x2.
  split; [reflexivity|]. split; [exact Hmut|].
  unfold sync, try_catch, bind at 1 2. cbn [modify pbind fst snd].
  rewrite run_pbind. unfold bind at 1. rewrite run_pbind, Hpre.
  cbn [fst snd]. unfold bind at 1. rewrite run_pbind, Hlock.
  cbn [fst snd run pbind]. unfold bind at 1. cbn.
  fold notice. destruct (respond notice w2) as [r w3]. cbn.
  now rewrite <- !app_assoc.
Qed.

(** C1 as first stated does not hold.  On the busy hub the run fails with
    the lock error, yet by then it has deleted the index object and
    uploaded a re-stamped index document: the hub is not as it was. *)
Lemma sync_rewrites_index_before_lock_check :
  let r := run World.respond
             (sync (fun _ _ => ret tt) (Scenario.manager keepNewer))
             Scenario.busyHub in
  (value_of r).1 = Err (mkError "同步锁已存在，请稍后再试") /\
  mutations (trace_of r) =
    [ DeleteFiles [Some 11];
      UploadSingle Scenario.folder "cloud-index-v2.json"
        (BIndex (mkCloudIndexV2 2 Scenario.now "hub-1" (files Scenario.hubIndex) None)) 2 ] /\
  List.map (fun o => (fileId (World.ho_file o), filename (World.ho_file o)))
    (World.hub Scenario.busyHub) =
    [(10, "instance-id"); (11, "cloud-index-v2.json"); (12, "sync.lock")] /\
  List.map (fun o => (fileId (World.ho_file o), filename (World.ho_file o)))
    (World.hub (world_of r)) =
    [(10, "instance-id"); (12, "sync.lock"); (50, "cloud-index-v2.json")] /\
  World.hub (world_of r) <> World.hub Scenario.busyHub.
Proof.
  vm_compute. repeat split; try reflexivity.
  intros H. discriminate H.
Qed.

End Lock.

(** ** Keep both *)

Section KeepBoth.

Variable getFormattedDate : Z -> string.

(** When the cloud side is not newer nothing is read or written: the only
    request is the message that names a copy. *)
Lemma handleConflict_cloud_older {S : Type} (path message : string)
    (localTs cloudTs : Z) (s : S) :
  cloudTs <= localTs ->
  handleConflict getFormattedDate path localTs cloudTs message s =
  Call (ShowMessage
          (message ++ ": " ++ path ++ nl ++ "云端" ++ "版本已保存为: " ++
           conflictFileName getFormattedDate path (Z.min localTs cloudTs) ++ nl ++
           "较新版本将保留为原文件名。")%string 10000 "info")
       (fun done => Ret (Ok done, s)).
Proof.
  intros H. unfold handleConflict, try_catch, bind. cbn.
  destruct (Z.ltb_spec localTs cloudTs); [lia|]. reflexivity.
Qed.

(** When the local side is older and readable, its content is written to
    the conflict path, stamped with the older time; doing it again leaves
    the disk as the first time did. *)
Lemma handleConflict_local_older_idempotent (path message : string)
    (localTs cloudTs : Z) (s : SyncManager) (w : World.t) (b : Body) (t : Z) :
  localTs < cloudTs ->
  World.disk w !! path = Some (b, t) ->
  let once := run World.respond
                (handleConflict getFormattedDate path localTs cloudTs message s) w in
  let twice := run World.respond
                 (handleConflict getFormattedDate path localTs cloudTs message s)
                 (world_of once) in
  World.disk (world_of once) =
    <[conflictPath getFormattedDate path localTs := (BBlob (World.bodyText b), localTs)]>
      (World.disk w) /\
  world_of twice = world_of once.
Proof.
  intros Hlt Hdisk once twice. subst once twice.
  unfold handleConflict, try_catch, bind. cbn.
  destruct (Z.ltb_spec localTs cloudTs); [|lia]. cbn.
  rewrite Hdisk. cbn. rewrite Z.min_l by lia. split; [reflexivity|].
  unfold world_of. cbn.
  set (cp := conflictPath getFormattedDate path localTs). clearbody cp.
  destruct (decide (cp = path)) as [->|Hne].
  - rewrite lookup_insert_eq. cbn. now rewrite insert_insert_eq.
  - rewrite lookup_insert_ne by congruence. rewrite Hdisk. cbn.
    now rewrite insert_insert_eq.
Qed.

End KeepBoth.

(** C5 (the code departs from it).  A conflict on [data/notes/a.sy] whose
    cloud copy (t = 100) is the older side, resolved by keep-both: the
    message announces that the cloud version was saved under the derived
    name, but no request reads the cloud copy or writes any file, and the
    disk is as before: no conflict copy exists. *)
Theorem keepBoth_makes_no_copy_of_older_cloud :
  let r := run World.respond
             (handleConflictWithStrategy World.utcFormattedDate "data/notes/a.sy"
                200 100 keepBoth "检测到冲突" (Scenario.manager keepBoth))
             Scenario.editedDisk in
  (value_of r).1 = Ok true /\
  List.map obs_event (trace_of r) =
    [ ShowMessage
        ("检测到冲突: data/notes/a.sy" ++ nl ++
         "云端版本已保存为: a (冲突副本 1970-01-01-00-01-40).sy" ++ nl ++
         "较新版本将保留为原文件名。")%string 10000 "info" ] /\
  mutations (trace_of r) = [] /\
  world_of r = Scenario.editedDisk /\
  World.disk Scenario.editedDisk !!
    conflictPath World.utcFormattedDate "data/notes/a.sy" 100 = None.
Proof. vm_compute. repeat split; reflexivity. Qed.

(** ** Reasoning about methods *)

Lemma always_bind {S A B : Type} (m : M S A) (f : A -> M S B) (s : S)
    (P : list Obs -> Result B * S -> Prop) :
  always (fun tr x =>
            match x.1 with
            | Ok a => always (fun tr' y => P (tr ++ tr')%list y) (f a x.2)
            | Err e => P tr (Err e, x.2)
            end) (m s) ->
  always P (bind m f s).
Proof.
  intros H. unfold bind. apply always_pbind.
  eapply always_mono; [|exact H]. intros tr [r s'] Hx; cbn in *.
  destruct r; cbn; [exact Hx|]. now rewrite app_nil_r.
Qed.

Lemma always_try_catch {S A : Type} (m : M S A) (h : Error -> M S A) (s : S)
    (P : list Obs -> Result A * S -> Prop) :
  always (fun tr x =>
            match x.1 with
            | Ok a => P tr (Ok a, x.2)
            | Err e => always (fun tr' y => P (tr ++ tr')%list y) (h e x.2)
            end) (m s) ->
  always P (try_catch m h s).
Proof.
  intros H. unfold try_catch. apply always_pbind.
  eapply always_mono; [|exact H]. intros tr [r s'] Hx; cbn in *.
  destruct r; cbn; [|exact Hx]. now rewrite app_nil_r.
Qed.

Lemma always_zoom {S T A : Type} (proj : S -> T) (upd : T -> S -> S)
    (m : M T A) (s : S) (P : list Obs -> Result A * S -> Prop) :
  always (fun tr x => P tr (x.1, upd x.2 s)) (m (proj s)) ->
  always P (zoom proj upd m s).
Proof.
  intros H. unfold zoom. apply always_pbind.
  eapply always_mono; [|exact H]. intros tr x Hx; cbn. now rewrite app_nil_r.
Qed.

(** ** Deletion against creation *)

Section Deletion.

Import CloudIndexManager.

(** Whatever reference [save] is given, it saves the cached object. *)
Lemma save_cached (index : option IndexRef) (this : t) :
  save index this = save None this.
Proof. destruct index as [[]|], this as [folder [idx|]]; reflexivity. Qed.

(** Everything [save] guarantees on a cached document: the cache keeps its
    entries, prototype, version and owner; the only mutating requests are
    the deletion of the listed index object and the upload; and a normal
    return means the last request uploaded exactly the document now
    cached. *)
Lemma save_outcome (index : option IndexRef) (folder : Z) (idx : CloudIndexV2) :
  always (fun tr x =>
            exists idx' : CloudIndexV2,
              x.2 = mk folder (Some idx') /\
              files idx' = files idx /\ version idx' = version idx /\
              indexInstanceId idx' = indexInstanceId idx /\
              filesPrototype idx' = filesPrototype idx /\
              Forall (indexMutation folder) (mutations tr) /\
              (x.1 = Ok tt ->
               exists pre,
                 mutations tr =
                 (pre ++ [UploadSingle folder indexFileName (BIndex idx') 2])%list))
         (save index (mk folder (Some idx))).
Proof.
  rewrite save_cached.
  cbn. intros now [listing|e]; cbn.
  2: { eexists. repeat split; [constructor|discriminate]. }
  destruct (findFile indexFileName listing) as [old|]; cbn.
  - intros [[]|e]; cbn.
    + intros modified [u|e]; cbn; eexists; repeat split; cbn;
        try (repeat constructor; fail); try discriminate.
      intros _. now exists [DeleteFiles [Some (fileId old)]].
    + eexists. repeat split; [repeat constructor|discriminate].
  - intros modified [u|e]; cbn; eexists; repeat split; cbn;
      try (repeat constructor; fail); try discriminate.
    intros _. now exists [].
Qed.

(** [save] stamps the document and leaves its entries alone, even when a
    request fails half way. *)
Lemma save_keeps_files (index : option IndexRef) (folder : Z) (idx : CloudIndexV2) :
  always (fun tr x =>
            exists idx' : CloudIndexV2,
              currentIndex x.2 = Some idx' /\ files idx' = files idx)
         (save index (mk folder (Some idx))).
Proof.
  eapply always_mono; [|apply save_outcome].
  intros tr x (idx' & -> & Hf & _). exists idx'. now split.
Qed.

Lemma updateIndex_then {A : Type} (f : CloudIndexV2 -> CloudIndexV2)
    (k : M t A) (folder : Z) (idx : CloudIndexV2) :
  bind (updateIndex f) (fun _ => k) (mk folder (Some idx)) =
  k (mk folder (Some (f idx))).
Proof. reflexivity. Qed.

(** An own entry reads as present; what reads as absent is no own entry. *)
Lemma listed_own (idx : CloudIndexV2) (path : string) (entry : CloudFileInfo) :
  files idx !! path = Some entry -> listed idx path = true.
Proof. intros H. unfold listed, JsObject.test, JsObject.get. now rewrite H. Qed.

Lemma not_listed_own (idx : CloudIndexV2) (path : string) :
  listed idx path = false -> files idx !! path = None.
Proof.
  intros H. destruct (files idx !! path) as [entry|] eqn:Hp; [|reflexivity].
  now rewrite (listed_own idx path entry Hp) in H.
Qed.

(** After [removeFile], however it ends, the cache has no entry at the path. *)
Lemma removeFile_unindexes (path : string) (this : t) :
  always (fun tr x =>
            exists idx : CloudIndexV2,
              currentIndex x.2 = Some idx /\ files idx !! path = None)
         (removeFile path this).
Proof.
  unfold removeFile. apply always_bind.
  eapply always_mono; [|apply load_any].
  intros tr [r this1] (index & Hr & Hthis & _); cbn [fst snd] in *.
  subst r this1.
  destruct (listed index path) eqn:Hp.
  - rewrite updateIndex_then.
    eapply always_mono; [|apply save_keeps_files].
    intros tr' x (idx' & Hc & Hf); cbn in *. exists idx'. split; [exact Hc|].
    rewrite Hf. apply lookup_delete_eq.
  - cbn. exists index. split; [reflexivity|]. now apply not_listed_own.
Qed.

(** [removeFile] of a cached entry saves the document without it. *)
Lemma removeFile_saves (path : string) (folder : Z) (cached : CloudIndexV2)
    (entry : CloudFileInfo) :
  files cached !! path = Some entry ->
  always (fun tr x =>
            exists idx' : CloudIndexV2,
              x.2 = mk folder (Some idx') /\
              files idx' = delete path (files cached) /\
              (x.1 = Ok tt ->
               last (mutations tr) =
               Some (UploadSingle folder indexFileName (BIndex idx') 2)))
         (removeFile path (mk folder (Some cached))).
Proof.
  intros Hentry. unfold removeFile.
  assert (Hload : load (mk folder (Some cached)) =
                  Ret (Ok cached, mk folder (Some cached))) by reflexivity.
  unfold bind at 1. rewrite Hload. cbn [pbind fst snd].
  rewrite (listed_own cached path entry Hentry), updateIndex_then.
  eapply always_mono; [|apply save_outcome].
  intros tr x (idx' & -> & Hf & _ & _ & _ & _ & Hok).
  exists idx'. split; [reflexivity|]. split; [exact Hf|].
  intros Hr. destruct (Hok Hr) as [pre ->]. apply last_snoc.
Qed.

Lemma fold_max_attained (vs : list Z) (v : Z) :
  fold_left Z.max vs v ∈ v :: vs.
Proof.
  revert v. induction vs as [|y vs IH]; intros v; simpl; [left|].
  specialize (IH (Z.max v y)). apply elem_of_cons in IH as [->|IH].
  - destruct (Z.max_spec v y) as [[_ ->]|[_ ->]]; [right; left|left].
  - right. now right.
Qed.

Lemma getMostRecentSyncTime_attained (r : Remote) :
  syncHistory r <> ∅ ->
  exists id, syncHistory r !! id = Some (SyncHistory.getMostRecentSyncTime r).
Proof.
  intros Hne. unfold SyncHistory.getMostRecentSyncTime.
  destruct ((map_to_list (syncHistory r)).*2) as [|v vs] eqn:Hvs.
  - exfalso. apply Hne. apply map_to_list_empty_iff.
    now destruct (map_to_list (syncHistory r)).
  - pose proof (fold_max_attained vs v) as Hin. rewrite <- Hvs in Hin.
    apply list_elem_of_fmap in Hin as ([id t] & Ht & Hin). cbn in Ht.
    exists id. rewrite Ht. now apply elem_of_map_to_list.
Qed.

Lemma getMostRecentSyncTime_upper (r : Remote) (id : string) (t : Z) :
  syncHistory r !! id = Some t -> t <= SyncHistory.getMostRecentSyncTime r.
Proof.
  intros H. unfold SyncHistory.getMostRecentSyncTime.
  apply elem_of_map_to_list in H.
  assert (Hin : t ∈ (map_to_list (syncHistory r)).*2).
  { apply list_elem_of_fmap. now exists (id, t). }
  revert Hin. generalize ((map_to_list (syncHistory r)).*2). intros vs Hin.
  destruct vs as [|v vs]; [now apply elem_of_nil in Hin|].
  assert (Hfold : forall l acc, acc <= fold_left Z.max l acc /\
                                forall x, x ∈ l -> x <= fold_left Z.max l acc).
  { induction l as [|y l IH]; intros acc; simpl.
    - split; [lia|]. intros x Hx. now apply elem_of_nil in Hx.
    - destruct (IH (Z.max acc y)) as [H1 H2]. split; [lia|].
      intros x [->|Hx]%elem_of_cons; [lia|]. now apply H2. }
  destruct (Hfold vs v) as [H1 H2].
  apply elem_of_cons in Hin as [->|Hin]; [exact H1|now apply H2].
Qed.

(** The helper's answer bounds a positive time exactly when every
    recorded time does. *)
Lemma getMostRecentSyncTime_bound (r : Remote) (bound : Z) :
  0 < bound ->
  (SyncHistory.getMostRecentSyncTime r <= bound <->
   forall peer t, syncHistory r !! peer = Some t -> bound >= t).
Proof.
  intros Hpos. split.
  - intros Hle peer t Ht. pose proof (getMostRecentSyncTime_upper r peer t Ht). lia.
  - intros Hall. destruct (decide (syncHistory r = ∅)) as [He|Hne].
    + unfold SyncHistory.getMostRecentSyncTime. rewrite He, map_to_list_empty.
      cbn. lia.
    + destruct (getMostRecentSyncTime_attained r Hne) as [id Hid].
      specialize (Hall id _ Hid). lia.
Qed.

Lemma getLastSyncWithRemote_direct (r : Remote) (id : option string) :
  SyncHistory.getLastSyncWithRemote r id =
  default 0 (id ≫= fun key => syncHistory r !! key).
Proof.
  unfold SyncHistory.getLastSyncWithRemote. destruct id as [key|]; [|reflexivity].
  cbn. destruct (syncHistory r !! key); [apply or_zero_id|reflexivity].
Qed.

Lemma shouldDeleteOf_spec (commonSync existingTimestamp mostRecentSync : Z) :
  shouldDeleteOf commonSync existingTimestamp mostRecentSync = true <->
  commonSync > 0 /\ commonSync > existingTimestamp /\ commonSync >= mostRecentSync.
Proof.
  unfold shouldDeleteOf. rewrite !andb_true_iff, !Z.ltb_lt, Z.leb_le. lia.
Qed.

(** Once the hub accepted the deletion, the index entry is gone too. *)
Lemma deleteFromCloud_unindexes (path : string) (held : FileInfo)
    (this : SyncManager) :
  always (fun tr x => hubDeleted tr = true -> unindexed path x.2)
    (deleteFromCloud path held this).
Proof.
  unfold deleteFromCloud. apply always_try_catch. apply always_bind.
  remember (onIndex (removeFile path)) as unindex eqn:Hk.
  cbn. intros [[]|e]; cbn.
  - subst unindex. apply always_zoom.
    eapply always_mono; [|apply removeFile_unindexes].
    intros tr [r m] (idx & Hc & Hf); cbn in *.
    destruct r; [intros _|intros now _]; exists idx; now split.
  - intros now. discriminate.
Qed.

(** ... and, when the cached index listed the path and the run returns
    normally, the last change to the hub is the upload of the index
    document without that entry. *)
Lemma deleteFromCloud_persists (path : string) (held : FileInfo)
    (this : SyncManager) (cached : CloudIndexV2) (entry : CloudFileInfo) :
  currentIndex (cloudIndexManager this) = Some cached ->
  files cached !! path = Some entry ->
  always (fun tr x =>
            hubDeleted tr = true -> x.1 = Ok tt ->
            exists idx' : CloudIndexV2,
              currentIndex (cloudIndexManager x.2) = Some idx' /\
              files idx' = delete path (files cached) /\
              last (mutations tr) =
              Some (UploadSingle (remoteFolderId (cloudIndexManager this))
                      indexFileName (BIndex idx') 2))
    (deleteFromCloud path held this).
Proof.
  intros Hcached Hentry.
  unfold deleteFromCloud. apply always_try_catch. apply always_bind.
  remember (onIndex (removeFile path)) as unindex eqn:Hk.
  cbn. intros [[]|e]; cbn.
  - subst unindex. apply always_zoom.
    destruct (cloudIndexManager this) as [folder c] eqn:Hm. cbn in Hcached.
    subst c.
    eapply always_mono; [|apply (removeFile_saves path folder cached entry Hentry)].
    intros tr [r m] (idx' & Hx & Hf & Hlast); cbn [fst snd] in *. subst m.
    destruct r as [[]|err].
    + intros _ _. exists idx'. split; [reflexivity|]. split; [exact Hf|].
      specialize (Hlast eq_refl).
      cbn [remoteFolderId].
      change (List.filter mutating (List.map obs_event tr)) with (mutations tr).
      destruct (mutations tr) as [|m ms]; [discriminate|].
      exact Hlast.
    + cbn. intros now _. discriminate.
  - intros now. discriminate.
Qed.

(** C2. Exactly one side holds the file [held]; [commonSync] is the time
    the holder's history records for the other endpoint (0 when it
    records none), and the deletion predicate is: [commonSync > 0],
    [commonSync > fileTimestamp], and [commonSync] is at least every time
    the holder's history records, for whatever peer.  When the predicate
    holds and the target does not mark the path deletion-averse, the run
    is the deletion from the holder: its first request deletes the hub
    object or removes the local file; once the hub accepted the deletion
    the cached index has no entry for the path, and when the cached index
    listed the path and the run returns normally, its last change to the
    hub is the upload of the index document without that entry.  When the
    predicate fails or the path is deletion-averse, the run is the
    transfer to the missing side, whose first request is that transfer:
    it is never a run without requests. *)
Theorem handleDeletion_deletes_iff (path : string) (held : FileInfo)
    (missingLocal : bool) (localRemote cloudRemote : Remote)
    (target : option SyncTarget) (this : SyncManager) :
  let localFile := if missingLocal then None else Some held in
  let cloudFile := if missingLocal then Some held else None in
  let holder := if missingLocal then cloudRemote else localRemote in
  let other := if missingLocal then localRemote else cloudRemote in
  let commonSync :=
    default 0 (instanceId other ≫= fun id => syncHistory holder !! id) in
  let fileTimestamp := fi_updated held in
  let deletable :=
    commonSync > 0 /\ commonSync > fileTimestamp /\
    forall peer t, syncHistory holder !! peer = Some t -> commonSync >= t in
  let averse :=
    match target with
    | Some t => shouldAvoidDeletion path t (fi_isDir held)
    | None => false
    end in
  let reconciliation :=
    handleDeletion path localFile cloudFile localRemote cloudRemote target this in
  (deletable /\ averse = false ->
   reconciliation =
     if missingLocal then deleteFromCloud path held this
     else deleteFromLocal path this) /\
  (~ deletable \/ averse = true ->
   reconciliation =
     if missingLocal then downloadFileFromCloud path held this
     else uploadFileToCloud path held this) /\
  firstRequest (deleteFromCloud path held this) =
    Some (DeleteFiles [fi_fileId held]) /\
  always (fun tr x => hubDeleted tr = true -> unindexed path x.2)
    (deleteFromCloud path held this) /\
  (forall cached entry,
     currentIndex (cloudIndexManager this) = Some cached ->
     files cached !! path = Some entry ->
     always (fun tr x =>
               hubDeleted tr = true -> x.1 = Ok tt ->
               exists idx' : CloudIndexV2,
                 currentIndex (cloudIndexManager x.2) = Some idx' /\
                 files idx' = delete path (files cached) /\
                 last (mutations tr) =
                 Some (UploadSingle (remoteFolderId (cloudIndexManager this))
                         indexFileName (BIndex idx') 2))
       (deleteFromCloud path held this)) /\
  firstRequest (deleteFromLocal path this) = Some (KernelRemoveFile path) /\
  firstRequest (downloadFileFromCloud path held this) =
    Some (DownloadCloudFileToLocal (fi_fileId held) path (fi_updated held)) /\
  firstRequest (uploadFileToCloud path held this) =
    Some (UploadLocalFileToCloud (sm_remoteFolderId this) path
            (Js.or_string (Str.afterLast "/" path) "file")).
Proof.
  intros localFile cloudFile holder other commonSync fileTimestamp deletable
    averse reconciliation.
  assert (Hts : existingTimestampOf localFile cloudFile = fileTimestamp).
  { subst localFile cloudFile fileTimestamp. unfold existingTimestampOf.
    destruct missingLocal; [apply or_zero_id|].
    now destruct (Z.eqb_spec (fi_updated held) 0). }
  assert (Hdir : isDirOf localFile cloudFile = fi_isDir held).
  { subst localFile cloudFile. unfold isDirOf.
    destruct missingLocal; [reflexivity|]. now destruct (fi_isDir held). }
  assert (Hrec : reconciliation =
            if shouldDeleteOf commonSync fileTimestamp
                 (SyncHistory.getMostRecentSyncTime holder) && negb averse
            then if missingLocal then deleteFromCloud path held this
                 else deleteFromLocal path this
            else if missingLocal then downloadFileFromCloud path held this
                 else uploadFileToCloud path held this).
  { subst reconciliation. unfold handleDeletion. rewrite Hts, Hdir.
    subst commonSync. rewrite <- getLastSyncWithRemote_direct.
    subst localFile cloudFile holder other averse.
    destruct missingLocal; cbn; now destruct (_ && _). }
  assert (Hdel : shouldDeleteOf commonSync fileTimestamp
                   (SyncHistory.getMostRecentSyncTime holder) = true <->
                 deletable).
  { rewrite shouldDeleteOf_spec. subst deletable. split.
    - intros (H1 & H2 & H3). split; [exact H1|]. split; [exact H2|].
      apply getMostRecentSyncTime_bound; lia.
    - intros (H1 & H2 & H3). split; [exact H1|]. split; [exact H2|].
      apply Z.le_ge. apply getMostRecentSyncTime_bound; [lia|exact H3]. }
  split; [|split; [|split; [|split; [|split; [|split; [|split]]]]]];
    try reflexivity.
  - intros [Hd Hav]. rewrite Hrec, Hav. apply Hdel in Hd. now rewrite Hd.
  - intros Hno. rewrite Hrec.
    destruct (shouldDeleteOf commonSync fileTimestamp
                (SyncHistory.getMostRecentSyncTime holder)) eqn:Hd;
      [|reflexivity].
    destruct Hno as [Hno|Hav]; [exfalso; apply Hno, Hdel; reflexivity|].
    now rewrite Hav.
  - apply deleteFromCloud_unindexes.
  - intros cached entry. apply deleteFromCloud_persists.
Qed.

End Deletion.

(** ** Single-file reconciliation: the cases without effect *)

Section NoOps.

Variable getFormattedDate : Z -> string.

(** C6. [syncFile] issues no request at all and leaves the manager as it
    is when both sides are absent, when the target sets [onlyIfMissing]
    and both sides are present, and when both sides are present with
    equal timestamps.  On a detected conflict under keep-local it issues
    no mutating request (neither an upload nor a download, no deletion),
    returns normally, and leaves the index cache and the error list as
    they were. *)
Theorem syncFile_noops (path : string) (localRemote cloudRemote : Remote)
    (target : option SyncTarget) (this : SyncManager) :
  syncFile getFormattedDate path None None localRemote cloudRemote target this =
    Ret (Ok tt, this) /\
  (forall l c : FileInfo,
     onlyIfMissingOf target = true ->
     syncFile getFormattedDate path (Some l) (Some c) localRemote cloudRemote
       target this = Ret (Ok tt, this)) /\
  (forall l c : FileInfo,
     fi_updated l = fi_updated c ->
     syncFile getFormattedDate path (Some l) (Some c) localRemote cloudRemote
       target this = Ret (Ok tt, this)) /\
  (forall l c : FileInfo,
     shouldTrackConflictsOf target = true ->
     ConflictHandler.detectConflict path (fi_updated l) (fi_updated c)
       localRemote cloudRemote = true ->
     conflictStrategy this = keepLocal ->
     always (fun tr x =>
               x.1 = Ok tt /\ mutations tr = [] /\
               cloudIndexManager x.2 = cloudIndexManager this /\
               syncErrors x.2 = syncErrors this)
            (syncFile getFormattedDate path (Some l) (Some c) localRemote
               cloudRemote target this)).
Proof.
  split; [reflexivity|]. split; [|split].
  - intros l c Honly. unfold syncFile. cbn. now rewrite Honly.
  - intros l c Heq. unfold syncFile, updatedOf. cbn.
    rewrite Heq, Z.eqb_refl. now destruct (onlyIfMissingOf target).
  - intros l c Htrack Hconflict Hstrategy. unfold syncFile, updatedOf. cbn.
    destruct (onlyIfMissingOf target); cbn; [tauto|].
    rewrite !or_zero_id.
    destruct (Z.eqb_spec (fi_updated l) (fi_updated c)); cbn; [tauto|].
    rewrite Htrack, Hconflict. cbn. rewrite Hstrategy. cbn.
    intros []. cbn. tauto.
Qed.

End NoOps.

(** ** Merging two trees *)

Section Merge.

Import StorageItem.

Lemma mapSet_keys k v m :
  List.map fst (mapSet k v m) =
  if bool_decide (k ∈ List.map fst m) then List.map fst m
  else (List.map fst m ++ [k])%list.
Proof.
  induction m as [|[k' v'] m IH]; cbn [mapSet List.map fst].
  - case_bool_decide as Hin; [|reflexivity]. now apply elem_of_nil in Hin.
  - destruct (String.eqb_spec k' k) as [->|Hne]; cbn [List.map fst].
    + rewrite bool_decide_eq_true_2 by left. reflexivity.
    + rewrite IH. destruct (decide (k ∈ List.map fst m)) as [Hin|Hnin].
      * rewrite !bool_decide_eq_true_2; [reflexivity|now right|assumption].
      * rewrite !bool_decide_eq_false_2; [reflexivity| |assumption].
        intros [?|?]%elem_of_cons; [congruence|tauto].
Qed.

Lemma mapSet_fresh k v m :
  k ∉ List.map fst m -> mapSet k v m = (m ++ [(k, v)])%list.
Proof.
  induction m as [|[k' v'] m IH]; simpl; intros Hnin; [reflexivity|].
  destruct (String.eqb_spec k' k) as [->|Hne].
  - exfalso. apply Hnin. left.
  - rewrite IH; [reflexivity|]. intros Hin. apply Hnin. now right.
Qed.

Lemma mapSet_valueAt k v m p :
  valueAt p (mapSet k v m) = if String.eqb k p then Some v else valueAt p m.
Proof.
  unfold valueAt. induction m as [|[k' v'] m IH]; simpl.
  - now destruct (String.eqb k p).
  - destruct (String.eqb_spec k' k) as [->|Hne]; simpl.
    + now destruct (String.eqb k p).
    + destruct (String.eqb_spec k' p) as [->|Hne']; simpl.
      * destruct (String.eqb_spec k p); [congruence|reflexivity].
      * exact IH.
Qed.

Lemma mapSet_keyed k v m : path v = k -> keyed m -> keyed (mapSet k v m).
Proof.
  intros Hv [Hnd Hall]. split.
  - rewrite mapSet_keys. case_bool_decide as Hin; [exact Hnd|].
    apply NoDup_app. split; [exact Hnd|]. split.
    + intros x Hx ->%list_elem_of_singleton. exact (Hin Hx).
    + apply NoDup_singleton.
  - clear Hnd. induction m as [|[k' v'] m IH]; simpl.
    + now constructor.
    + apply Forall_cons in Hall as [Hh Ht].
      destruct (String.eqb_spec k' k) as [Heq|Hne]; constructor; auto.
      simpl. congruence.
Qed.

Lemma childAt_snoc p items x :
  childAt p (items ++ [x]) =
  if String.eqb (path x) p then Some x else childAt p items.
Proof. unfold childAt. rewrite rev_app_distr. reflexivity. Qed.

Lemma childAt_app p xs ys :
  childAt p (xs ++ ys) =
  match childAt p ys with Some c => Some c | None => childAt p xs end.
Proof.
  unfold childAt. rewrite rev_app_distr.
  induction (rev ys) as [|y l IH]; simpl; [reflexivity|].
  now destruct (String.eqb (path y) p).
Qed.

Lemma setAll_spec items :
  forall m, keyed m ->
    keyed (setAll items m) /\
    forall p, valueAt p (setAll items m) =
              match childAt p items with Some c => Some c | None => valueAt p m end.
Proof.
  unfold setAll.
  induction items as [|x items IH] using rev_ind; intros m Hm.
  - simpl. split; [exact Hm|]. reflexivity.
  - rewrite fold_left_app. simpl.
    destruct (IH m Hm) as [Hk Hv]. split.
    + now apply mapSet_keyed.
    + intros p. rewrite mapSet_valueAt, childAt_snoc, Hv.
      now destruct (String.eqb (path x) p).
Qed.

Lemma setAll_fresh items :
  forall m,
    NoDup (List.map fst m ++ List.map path items) ->
    setAll items m = (m ++ List.map (fun c => (path c, c)) items)%list.
Proof.
  unfold setAll. induction items as [|x items IH]; intros m Hnd; simpl.
  - now rewrite app_nil_r.
  - simpl in Hnd. rewrite mapSet_fresh.
    + rewrite IH.
      * now rewrite <- app_assoc.
      * rewrite List.map_app. simpl. rewrite <- app_assoc. exact Hnd.
    + apply NoDup_app in Hnd as (_ & Hdisj & _).
      intros Hin. apply (Hdisj _ Hin). left.
Qed.

Lemma keyed_values (m : list (string * StorageItem)) (p : string) :
  keyed m -> childAt p (List.map snd m) = valueAt p m.
Proof.
  intros [Hnd Hall]. unfold valueAt.
  induction m as [|[k v] m IH]; [reflexivity|].
  apply Forall_cons in Hall as [Hh Ht]. simpl in Hh.
  apply NoDup_cons in Hnd as [Hk Hnd]. specialize (IH Hnd Ht).
  change (List.map snd ((k, v) :: m)) with ([v] ++ List.map snd m)%list.
  rewrite childAt_app, IH. unfold childAt. cbn [rev app List.find fst snd].
  rewrite Hh.
  destruct (String.eqb_spec k p) as [->|Hne].
  - destruct (List.find _ m) as [[k' v']|] eqn:Hfind; [|reflexivity].
    apply find_some in Hfind as [Hin Heq]. simpl in Heq.
    apply String.eqb_eq in Heq. subst k'.
    exfalso. apply Hk. apply list_elem_of_fmap. exists (p, v'). split; [reflexivity|].
    now apply list_elem_of_In.
  - now destruct (List.find _ m).
Qed.

(** C8. Joining a tree with nothing returns the tree.  Joining [a] and
    [b] at the same path returns a node at that path whose metadata is
    [a]'s unless [a] has none, then [b]'s; its children have pairwise
    distinct paths, and reading a child by path gives [b]'s child at that
    path if [b] has one (on a collision [b]'s entry wins) and [a]'s
    otherwise; when no path occurs twice among the children of [a] and
    [b], the children are [a]'s followed by [b]'s. *)
Theorem joinItems_merge (a b : StorageItem) :
  joinItems (Some a) None = Ok a /\
  joinItems None (Some b) = Ok b /\
  (path a = path b -> path a <> "" ->
   exists merged : StorageItem,
     joinItems (Some a) (Some b) = Ok merged /\
     path merged = path a /\
     parentPath merged = parentPath a /\
     item merged = match item a with Some i => Some i | None => item b end /\
     NoDup (List.map path (files merged)) /\
     (forall p : string,
        childAt p (files merged) =
        match childAt p (files b) with
        | Some c => Some c
        | None => childAt p (files a)
        end) /\
     (NoDup (List.map path (files a ++ files b)) ->
      files merged = (files a ++ files b)%list)).
Proof.
  split; [reflexivity|]. split; [reflexivity|].
  intros Hpath Hne. unfold joinItems.
  rewrite Hpath, String.eqb_refl. cbn [negb]. rewrite <- Hpath.
  assert (Hempty : keyed []) by (split; constructor).
  destruct (setAll_spec (files a ++ files b) [] Hempty) as [Hk Hv].
  unfold new. destruct (path a) as [|c0 rest] eqn:Hp; [congruence|].
  eexists. split; [reflexivity|]. cbn [path parentPath item files].
  repeat split.
  - destruct Hk as [Hnd Hall].
    assert (Heq : List.map path (List.map snd (setAll (files a ++ files b) [])) =
                  List.map fst (setAll (files a ++ files b) [])).
    { clear Hnd Hv. induction Hall as [|[k v] m Hh Ht IH]; [reflexivity|].
      simpl in *. now rewrite Hh, IH. }
    now rewrite Heq.
  - intros p. rewrite keyed_values by exact Hk. rewrite Hv.
    rewrite childAt_app.
    destruct (childAt p (files b)); [reflexivity|].
    now destruct (childAt p (files a)).
  - intros Hnd. rewrite setAll_fresh by exact Hnd. simpl.
    rewrite List.map_map. simpl. apply List.map_id.
Qed.

End Merge.

(** ** The chunked uploader *)

Section Uploader.

Import Pan123Client.

Variable sparkMd5 : string -> string.

Lemma steps_app (tr1 tr2 : list Obs) :
  steps (tr1 ++ tr2) = (steps tr1 ++ steps tr2)%list.
Proof. apply omap_app. Qed.

Lemma acceptedChunks_app (s1 s2 : list Step) :
  acceptedChunks (s1 ++ s2) = (acceptedChunks s1 ++ acceptedChunks s2)%list.
Proof. apply omap_app. Qed.

Ltac attempts_done :=
  first
    [ apply attempt_accepted; lia
    | apply attempt_exhausted
    | apply (attempt_retry _ _ _ 1); [lia|attempts_done]
    | apply (attempt_retry _ _ _ 2); [lia|attempts_done] ].

Ltac answer :=
  repeat match goal with
         | |- forall _ : SliceReply, _ => intros [ | ? | ? ? | ? ? | [?|] ]
         | |- forall _ : unit, _ => intros []
         | |- context [String.eqb ?a ?b] => destruct (String.eqb a b) eqn:?
         | |- context [Z.leb ?a ?b] =>
             let v := eval vm_compute in (Z.leb a b) in
             first [constr_eq v true | constr_eq v false];
             change (Z.leb a b) with v
         | |- context [Z.ltb ?a ?b] =>
             let v := eval vm_compute in (Z.ltb a b) in
             first [constr_eq v true | constr_eq v false];
             change (Z.ltb a b) with v
         | _ => progress cbn
         | _ => progress (unfold MAX_SLICE_RETRIES, RETRY_DELAY)
         end.

(** The retry loop of one chunk: at most three submissions of the same
    chunk, a wait of [attempt * RETRY_DELAY] after each failed one but the
    last, success exactly when a submission was accepted. *)
Lemma uploadSliceWithRetry_attempts (server preuploadId fname : string)
    (file : File) (offset stop sliceNo : Z) (c : ascii) (token : string) :
  let this := mk (Some (String c token)) in
  always (fun tr x =>
            x.2 = this /\
            exists (res : SliceUploadResult),
              x.1 = Ok res /\
              chunkAttempts sliceNo offset stop 1 (steps tr) (success res) /\
              (success res = false -> error res <> None))
         (uploadSliceWithRetry sparkMd5 server preuploadId file offset stop
            sliceNo fname this).
Proof.
  intros this. subst this. unfold uploadSliceWithRetry.
  change (Z.to_nat MAX_SLICE_RETRIES) with 3%nat.
  answer; try congruence;
    (split; [reflexivity|]; eexists; split; [reflexivity|]; cbn;
     split; [attempts_done | intros; congruence]).
Qed.

Lemma chunkAttempts_accepted (k offset stop a : Z) (s : list Step) (ok : bool) :
  chunkAttempts k offset stop a s ok ->
  acceptedChunks s = if ok then [k] else [].
Proof. induction 1; cbn; auto. Qed.

Lemma ceilDiv_le (a b m : Z) : 0 < b -> (ceilDiv a b <= m <-> a <= m * b).
Proof.
  intros Hb. unfold ceilDiv. split; intros H.
  - destruct (Z_lt_le_dec (m * b) a) as [Hlt|]; [|assumption].
    assert ((- a) / b < - m) by (apply Z.div_lt_upper_bound; lia). lia.
  - assert (- m <= (- a) / b) by (apply Z.div_le_lower_bound; lia). lia.
Qed.

Lemma chunkNumbers_nil (first last : Z) :
  last < first -> chunkNumbers first last = [].
Proof.
  intros H. unfold chunkNumbers.
  replace (Z.to_nat (last - first + 1)) with 0%nat by lia. reflexivity.
Qed.

Lemma chunkNumbers_cons (first last : Z) :
  first <= last ->
  chunkNumbers first last = first :: chunkNumbers (first + 1) last.
Proof.
  intros H. unfold chunkNumbers.
  replace (Z.to_nat (last - first + 1))
    with (S (Z.to_nat (last - (first + 1) + 1))) by lia.
  cbn [seq List.map]. f_equal; [lia|].
  rewrite <- seq_shift, List.map_map. apply List.map_ext. intros i. lia.
Qed.

(** A completed upload accepted every chunk exactly once, in order. *)
Lemma chunkedUpload_accepted (chunkSize totalSize k : Z) (s : list Step) (ok : bool) :
  0 < chunkSize ->
  chunkedUpload chunkSize totalSize k s ok ->
  ok = true ->
  acceptedChunks s = chunkNumbers k (ceilDiv totalSize chunkSize).
Proof.
  intros Hcs H. induction H as [k Hdone | k s rest ok Hmore Hatt Hrest IH | k s Hmore Hatt];
    intros Hok; [| |discriminate].
  - rewrite chunkNumbers_nil; [reflexivity|].
    pose proof (proj2 (ceilDiv_le totalSize chunkSize (k - 1) Hcs) Hdone). lia.
  - rewrite acceptedChunks_app, (chunkAttempts_accepted _ _ _ _ _ _ Hatt), IH by assumption.
    rewrite (chunkNumbers_cons k); [reflexivity|].
    destruct (Z_lt_le_dec (ceilDiv totalSize chunkSize) k) as [Hlt|]; [|assumption].
    assert (ceilDiv totalSize chunkSize <= k - 1) as Hle by lia.
    apply (ceilDiv_le _ _ _ Hcs) in Hle. lia.
Qed.

(** The loop over the chunks, from chunk [k] at its offset. *)
Lemma sliceLoop_chunked (server preuploadId : string)
    (options : UploadSingleOptions) (chunkSize totalSlices : Z)
    (c : ascii) (token : string) :
  0 < chunkSize ->
  forall (fuel : nat) (k uploadedBytes : Z),
    (Z.to_nat (uo_size options - (k - 1) * chunkSize) <= fuel)%nat ->
    always (fun tr x =>
              exists ok : bool,
                chunkedUpload chunkSize (uo_size options) k (steps tr) ok /\
                (x.1 = Ok tt <-> ok = true))
           (sliceLoop sparkMd5 fuel
              (Z.min ((k - 1) * chunkSize) (uo_size options)) k uploadedBytes
              server preuploadId options chunkSize totalSlices
              (mk (Some (String c token)))).
Proof.
  intros Hcs. induction fuel as [|fuel IH]; intros k uploaded Hfuel;
    cbn [sliceLoop];
    destruct (Z.ltb_spec (Z.min ((k - 1) * chunkSize) (uo_size options))
                (uo_size options)) as [Hmore|Hdone];
    try lia.
  - cbn. exists true. split; [apply upload_complete; lia|tauto].
  - rewrite Z.min_l by lia.
    apply always_bind.
    eapply always_mono; [|apply uploadSliceWithRetry_attempts].
    intros tr [r this1] (Hthis & res & Hr & Hatt & Herr); cbn [fst snd] in *.
    subst r this1.
    replace ((k - 1) * chunkSize + chunkSize) with (k * chunkSize) in * by lia.
    destruct (success res) eqn:Hs; cbn [negb].
    + apply always_bind. cbn [ask always fst snd]. intros [].
      replace (k * chunkSize) with ((k + 1 - 1) * chunkSize) at 1 by lia.
      eapply always_mono; [|apply (IH (k + 1)); lia].
      intros tr' x (ok & Hup & Hiff). exists ok. split; [|exact Hiff].
      rewrite !steps_app. cbn [steps omap stepOf app].
      apply (upload_chunk _ _ k (steps tr) _ ok); [lia|exact Hatt|exact Hup].
    + cbn. exists false. split.
      * rewrite app_nil_r. apply upload_aborted; [lia|exact Hatt].
      * split; intros; discriminate.
  - cbn. exists true. split; [apply upload_complete; lia|tauto].
Qed.

(** C9. With a valid upload server and an access token, every run of
    [uploadSlices] submits the chunks one after the other, numbered from
    1, chunk [k] covering the bytes from [(k-1) * chunkSize]; a failed
    submission (time-out, network error, HTTP or server error, digest
    mismatch) is followed by a wait of the attempt number times 1000 ms
    and a new submission of the same chunk, at most three submissions in
    all; the third failure ends the run with an error and no later chunk
    is submitted.  The run returns normally exactly when every chunk was
    accepted within its three attempts, and then each chunk was accepted
    exactly once, in order. *)
Theorem uploadSlices_chunked (server : string) (session : UploadSession)
    (options : UploadSingleOptions) (this : t) (token : string) :
  accessToken this = Some token -> token <> "" ->
  normalizeServer server <> "" ->
  normalizeServer server <> "https:" ->
  normalizeServer server <> "https://" ->
  always (fun tr x =>
            exists ok : bool,
              chunkedUpload (chunkSizeOf session) (uo_size options) 1 (steps tr) ok /\
              (x.1 = Ok tt <-> ok = true) /\
              (x.1 = Ok tt ->
               acceptedChunks (steps tr) =
               chunkNumbers 1 (ceilDiv (uo_size options) (chunkSizeOf session))))
         (uploadSlices sparkMd5 server session options this).
Proof.
  intros Htoken Hne H1 H2 H3.
  destruct this as [tok]. cbn in Htoken. subst tok.
  destruct token as [|c token]; [congruence|].
  assert (Hcs : 0 < chunkSizeOf session).
  { unfold chunkSizeOf, DEFAULT_SLICE_SIZE.
    destruct (us_sliceSize session) as [n|]; [|lia].
    destruct (Z.ltb_spec 0 n); lia. }
  unfold uploadSlices.
  apply String.eqb_neq in H1, H2, H3. rewrite H1, H2, H3. cbn [orb].
  apply always_bind.
  destruct (Z.le_gt_cases (uo_size options) 0) as [Hnone|Hsome].
  - (* nothing to send: the loop exits at once *)
    destruct (Z.to_nat (uo_size options)); cbn [sliceLoop];
      (destruct (Z.ltb_spec 0 (uo_size options)); [lia|]);
      cbn [ret always fst snd];
      (destruct (Z.eqb_spec (uo_size options) 0); cbn;
       [intros []|];
       (exists true; split; [apply upload_complete; lia|];
        split; [tauto|]; intros _;
        rewrite chunkNumbers_nil; [reflexivity|];
        pose proof (proj2 (ceilDiv_le (uo_size options) (chunkSizeOf session) 0 Hcs));
        lia)).
  - pose proof (sliceLoop_chunked (normalizeServer server)
                  (nonNull (us_preuploadId session)) options
                  (chunkSizeOf session)
                  (if 0 <? uo_size options
                   then ceilDiv (uo_size options) (chunkSizeOf session) else 0)
                  c token Hcs (Z.to_nat (uo_size options)) 1 0) as Hloop.
    replace (Z.min ((1 - 1) * chunkSizeOf session) (uo_size options)) with 0
      in Hloop by lia.
    eapply always_mono; [|apply Hloop; lia].
    intros tr [r this1] (ok & Hup & Hiff); cbn [fst snd] in *.
    destruct r as [[]|e].
    + destruct (Z.eqb_spec (uo_size options) 0); [lia|].
      cbn. rewrite app_nil_r. exists ok. split; [exact Hup|].
      split; [exact Hiff|]. intros _.
      apply (chunkedUpload_accepted _ _ _ _ _ Hcs Hup). now apply Hiff.
    + cbn. exists ok. split; [exact Hup|]. split; [exact Hiff|].
      intros; discriminate.
Qed.

End Uploader.

(** ** The theorems at sample inputs *)

Lemma detectConflict_spec_witness :
  ConflictHandler.detectConflict "data/a.sy" 120 130
    Sample.localRemote Sample.cloudRemote = true /\
  ConflictHandler.detectConflict "data/a.sy" 120 120
    Sample.localRemote Sample.cloudRemote = false.
Proof.
  pose proof (detectConflict_spec "data/a.sy" 120 130
                Sample.localRemote Sample.cloudRemote) as H.
  pose proof (detectConflict_spec "data/a.sy" 120 120
                Sample.localRemote Sample.cloudRemote) as H'.
  cbv zeta in H, H'.
  destruct H as (_ & _ & H & _). destruct H' as (_ & H' & _).
  split.
  - apply H.
    + vm_compute. intros [E _]. discriminate E.
    + discriminate.
    + vm_compute. split; reflexivity.
  - apply H'. reflexivity.
Defined.

Lemma lock_contention_attempts_nothing_witness :
  mutations (trace_of Scenario.contended) = [] /\
  (value_of (run World.respond
               (sync (fun _ _ => ret tt) (Scenario.manager keepNewer))
               Scenario.busyHub)).1 =
    Err (mkError "同步锁已存在，请稍后再试").
Proof.
  destruct (lock_contention_attempts_nothing World.respond (fun _ _ => ret tt)
              (Scenario.manager keepNewer) (value_of Scenario.bound).2
              Scenario.busyHub (world_of Scenario.bound)
              (world_of Scenario.contended)
              (mkRemote "本地" false (Some "device-a") ∅,
               mkRemote "云端" true (Some "hub-1") ∅)
              (trace_of Scenario.bound) (trace_of Scenario.contended)
              (value_of Scenario.contended))
    as (_ & Hmut & Hsync).
  - vm_compute. reflexivity.
  - vm_compute. reflexivity.
  - vm_compute. reflexivity.
  - split; [exact Hmut|]. rewrite Hsync. reflexivity.
Defined.

Lemma load_never_raises_witness :
  firstRequest (CloudIndexManager.load (CloudIndexManager.mk Scenario.folder None)) =
    Some (ListFiles Scenario.folder) /\
  value_of (run World.respond
              (CloudIndexManager.load (CloudIndexManager.mk Scenario.folder None))
              Scenario.busyHub) =
    (Ok Scenario.hubIndex,
     CloudIndexManager.mk Scenario.folder (Some Scenario.hubIndex)) /\
  value_of (run World.respond
              (CloudIndexManager.load (CloudIndexManager.mk Scenario.folder None))
              Scenario.lockedHub) =
    (Ok (mkCloudIndexV2 2 Scenario.now "" ∅ None),
     CloudIndexManager.mk Scenario.folder
       (Some (mkCloudIndexV2 2 Scenario.now "" ∅ None))).
Proof.
  destruct (load_never_raises Scenario.folder) as (Hfirst & _ & Hrun & Hfail).
  split; [exact Hfirst|]. split.
  - cbv zeta in Hrun.
    set (indexFile := Scenario.hubFile 11 "cloud-index-v2.json" "1762058400000").
    set (response := World.okResponse (BIndex Scenario.hubIndex)).
    set (indexData := mkIndexJson (Some 2) (lastUpdated Scenario.hubIndex)
                        "hub-1" (Some (files Scenario.hubIndex))).
    rewrite (Hrun World.t World.respond Scenario.busyHub Scenario.busyHub
               Scenario.busyHub Scenario.busyHub
               (List.map World.ho_file (World.hub Scenario.busyHub))
               indexFile (World.urlOf 11) response indexData
               (files Scenario.hubIndex));
      [reflexivity|vm_compute; reflexivity ..].
  - cbv zeta in Hfail.
    destruct (Hfail World.t World.respond Scenario.lockedHub Scenario.lockedHub)
      as [Hvalue _]; [|exact Hvalue].
    apply (indexMissing World.respond Scenario.folder Scenario.lockedHub
             (List.map World.ho_file (World.hub Scenario.lockedHub)));
      vm_compute; reflexivity.
Defined.

Lemma handleDeletion_deletes_iff_witness :
  handleDeletion "data/b" None (Some Sample.b50) Sample.neverEdited Sample.hubAt80
    (Some dataTarget) (Scenario.manager keepNewer) =
  deleteFromCloud "data/b" Sample.b50 (Scenario.manager keepNewer) /\
  handleDeletion "data/b" None (Some Sample.b50) Sample.neverEdited Sample.hubAt90
    (Some dataTarget) (Scenario.manager keepNewer) =
  downloadFileFromCloud "data/b" Sample.b50 (Scenario.manager keepNewer) /\
  handleDeletion "data/snippets/b" None (Some Sample.b50) Sample.neverEdited
    Sample.hubAt80 (Some Sample.snippets) (Scenario.manager keepNewer) =
  downloadFileFromCloud "data/snippets/b" Sample.b50 (Scenario.manager keepNewer) /\
  exists idx' : CloudIndexV2,
    files idx' = ∅ /\
    last (mutations (trace_of
            (run World.respond
               (handleDeletion "data/a.sy" None (Some Sample.note50)
                  Sample.neverEdited Sample.hubAt80 (Some dataTarget)
                  Sample.indexedManager)
               Scenario.busyHub))) =
    Some (UploadSingle Scenario.folder "cloud-index-v2.json" (BIndex idx') 2).
Proof.
  pose proof (handleDeletion_deletes_iff "data/a.sy" Sample.note50 true
                Sample.neverEdited Sample.hubAt80 (Some dataTarget)
                Sample.indexedManager) as Hidx.
  pose proof (handleDeletion_deletes_iff "data/b" Sample.b50 true
                Sample.neverEdited Sample.hubAt80 (Some dataTarget)
                (Scenario.manager keepNewer)) as H.
  pose proof (handleDeletion_deletes_iff "data/b" Sample.b50 true
                Sample.neverEdited Sample.hubAt90 (Some dataTarget)
                (Scenario.manager keepNewer)) as Hlater.
  pose proof (handleDeletion_deletes_iff "data/snippets/b" Sample.b50 true
                Sample.neverEdited Sample.hubAt80 (Some Sample.snippets)
                (Scenario.manager keepNewer)) as H'.
  cbv zeta in H, Hlater, H'.
  destruct H as (H & _). destruct Hlater as (_ & Hlater & _).
  destruct H' as (_ & H' & _).
  cbv zeta in Hidx. destruct Hidx as (Hrun & _ & _ & _ & Hsave & _).
  split; [|split; [|split]].
  - apply H. split; [|reflexivity]. split; [reflexivity|]. split; [reflexivity|].
    intros peer t Ht. cbn in Ht.
    apply lookup_singleton_Some in Ht as [_ <-]. discriminate.
  - apply Hlater. left. intros (_ & _ & Hall).
    specialize (Hall "device-b" 90 eq_refl). apply Hall. reflexivity.
  - apply H'. right. reflexivity.
  - rewrite Hrun.
    2: { split; [|reflexivity]. split; [reflexivity|]. split; [reflexivity|].
         intros peer t Ht. cbn in Ht.
         apply lookup_singleton_Some in Ht as [_ <-]. discriminate. }
    assert (Hentry : files Scenario.hubIndex !! "data/a.sy" = Some Scenario.note)
      by (vm_compute; reflexivity).
    specialize (Hsave Scenario.hubIndex Scenario.note eq_refl Hentry).
    pose proof (always_run World.respond _ _ Scenario.busyHub Hsave) as Hlast.
    cbv beta in Hlast.
    destruct Hlast as (idx' & _ & Hfiles & Hlast);
      [vm_compute; reflexivity|vm_compute; reflexivity|].
    exists idx'. split; [|exact Hlast].
    rewrite Hfiles. vm_compute. reflexivity.
Defined.

Lemma syncFile_noops_witness :
  syncFile World.utcFormattedDate "data/snippets/a.sy" (Some Sample.a120)
    (Some Sample.a130) Sample.localRemote Sample.cloudRemote
    (Some Sample.snippets) (Scenario.manager keepNewer) =
    Ret (Ok tt, Scenario.manager keepNewer) /\
  syncFile World.utcFormattedDate "data/a.sy" (Some Sample.a120)
    (Some Sample.a120) Sample.localRemote Sample.cloudRemote
    (Some dataTarget) (Scenario.manager keepNewer) =
    Ret (Ok tt, Scenario.manager keepNewer) /\
  always (fun tr x =>
            x.1 = Ok tt /\ mutations tr = [] /\
            cloudIndexManager x.2 = cloudIndexManager (Scenario.manager keepLocal) /\
            syncErrors x.2 = syncErrors (Scenario.manager keepLocal))
    (syncFile World.utcFormattedDate "data/a.sy" (Some Sample.a120)
       (Some Sample.a130) Sample.localRemote Sample.cloudRemote
       (Some dataTarget) (Scenario.manager keepLocal)).
Proof.
  destruct (syncFile_noops World.utcFormattedDate "data/snippets/a.sy"
              Sample.localRemote Sample.cloudRemote (Some Sample.snippets)
              (Scenario.manager keepNewer)) as (_ & Honly & _ & _).
  destruct (syncFile_noops World.utcFormattedDate "data/a.sy"
              Sample.localRemote Sample.cloudRemote (Some dataTarget)
              (Scenario.manager keepNewer)) as (_ & _ & Hequal & _).
  destruct (syncFile_noops World.utcFormattedDate "data/a.sy"
              Sample.localRemote Sample.cloudRemote (Some dataTarget)
              (Scenario.manager keepLocal)) as (_ & _ & _ & Hkeep).
  split; [|split].
  - apply Honly. reflexivity.
  - apply Hequal. reflexivity.
  - apply Hkeep; vm_compute; reflexivity.
Defined.

Lemma joinItems_merge_witness :
  exists merged : StorageItem,
    StorageItem.joinItems (Some Sample.localTree) (Some Sample.cloudTree) = Ok merged /\
    StorageItem.childAt "data/a" (StorageItem.files merged) =
      Some (Sample.leaf "data/a" "a" 120) /\
    StorageItem.childAt "data/b" (StorageItem.files merged) =
      Some (Sample.leaf "data/b" "b" 50) /\
    StorageItem.childAt "data/c" (StorageItem.files merged) =
      Some (Sample.leaf "data/c" "c" 7).
Proof.
  destruct (joinItems_merge Sample.localTree Sample.cloudTree) as (_ & _ & H).
  destruct H as (merged & Hjoin & _ & _ & _ & _ & Hchild & _).
  - reflexivity.
  - vm_compute. discriminate.
  - exists merged. split; [exact Hjoin|].
    rewrite !Hchild. vm_compute. repeat split; reflexivity.
Defined.

Lemma uploadSlices_chunked_witness :
  always (fun tr x =>
            exists ok : bool,
              chunkedUpload 4 10 1 (steps tr) ok /\
              (x.1 = Ok tt <-> ok = true) /\
              (x.1 = Ok tt -> acceptedChunks (steps tr) = [1; 2; 3]))
         (Pan123Client.uploadSlices (fun data => data) "upload.example.com/"
            Sample.fourByteChunks Sample.tenBytes
            (Pan123Client.mk (Some "token"))).
Proof.
  apply (uploadSlices_chunked (fun data => data) "upload.example.com/"
           Sample.fourByteChunks Sample.tenBytes
           (Pan123Client.mk (Some "token")) "token").
  - reflexivity.
  - discriminate.
  - vm_compute. discriminate.
  - vm_compute. discriminate.
  - vm_compute. discriminate.
Defined.


(** * Further properties *)

(** ** The index store: what the mutators keep *)

Section IndexStoreFacts.

Import CloudIndexManager IndexStore.

Lemma downloadedIndex_version (tr : list Obs) (doc : CloudIndexV2) :
  downloadedIndex tr = Some doc -> version doc = 2 /\ filesPrototype doc = None.
Proof.
  unfold downloadedIndex.
  repeat (match goal with
          | |- context [match ?x with _ => _ end] => destruct x
          end; try discriminate).
  now intros [= <-].
Qed.

(** [load] hands out the cached document, or caches a version-2 one. *)
Lemma load_versioned (this : t) :
  always (fun tr x =>
            exists idx : CloudIndexV2,
              x.1 = Ok idx /\ x.2 = mk (remoteFolderId this) (Some idx) /\
              mutations tr = [] /\
              match currentIndex this with
              | Some cached => idx = cached
              | None => version idx = 2 /\ filesPrototype idx = None
              end)
         (load this).
Proof.
  destruct this as [folder [idx|]].
  - rewrite (load_cached (mk folder (Some idx)) idx eq_refl). simpl. eauto.
  - eapply always_mono; [|apply load_outcome].
    intros tr x (idx & H1 & H2 & H3 & H4). exists idx.
    split; [exact H1|]. split; [exact H2|]. split; [exact H3|].
    cbn. destruct (downloadedIndex tr) eqn:Hd.
    + subst. apply downloadedIndex_version in Hd. exact Hd.
    + destruct H4 as (Hv & _ & Hp & _). now split.
Qed.

(** The shape shared by [updateFile], [updateFiles], [clear] and
    [setInstanceId]: load, assign through the reference, save. *)
Lemma store_outcome (f : CloudIndexV2 -> CloudIndexV2) (this : t) :
  always (fun tr x =>
            exists idx idx' : CloudIndexV2,
              match currentIndex this with
              | Some cached => idx = cached
              | None => version idx = 2 /\ filesPrototype idx = None
              end /\
              x.2 = mk (remoteFolderId this) (Some idx') /\
              files idx' = files (f idx) /\ version idx' = version (f idx) /\
              indexInstanceId idx' = indexInstanceId (f idx) /\
              filesPrototype idx' = filesPrototype (f idx) /\
              Forall (indexMutation (remoteFolderId this)) (mutations tr) /\
              (x.1 = Ok tt ->
               exists pre,
                 mutations tr =
                 (pre ++ [UploadSingle (remoteFolderId this) indexFileName
                            (BIndex idx') 2])%list))
         (bind load (fun _ => bind (updateIndex f) (fun _ => save (Some Cached))) this).
Proof.
  apply always_bind.
  eapply always_mono; [|apply load_versioned].
  intros tr [r this1] (index & Hr & Hthis & Hmut & Hidx); cbn [fst snd] in *.
  subst r this1. rewrite updateIndex_then.
  eapply always_mono; [|apply save_outcome].
  intros tr' x (idx' & Hx & Hf & Hv & Hi & Hp & Hall & Hok).
  exists index, idx'. rewrite mutations_app, Hmut. cbn [app].
  repeat split; auto.
Qed.

Lemma bind_returns {S A B : Type} (m : M S A) (f : A -> M S B) (s s' : S)
    (a : A) :
  m s = Ret (Ok a, s') -> bind m f s = f a s'.
Proof.
  intros H. unfold bind. rewrite H. cbn. destruct (f a s'); reflexivity.
Qed.

(** *** Reading the object *)

(** Two documents with the same entries and prototype read alike. *)
Lemma valueOrNull_ext (idx idx' : CloudIndexV2) (path : string) :
  files idx' = files idx -> filesPrototype idx' = filesPrototype idx ->
  valueOrNull idx' path = valueOrNull idx path.
Proof. intros Hf Hp. unfold valueOrNull. now rewrite Hf, Hp. Qed.

Lemma getFile_cached (path : string) (folder : Z) (idx : CloudIndexV2) :
  getFile path (mk folder (Some idx)) =
  Ret (Ok (valueOrNull idx path), mk folder (Some idx)).
Proof. reflexivity. Qed.

Lemma hasFile_cached (path : string) (folder : Z) (idx : CloudIndexV2) :
  hasFile path (mk folder (Some idx)) =
  Ret (Ok (JsObject.has (files idx) (filesPrototype idx) path),
       mk folder (Some idx)).
Proof. reflexivity. Qed.

Lemma entryAt_read (idx : CloudIndexV2) (path : string) (info : CloudFileInfo) :
  entryAt idx path info ->
  valueOrNull idx path = Some (JsObject.VInfo info) /\
  JsObject.has (files idx) (filesPrototype idx) path = true /\
  listed idx path = true.
Proof.
  unfold valueOrNull, JsObject.has, listed, JsObject.test, JsObject.get.
  intros [Hown|(-> & Hnone & Hproto)].
  - now rewrite Hown.
  - rewrite Hnone, Hproto. repeat split; reflexivity.
Qed.

Lemma assign_fields (path : string) (info : CloudFileInfo) (idx : CloudIndexV2) :
  version (assign path info idx) = version idx /\
  indexInstanceId (assign path info idx) = indexInstanceId idx /\
  lastUpdated (assign path info idx) = lastUpdated idx.
Proof.
  unfold assign. now destruct (JsObject.set _ _ _ _).
Qed.

(** After [index.files[path] = info] the document holds [info] at [path]. *)
Lemma assign_entryAt (path : string) (info : CloudFileInfo) (idx : CloudIndexV2) :
  entryAt (assign path info idx) path info.
Proof.
  unfold entryAt, assign, JsObject.set.
  destruct (String.eqb_spec path "__proto__") as [->|Hne]; cbn [andb].
  - destruct (files idx !! "__proto__") as [old|] eqn:Hown; cbn [files filesPrototype].
    + left. apply lookup_insert_eq.
    + right. auto.
  - left. cbn. apply lookup_insert_eq.
Qed.

(** An assignment to another key leaves what is held at [path]. *)
Lemma assign_keeps_entryAt (key path : string) (info other : CloudFileInfo)
    (idx : CloudIndexV2) :
  key <> path -> entryAt idx path info -> entryAt (assign key other idx) path info.
Proof.
  intros Hne. unfold entryAt, assign, JsObject.set.
  destruct (String.eqb_spec key "__proto__") as [->|Hk]; cbn [andb].
  - destruct (files idx !! "__proto__") as [old|] eqn:Hown; cbn [files filesPrototype].
    + rewrite lookup_insert_ne by exact Hne. tauto.
    + intros [H|(-> & _)]; [now left|congruence].
  - cbn [files filesPrototype]. rewrite lookup_insert_ne by exact Hne. tauto.
Qed.

(** An assignment to a key other than ["__proto__"] changes no other read. *)
Lemma assign_other (key path : string) (info : CloudFileInfo) (idx : CloudIndexV2) :
  key <> "__proto__" -> path <> key ->
  files (assign key info idx) !! path = files idx !! path /\
  filesPrototype (assign key info idx) = filesPrototype idx /\
  valueOrNull (assign key info idx) path = valueOrNull idx path.
Proof.
  intros Hk Hne. unfold valueOrNull, assign, JsObject.set, JsObject.get.
  destruct (String.eqb_spec key "__proto__") as [->|_]; [congruence|].
  cbn. rewrite lookup_insert_ne by congruence. auto.
Qed.

(** An assignment to ["__proto__"] adds no entry when none has that name. *)
Lemma assign_proto (info : CloudFileInfo) (idx : CloudIndexV2) :
  files idx !! "__proto__" = None ->
  files (assign "__proto__" info idx) = files idx /\
  filesPrototype (assign "__proto__" info idx) = Some info.
Proof. intros H. unfold assign, JsObject.set. rewrite H. now cbn. Qed.

Lemma assignAll_app (b1 b2 : list (string * CloudFileInfo)) (idx : CloudIndexV2) :
  assignAll (b1 ++ b2) idx = assignAll b2 (assignAll b1 idx).
Proof. apply fold_left_app. Qed.

Lemma assignAll_fields (batch : list (string * CloudFileInfo)) (idx : CloudIndexV2) :
  version (assignAll batch idx) = version idx /\
  indexInstanceId (assignAll batch idx) = indexInstanceId idx.
Proof.
  revert idx. induction batch as [|[k i] batch IH]; intros idx; [now split|].
  change (assignAll ((k, i) :: batch) idx) with (assignAll batch (assign k i idx)).
  destruct (IH (assign k i idx)) as [-> ->].
  destruct (assign_fields k i idx) as (-> & -> & _). now split.
Qed.

Lemma assignAll_other (batch : list (string * CloudFileInfo)) (idx : CloudIndexV2)
    (path : string) :
  "__proto__" ∉ batch.*1 -> path ∉ batch.*1 ->
  valueOrNull (assignAll batch idx) path = valueOrNull idx path.
Proof.
  revert idx. induction batch as [|[k i] batch IH]; intros idx Hproto Hnot;
    [reflexivity|].
  change (assignAll ((k, i) :: batch) idx) with (assignAll batch (assign k i idx)).
  rewrite fmap_cons in Hproto, Hnot. cbn [fst] in Hproto, Hnot.
  apply not_elem_of_cons in Hproto as [Hk Hproto].
  apply not_elem_of_cons in Hnot as [Hne Hnot].
  rewrite IH by assumption. apply assign_other; congruence.
Qed.

Lemma assignAll_keeps_entryAt (batch : list (string * CloudFileInfo))
    (idx : CloudIndexV2) (path : string) (info : CloudFileInfo) :
  path ∉ batch.*1 -> entryAt idx path info -> entryAt (assignAll batch idx) path info.
Proof.
  revert idx. induction batch as [|[k i] batch IH]; intros idx Hnot H; [exact H|].
  change (assignAll ((k, i) :: batch) idx) with (assignAll batch (assign k i idx)).
  rewrite fmap_cons in Hnot. cbn [fst] in Hnot.
  apply not_elem_of_cons in Hnot as [Hne Hnot].
  apply IH; [exact Hnot|]. apply assign_keeps_entryAt; [congruence|exact H].
Qed.

Lemma unassign_other (path other : string) (idx : CloudIndexV2) :
  other <> path -> valueOrNull (unassign path idx) other = valueOrNull idx other.
Proof.
  intros Hne. unfold valueOrNull, unassign, setFiles, JsObject.get. cbn.
  now rewrite lookup_delete_ne by congruence.
Qed.

(** What an object without own properties holds: the inherited names. *)
Lemma has_inherited_only (path : string) :
  JsObject.has ∅ None path = true <->
  path = "__proto__" \/ path ∈ JsObject.methods.
Proof.
  unfold JsObject.has, JsObject.get, JsObject.inherited, JsObject.method.
  rewrite lookup_empty.
  destruct (String.eqb_spec path "__proto__") as [->|Hne]; [tauto|].
  destruct (existsb (String.eqb path) JsObject.methods) eqn:Hm.
  - split; [|reflexivity]. intros _. right.
    apply existsb_exists in Hm as (m & Hin & ->%String.eqb_eq).
    now apply list_elem_of_In.
  - split; [discriminate|]. intros [?|Hin]; [congruence|].
    apply list_elem_of_In in Hin.
    assert (existsb (String.eqb path) JsObject.methods = true) as Ht.
    { apply existsb_exists. exists path. split; [exact Hin|apply String.eqb_refl]. }
    congruence.
Qed.

End IndexStoreFacts.

Section IndexStoreQueries.

Import CloudIndexManager IndexStore.

(** X1. [updateFile(path, info)], however it ends (also when the upload of
    the index fails), leaves the cached object reading [info] at [path]:
    [getFile] and [hasFile] then answer [info] and true without any
    request.  The cached object then holds [info] at [path] as an own
    entry, except at ["__proto__"] with no own entry of that name, where
    the assignment adds no entry and installs [info] as the prototype of
    [files].  On a manager that had a cached index, an update at a path
    other than ["__proto__"] leaves every other path reading as before. *)
Theorem updateFile_then_lookup (path : string) (info : CloudFileInfo) (this : t) :
  always (fun tr x =>
            getFile path x.2 = Ret (Ok (Some (JsObject.VInfo info)), x.2) /\
            hasFile path x.2 = Ret (Ok true, x.2) /\
            (exists idx, currentIndex x.2 = Some idx /\ entryAt idx path info /\
               (path <> "__proto__" -> files idx !! path = Some info)) /\
            forall cached,
              currentIndex this = Some cached ->
              (path <> "__proto__" ->
               forall other, other <> path ->
                 getFile other x.2 = Ret (Ok (valueOrNull cached other), x.2)) /\
              (path = "__proto__" -> files cached !! "__proto__" = None ->
               exists idx, currentIndex x.2 = Some idx /\
                 files idx = files cached /\ filesPrototype idx = Some info))
         (updateFile path info this).
Proof.
  unfold updateFile. eapply always_mono; [|apply store_outcome].
  intros tr x (idx & idx' & Hidx & -> & Hf & _ & _ & Hp & _).
  assert (Hat : entryAt idx' path info).
  { pose proof (assign_entryAt path info idx) as H. unfold entryAt in *.
    now rewrite Hf, Hp. }
  destruct (entryAt_read _ _ _ Hat) as (Hget & Hhas & _).
  rewrite !getFile_cached, hasFile_cached, Hget, Hhas.
  split; [reflexivity|]. split; [reflexivity|]. split.
  { exists idx'. split; [reflexivity|]. split; [exact Hat|].
    intros Hne. destruct Hat as [H|(-> & _)]; [exact H|congruence]. }
  intros cached Hc. rewrite Hc in Hidx. subst idx. split.
  - intros Hproto other Hne. rewrite getFile_cached.
    rewrite (valueOrNull_ext _ _ other Hf Hp).
    destruct (assign_other path other info cached Hproto Hne) as (_ & _ & ->).
    reflexivity.
  - intros -> Hnone. exists idx'. split; [reflexivity|].
    destruct (assign_proto info cached Hnone) as [H1 H2].
    now rewrite Hf, Hp, H1, H2.
Qed.

(** X2. [removeFile(path)], however it ends, leaves the cached object
    without an own entry at [path].  When nothing is inherited at [path]
    (no [Object.prototype] name, no installed prototype field),
    [getFile] then answers null and [hasFile] false without any request;
    an inherited name still reads as present.  The prototype of [files]
    is the one of the cached index, and [Object.prototype] on a manager
    that had to load.  On a manager with a cached index every other path
    reads as before, and when the path did not read as present nothing is
    requested and the manager is unchanged. *)
Theorem removeFile_then_lookup (path : string) (this : t) :
  always (fun tr x =>
            exists idx : CloudIndexV2,
              currentIndex x.2 = Some idx /\ files idx !! path = None /\
              filesPrototype idx =
                match currentIndex this with
                | Some cached => filesPrototype cached
                | None => None
                end /\
              (JsObject.inherited (filesPrototype idx) path = None ->
               getFile path x.2 = Ret (Ok None, x.2) /\
               hasFile path x.2 = Ret (Ok false, x.2)) /\
              (is_Some (JsObject.inherited (filesPrototype idx) path) ->
               hasFile path x.2 = Ret (Ok true, x.2)) /\
              forall cached,
                currentIndex this = Some cached ->
                (forall other, other <> path ->
                   getFile other x.2 = Ret (Ok (valueOrNull cached other), x.2)) /\
                (listed cached path = false -> tr = [] /\ x = (Ok tt, this)))
         (removeFile path this).
Proof.
  assert (Hread : forall folder idx,
            files idx !! path = None ->
            (JsObject.inherited (filesPrototype idx) path = None ->
             getFile path (mk folder (Some idx)) =
               Ret (Ok None, mk folder (Some idx)) /\
             hasFile path (mk folder (Some idx)) =
               Ret (Ok false, mk folder (Some idx))) /\
            (is_Some (JsObject.inherited (filesPrototype idx) path) ->
             hasFile path (mk folder (Some idx)) =
               Ret (Ok true, mk folder (Some idx)))).
  { intros folder idx Hnone.
    rewrite getFile_cached, hasFile_cached.
    unfold valueOrNull, JsObject.has, JsObject.get. rewrite Hnone. split.
    - intros ->. now split.
    - intros [v ->]. reflexivity. }
  destruct this as [folder [cached|]]; unfold removeFile.
  - rewrite (bind_returns _ _ _ _ _
               (load_cached (mk folder (Some cached)) cached eq_refl)).
    cbn [currentIndex].
    destruct (listed cached path) eqn:Hp.
    + rewrite updateIndex_then.
      eapply always_mono; [|apply save_outcome].
      intros tr' x (idx' & -> & Hf & _ & _ & Hpr & _).
      cbn [files filesPrototype unassign setFiles] in Hf, Hpr.
      assert (Hnone : files idx' !! path = None)
        by (rewrite Hf; apply lookup_delete_eq).
      exists idx'. split; [reflexivity|]. split; [exact Hnone|].
      split; [exact Hpr|].
      destruct (Hread folder idx' Hnone) as [H1 H2].
      split; [exact H1|]. split; [exact H2|].
      intros ? [= <-]. split; [|congruence].
      intros other Hne. rewrite getFile_cached.
      rewrite (valueOrNull_ext (unassign path cached) idx' other Hf Hpr).
      now rewrite unassign_other.
    + cbn [ret always fst snd].
      assert (Hnone : files cached !! path = None) by now apply not_listed_own.
      exists cached. split; [reflexivity|]. split; [exact Hnone|].
      split; [reflexivity|].
      destruct (Hread folder cached Hnone) as [H1 H2].
      split; [exact H1|]. split; [exact H2|].
      intros ? [= <-]. split; [|auto].
      intros other _. apply getFile_cached.
  - apply always_bind.
    eapply always_mono; [|apply load_versioned].
    intros tr [r this1] (index & Hr & Hthis & Hmut & Hv & Hproto);
      cbn [fst snd remoteFolderId currentIndex] in *.
    subst r this1.
    destruct (listed index path) eqn:Hp.
    + rewrite updateIndex_then.
      eapply always_mono; [|apply save_outcome].
      intros tr' x (idx' & -> & Hf & _ & _ & Hpr & _).
      cbn [files filesPrototype unassign setFiles] in Hf, Hpr.
      assert (Hnone : files idx' !! path = None)
        by (rewrite Hf; apply lookup_delete_eq).
      exists idx'. split; [reflexivity|]. split; [exact Hnone|].
      split; [congruence|].
      destruct (Hread folder idx' Hnone) as [H1 H2].
      split; [exact H1|]. split; [exact H2|]. discriminate.
    + cbn [ret always fst snd].
      assert (Hnone : files index !! path = None) by now apply not_listed_own.
      exists index. split; [reflexivity|]. split; [exact Hnone|].
      split; [exact Hproto|].
      destruct (Hread folder index Hnone) as [H1 H2].
      split; [exact H1|]. split; [exact H2|]. discriminate.
Qed.

End IndexStoreQueries.

Section IndexStoreWrites.

Import CloudIndexManager IndexStore.

(** X3. [save], called without an argument or with the cached object, on
    a manager with a cached index changes the hub only by
    deleting the listed index object and uploading the index under the
    index file name with the overwrite strategy; it never changes the
    entries, version or owner of the cached document; and when it returns
    normally its last mutating request uploaded exactly the document that
    is cached afterwards.  Without a cached index it raises before any
    request. *)
Theorem save_uploads_cached_document (index : option IndexRef) (folder : Z)
    (idx : CloudIndexV2) :
  always (fun tr x =>
            exists idx' : CloudIndexV2,
              x.2 = mk folder (Some idx') /\
              files idx' = files idx /\ version idx' = version idx /\
              indexInstanceId idx' = indexInstanceId idx /\
              Forall (indexMutation folder) (mutations tr) /\
              (x.1 = Ok tt ->
               exists pre,
                 mutations tr =
                 (pre ++ [UploadSingle folder indexFileName (BIndex idx') 2])%list))
         (save index (mk folder (Some idx))) /\
  save index (mk folder None) =
    Ret (Err (mkError "No index to save"), mk folder None).
Proof.
  split; [|now destruct index as [[]|]]. eapply always_mono; [|apply save_outcome].
  intros tr x (idx' & Hx & Hf & Hv & Hi & _ & Hall & Hok). exists idx'. auto 10.
Qed.

Lemma wellVersioned_cached (folder : Z) (idx : CloudIndexV2) :
  wellVersioned (mk folder (Some idx)) <-> version idx = 2.
Proof. reflexivity. Qed.

Lemma store_versioned (f : CloudIndexV2 -> CloudIndexV2) (this : t) :
  (forall idx, version (f idx) = version idx) ->
  wellVersioned this ->
  always (fun _ x => wellVersioned x.2)
         (bind load (fun _ => bind (updateIndex f) (fun _ => save (Some Cached))) this).
Proof.
  intros Hf Hthis. eapply always_mono; [|apply store_outcome].
  intros tr x (idx & idx' & Hidx & -> & _ & Hv & _).
  apply wellVersioned_cached. rewrite Hv, Hf.
  destruct this as [folder [c|]]; cbn in *; [congruence|apply Hidx].
Qed.

Lemma load_keeps_version (this : t) :
  wellVersioned this ->
  always (fun _ x =>
            wellVersioned x.2 /\
            exists idx, x.1 = Ok idx /\ x.2 = mk (remoteFolderId this) (Some idx))
         (load this).
Proof.
  intros Hthis. eapply always_mono; [|apply load_versioned].
  intros tr x (idx & Hr & -> & _ & Hidx). split; [|eauto].
  apply wellVersioned_cached.
  destruct this as [folder [c|]]; cbn in *; [congruence|apply Hidx].
Qed.

Lemma query_versioned {A : Type} (q : CloudIndexV2 -> A) (this : t) :
  wellVersioned this ->
  always (fun _ x => wellVersioned x.2)
         (bind load (fun index => ret (q index)) this).
Proof.
  intros Hthis. apply always_bind.
  eapply always_mono; [|apply (load_keeps_version this Hthis)].
  intros tr [r s] (Hv & idx & Hr & Hs); cbn [fst snd] in *. subst r.
  exact Hv.
Qed.

Lemma removeEach_version (paths : list string) (idx : CloudIndexV2) (n : Z) :
  version (removeEach paths idx n).1 = version idx.
Proof.
  revert idx n. induction paths as [|p paths IH]; intros idx n; [reflexivity|].
  cbn [removeEach]. destruct (listed idx p); rewrite IH; reflexivity.
Qed.

(** X4. No method of the index manager ever leaves a document of another
    version than 2 in the cache: if the cache is empty or holds a
    version-2 document before the call, so it does after it, whatever the
    hub answered and whether the call returned or raised. *)
Theorem index_version_invariant (this : t) (path : string)
    (info : CloudFileInfo) (batch : list (string * CloudFileInfo))
    (paths : list string) (id : string) (index : option IndexRef) :
  wellVersioned this ->
  let keeps {A : Type} (m : M t A) :=
    always (fun _ x => wellVersioned x.2) (m this) in
  keeps load /\ keeps (save index) /\ keeps (updateFile path info) /\
  keeps (updateFiles batch) /\ keeps (removeFile path) /\
  keeps (removeFiles paths) /\ keeps (getFile path) /\ keeps getAllFiles /\
  keeps (hasFile path) /\ keeps clear /\ keeps (setInstanceId id) /\
  keeps getStats /\ keeps resetCache.
Proof.
  intros Hthis keeps. subst keeps. cbv beta.
  repeat match goal with |- _ /\ _ => split end;
    try (apply store_versioned; [reflexivity|exact Hthis]);
    try (apply query_versioned; exact Hthis).
  - eapply always_mono; [|apply (load_keeps_version this Hthis)].
    now intros tr x [H _].
  - destruct this as [folder [idx|]]; [|now destruct index as [[]|]].
    eapply always_mono; [|apply save_outcome].
    intros tr x (idx' & -> & _ & Hv & _). apply wellVersioned_cached.
    now rewrite Hv.
  - apply store_versioned; [|exact Hthis]. intros idx. apply assign_fields.
  - apply store_versioned; [|exact Hthis]. intros idx. apply assignAll_fields.
  - unfold removeFile. apply always_bind.
    eapply always_mono; [|apply (load_keeps_version this Hthis)].
    intros tr [r s] (Hv & idx & Hr & Hs); cbn [fst snd] in *. subst r s.
    destruct (listed idx path).
    + rewrite updateIndex_then. eapply always_mono; [|apply save_outcome].
      intros tr' x (idx' & -> & _ & Hv' & _). apply wellVersioned_cached.
      rewrite Hv'. exact Hv.
    + exact Hv.
  - unfold removeFiles. apply always_bind.
    eapply always_mono; [|apply (load_keeps_version this Hthis)].
    intros tr [r s] (Hv & idx & Hr & Hs); cbn [fst snd] in *. subst r s.
    pose proof (removeEach_version paths idx 0) as Hkeep.
    destruct (removeEach paths idx 0) as [remaining removed].
    cbn [fst] in Hkeep.
    rewrite updateIndex_then. destruct (0 <? removed).
    + eapply always_mono; [|apply save_outcome].
      intros tr' x (idx' & -> & _ & Hv' & _). apply wellVersioned_cached.
      rewrite Hv', Hkeep. exact Hv.
    + apply wellVersioned_cached. rewrite Hkeep. exact Hv.
  - exact I.
Qed.

(** X5. [clear], however it ends, leaves in the cache an index whose
    [files] is a fresh object without entries: afterwards [getAllFiles]
    answers the empty map and [getStats] zero files and zero bytes, all
    without a request, and [hasFile], which tests with [in], answers true
    exactly for the names every object inherits (["__proto__"] and the
    methods of [Object.prototype]) and false for every other path; the
    owner and version of the document are kept.  When [clear] returns
    normally, its last mutating request uploaded an index without
    entries. *)
Theorem clear_empties (this : t) :
  always (fun tr x =>
            getAllFiles x.2 = Ret (Ok ∅, x.2) /\
            (exists idx',
               currentIndex x.2 = Some idx' /\
               files idx' = ∅ /\ filesPrototype idx' = None) /\
            (forall path,
               hasFile path x.2 = Ret (Ok (JsObject.has ∅ None path), x.2) /\
               (JsObject.has ∅ None path = true <->
                path = "__proto__" \/ path ∈ JsObject.methods)) /\
            (exists stats,
               getStats x.2 = Ret (Ok stats, x.2) /\
               totalFiles stats = 0 /\ totalSize stats = 0) /\
            (forall cached,
               currentIndex this = Some cached ->
               exists idx',
                 currentIndex x.2 = Some idx' /\
                 version idx' = version cached /\
                 indexInstanceId idx' = indexInstanceId cached) /\
            (x.1 = Ok tt ->
             exists pre doc,
               files doc = ∅ /\
               mutations tr =
               (pre ++ [UploadSingle (remoteFolderId this) indexFileName
                          (BIndex doc) 2])%list))
         (clear this).
Proof.
  unfold clear. eapply always_mono; [|apply store_outcome].
  intros tr x (idx & idx' & Hidx & -> & Hf & Hv & Hi & Hp & _ & Hok).
  cbn [files emptied version indexInstanceId filesPrototype] in *.
  destruct idx' as [v l o fs proto]; cbn in *. subst fs proto.
  split; [reflexivity|]. split; [eauto|]. split.
  { intros path. split; [reflexivity|apply has_inherited_only]. }
  split.
  { eexists. split; [reflexivity|]. split; reflexivity. }
  split.
  - intros cached Hc. rewrite Hc in Hidx. subst idx. eauto.
  - intros Hr. destruct (Hok Hr) as [pre Hpre]. eexists pre, _.
    split; [|exact Hpre]. reflexivity.
Qed.

(** X6. [updateFiles(batch)] on a manager with a cached index, however it
    ends: a path the batch mentions reads as the last entry the batch
    gives for it, and, when the batch does not mention ["__proto__"], a
    path the batch does not mention reads as before.  (An assignment at
    ["__proto__"] replaces the prototype of [files], and with it what the
    inherited names read.) *)
Theorem updateFiles_then_lookup (folder : Z) (cached : CloudIndexV2)
    (batch : list (string * CloudFileInfo)) :
  always (fun tr x =>
            ("__proto__" ∉ batch.*1 ->
             forall path,
               path ∉ batch.*1 ->
               getFile path x.2 = Ret (Ok (valueOrNull cached path), x.2)) /\
            (forall before after path info,
               batch = (before ++ (path, info) :: after)%list ->
               path ∉ after.*1 ->
               getFile path x.2 = Ret (Ok (Some (JsObject.VInfo info)), x.2) /\
               hasFile path x.2 = Ret (Ok true, x.2)))
         (updateFiles batch (mk folder (Some cached))).
Proof.
  unfold updateFiles. eapply always_mono; [|apply store_outcome].
  intros tr x (idx & idx' & Hidx & -> & Hf & _ & _ & Hp & _).
  cbn in Hidx. subst idx. cbn [remoteFolderId] in *. split.
  - intros Hproto path Hnot. rewrite getFile_cached.
    rewrite (valueOrNull_ext _ _ path Hf Hp).
    now rewrite assignAll_other.
  - intros before after path info -> Hnot.
    assert (Hat : entryAt idx' path info).
    { assert (H : entryAt (assignAll (before ++ (path, info) :: after) cached)
                    path info).
      { rewrite assignAll_app.
        change (assignAll ((path, info) :: after) ?i)
          with (assignAll after (assign path info i)).
        apply assignAll_keeps_entryAt; [exact Hnot|apply assign_entryAt]. }
      unfold entryAt in *. now rewrite Hf, Hp. }
    destruct (entryAt_read _ _ _ Hat) as (Hget & Hhas & _).
    now rewrite getFile_cached, hasFile_cached, Hget, Hhas.
Qed.

(** X7. [setInstanceId(id)] on a manager with a cached index, however it
    ends, leaves the cache owned by [id] with its entries and version
    unchanged; when it returns normally, its last mutating request
    uploaded an index owned by [id] with those same entries. *)
Theorem setInstanceId_keeps_entries (folder : Z) (cached : CloudIndexV2)
    (id : string) :
  always (fun tr x =>
            exists idx',
              x.2 = mk folder (Some idx') /\
              indexInstanceId idx' = id /\ files idx' = files cached /\
              version idx' = version cached /\
              (x.1 = Ok tt ->
               exists pre,
                 mutations tr =
                 (pre ++ [UploadSingle folder indexFileName (BIndex idx') 2])%list))
         (setInstanceId id (mk folder (Some cached))).
Proof.
  unfold setInstanceId. eapply always_mono; [|apply store_outcome].
  intros tr x (idx & idx' & Hidx & -> & Hf & Hv & Hi & _ & _ & Hok).
  cbn in Hidx. subst idx. exists idx'. repeat split; auto.
Qed.

End IndexStoreWrites.

(** ** Locking and the outcome of a run *)

Section LockRelease.

Lemma releaseLock_outcome (this : SyncManager) :
  always (fun tr x =>
            x = (Ok tt, this) /\
            match mutations tr with
            | [] => True
            | [DeleteFiles [Some id]] =>
                exists listing lockFile,
                  head tr ≫= obs_listing = Some listing /\
                  findFile lockFileName listing = Some lockFile /\
                  fileId lockFile = id
            | _ => False
            end)
         (releaseLock this).
Proof.
  cbn. intros [listing|e]; cbn; [|auto].
  destruct (findFile lockFileName listing) as [lockFile|] eqn:Hfind; cbn; [|auto].
  intros [[]|e]; cbn; (split; [reflexivity|]); exists listing, lockFile; auto.
Qed.

(** X8. [releaseLock] never raises and leaves the manager as it was,
    whatever the hub answers.  It changes the hub at most by one request:
    the deletion of the object the listing showed under the lock name,
    whoever created it. *)
Theorem releaseLock_never_raises (this : SyncManager) :
  always (fun tr x =>
            x = (Ok tt, this) /\
            match mutations tr with
            | [] => True
            | [DeleteFiles [Some id]] =>
                exists listing lockFile,
                  head tr ≫= obs_listing = Some listing /\
                  findFile lockFileName listing = Some lockFile /\
                  fileId lockFile = id
            | _ => False
            end)
         (releaseLock this).
Proof. apply releaseLock_outcome. Qed.

(** X9. [try { m } finally { await this.releaseLock() }]: the run is the
    run of [m] followed by the run of [releaseLock], and its outcome
    (value or error, and the manager) is the outcome of [m]: the release
    never masks it. *)
Theorem release_keeps_outcome {W A : Type}
    (respond : forall ev, W -> Resp ev * W) (m : M SyncManager A)
    (this : SyncManager) (w : W) :
  let body := run respond (m this) w in
  let release :=
    run respond (releaseLock (value_of body).2) (world_of body) in
  run respond (try_finally m releaseLock this) w =
  ((trace_of body ++ trace_of release)%list, value_of body, world_of release).
Proof.
  intros body release. unfold try_finally. rewrite run_pbind.
  fold body. destruct body as [[tr1 [r s1]] w1] eqn:Hbody.
  rewrite run_pbind. subst release. cbn [value_of world_of trace_of fst snd].
  pose proof (always_run respond (releaseLock s1) _ w1 (releaseLock_outcome s1))
    as [Hval _].
  destruct (run respond (releaseLock s1) w1) as [[tr2 y] w2].
  cbn [value_of trace_of fst snd] in *. subst y. cbn.
  now rewrite app_nil_r.
Qed.

(** X10. With whatever reconciliation between taking and releasing the
    lock, [sync] never raises silently: when it raises, the last thing it
    did was to show the failure notice, built from the raised error's
    message, for 7000 ms as an error. *)
Theorem sync_raises_after_notice (reconcile : Remote -> Remote -> M SyncManager unit)
    (this : SyncManager) :
  always (fun tr x =>
            match x.1 with
            | Ok _ => True
            | Err e =>
                last (events tr) =
                Some (ShowMessage (syncFailedNotice e x.2) 7000 "error")
            end)
         (sync reconcile this).
Proof.
  unfold sync. rewrite !(bind_returns _ _ _ _ tt eq_refl).
  apply always_try_catch. apply always_trivial.
  intros tr [[u|e] s]; cbn [fst snd]; [exact I|].
  cbn. intros []. unfold events. rewrite List.map_app. cbn.
  apply last_snoc.
Qed.

End LockRelease.

(** ** Transfers: what is recorded, and where changes go *)

Section Transfers.

Variable getFormattedDate : Z -> string.

Import CloudIndexManager.

(** A method of the index manager touches no other field of the engine. *)
Lemma onIndex_frame {A : Type} (m : M t A) (this : SyncManager)
    (P : list Obs -> Result A * t -> Prop) :
  always P (m (cloudIndexManager this)) ->
  always (fun tr x =>
            P tr (x.1, cloudIndexManager x.2) /\
            syncErrors x.2 = syncErrors this /\
            conflictDetected x.2 = conflictDetected this /\
            conflictStrategy x.2 = conflictStrategy this /\
            i18n x.2 = i18n this /\
            sm_remoteFolderId x.2 = sm_remoteFolderId this)
         (onIndex m this).
Proof.
  intros H. unfold onIndex. apply always_zoom.
  eapply always_mono; [|exact H].
  intros tr [r s] HP. cbn. auto 10.
Qed.

(** The [catch] shared by the transfers: record, then raise again. *)
Lemma guarded_records (path : string) (op : Operation) (body : M SyncManager unit)
    (this : SyncManager) (Q : list Obs -> Prop) :
  (forall tr, Q tr -> forall o, mutating (obs_event o) = false -> Q (tr ++ [o])%list) ->
  always (fun tr x => syncErrors x.2 = syncErrors this /\ Q tr) (body this) ->
  always (fun tr x => recorded path [op] (syncErrors this) x /\ Q tr)
         (try_catch body
            (fun error => bind (recordError path op error) (fun _ => throw error))
            this).
Proof.
  intros HQ H. apply always_try_catch. eapply always_mono; [|exact H].
  intros tr [[u|e] s] [Herrs Htr]; cbn [fst snd] in *.
  - split; [exact Herrs|exact Htr].
  - cbn. intros now. split.
    + unfold recorded; cbn. exists op, now. split; [left|]. now rewrite Herrs.
    + now apply HQ.
Qed.

Lemma Forall_mutations_snoc (R : Event -> Prop) (tr : list Obs) (o : Obs) :
  Forall R (mutations tr) -> mutating (obs_event o) = false ->
  Forall R (mutations (tr ++ [o])).
Proof.
  intros H Ho. rewrite mutations_app. unfold mutations at 2. cbn.
  rewrite Ho. now rewrite app_nil_r.
Qed.

Lemma indexMutation_hub (folder : Z) (ev : Event) :
  indexMutation folder ev -> touchesDisk ev = false.
Proof. destruct ev; cbn; try tauto; reflexivity. Qed.

(** [updateFile] changes the hub only through the index object. *)
Lemma updateFile_mutations (path : string) (info : CloudFileInfo) (this : t) :
  always (fun tr x =>
            Forall (indexMutation (remoteFolderId this)) (mutations tr) /\
            exists idx,
              currentIndex x.2 = Some idx /\ entryAt idx path info)
         (updateFile path info this).
Proof.
  unfold updateFile. eapply always_mono; [|apply store_outcome].
  intros tr x (idx & idx' & _ & -> & Hf & _ & _ & Hp & Hall & _).
  split; [exact Hall|]. exists idx'. split; [reflexivity|].
  pose proof (assign_entryAt path info idx) as H. unfold entryAt in *.
  now rewrite Hf, Hp.
Qed.

Lemma uploadFileToCloud_outcome (path : string) (localFile : FileInfo)
    (this : SyncManager) :
  always (fun tr x =>
            recorded path [OpUpload] (syncErrors this) x /\
            Forall (fun ev => touchesDisk ev = false) (mutations tr))
         (uploadFileToCloud path localFile this).
Proof.
  unfold uploadFileToCloud.
  apply (guarded_records path OpUpload _ this
           (fun tr => Forall (fun ev => touchesDisk ev = false) (mutations tr))).
  { intros tr H o Ho. now apply Forall_mutations_snoc. }
  cbn -[onIndex updateFile]. intros [meta|e]; cbn -[onIndex updateFile].
  2: { split; [reflexivity|]. repeat constructor. }
  destruct (fi_updated localFile =? 0); cbn -[onIndex updateFile]; [intros now|];
    (eapply always_mono; [|apply onIndex_frame, updateFile_mutations]);
    intros tr x ([Hall _] & Herrs & _); (split; [exact Herrs|]);
    cbn; (constructor; [reflexivity|]);
    (eapply Forall_impl; [exact Hall|]);
    intros ev Hev; eapply indexMutation_hub, Hev.
Qed.

Lemma downloadFileFromCloud_outcome (path : string) (cloudFile : FileInfo)
    (this : SyncManager) :
  always (fun tr x =>
            recorded path [OpDownload] (syncErrors this) x /\
            Forall (fun ev =>
                      ev = DownloadCloudFileToLocal (fi_fileId cloudFile) path
                             (fi_updated cloudFile))
                   (mutations tr))
         (downloadFileFromCloud path cloudFile this).
Proof.
  unfold downloadFileFromCloud.
  apply (guarded_records path OpDownload _ this
           (fun tr => Forall (fun ev => ev = DownloadCloudFileToLocal _ _ _)
                        (mutations tr))).
  { intros tr H o Ho. now apply Forall_mutations_snoc. }
  cbn. intros r. split; [reflexivity|]. now constructor.
Qed.

Lemma deleteFromCloud_recorded (path : string) (cloudFile : FileInfo)
    (this : SyncManager) :
  always (fun tr x => recorded path [OpDelete] (syncErrors this) x)
         (deleteFromCloud path cloudFile this).
Proof.
  unfold deleteFromCloud.
  eapply always_mono;
    [|apply (guarded_records path OpDelete _ this (fun _ => True)); [auto|]].
  { now intros tr x [H _]. }
  cbn -[onIndex removeFile]. intros [[]|e]; cbn -[onIndex removeFile]; [|auto].
  eapply always_mono; [|apply onIndex_frame, always_trivial].
  - intros tr x (_ & Herrs & _). split; [exact Herrs|exact I].
  - exact (fun _ _ => I).
Qed.

Lemma deleteFromLocal_recorded (path : string) (this : SyncManager) :
  always (fun tr x => recorded path [OpDelete] (syncErrors this) x)
         (deleteFromLocal path this).
Proof.
  unfold deleteFromLocal.
  eapply always_mono;
    [|apply (guarded_records path OpDelete _ this (fun _ => True)); [auto|]].
  { now intros tr x [H _]. }
  cbn. intros [r|e]; cbn; auto.
Qed.

Lemma recorded_weaken (path : string) (ops ops' : list Operation)
    (before : list SyncError) (x : Result unit * SyncManager) :
  ops ⊆ ops' -> recorded path ops before x -> recorded path ops' before x.
Proof.
  intros Hsub. unfold recorded. destruct x.1; [auto|].
  intros (op & now & Hin & H). exists op, now. split; [now apply Hsub|exact H].
Qed.

Lemma handleDeletion_recorded (path : string) (localFile cloudFile : option FileInfo)
    (localRemote cloudRemote : Remote) (target : option SyncTarget)
    (this : SyncManager) :
  always (fun tr x =>
            recorded path [OpUpload; OpDownload; OpDelete] (syncErrors this) x)
         (handleDeletion path localFile cloudFile localRemote cloudRemote target this).
Proof.
  unfold handleDeletion.
  destruct (_ && _), localFile as [loc|], cloudFile as [cloud|];
    try exact eq_refl;
    (eapply always_mono;
     [|first [apply deleteFromLocal_recorded | apply deleteFromCloud_recorded
             | apply uploadFileToCloud_outcome
             | apply downloadFileFromCloud_outcome]]);
    intros tr x H; try destruct H as [H _];
    (eapply recorded_weaken; [|exact H]);
    intros op ->%list_elem_of_singleton; repeat constructor.
Qed.

(** X11. Each guarded transfer keeps the error list exact: when
    [uploadFileToCloud], [downloadFileFromCloud] or a deletion returns
    normally the list is as before; when it raises, exactly one record was
    appended, for this path, with the operation attempted and the message
    of the error that is raised. *)
Theorem transfer_failure_is_recorded (path : string) (file : FileInfo)
    (this : SyncManager) :
  always (fun _ x => recorded path [OpUpload] (syncErrors this) x)
         (uploadFileToCloud path file this) /\
  always (fun _ x => recorded path [OpDownload] (syncErrors this) x)
         (downloadFileFromCloud path file this) /\
  always (fun _ x => recorded path [OpDelete] (syncErrors this) x)
         (deleteFromCloud path file this) /\
  always (fun _ x => recorded path [OpDelete] (syncErrors this) x)
         (deleteFromLocal path this).
Proof.
  repeat split.
  - eapply always_mono; [|apply uploadFileToCloud_outcome]. now intros tr x [H _].
  - eapply always_mono; [|apply downloadFileFromCloud_outcome]. now intros tr x [H _].
  - apply deleteFromCloud_recorded.
  - apply deleteFromLocal_recorded.
Qed.

(** What resolving a conflict does, for each strategy. *)
Lemma resolution_outcome {S : Type} (path : string) (localTs cloudTs : Z)
    (strategy : ConflictStrategy) (msg : string) (s : S) :
  always (fun tr x =>
            x = (Ok (match strategy with keepLocal => false | _ => true end), s) /\
            length (List.filter isNotice (events tr)) = 1%nat /\
            (length (mutations tr) <= 1)%nat /\
            Forall (fun ev =>
                      strategy = keepBoth /\ localTs < cloudTs /\
                      exists body,
                        ev = KernelPutFile
                               (conflictPath getFormattedDate path localTs)
                               body localTs)
                   (mutations tr))
         (handleConflictWithStrategy getFormattedDate path localTs cloudTs
            strategy msg s).
Proof.
  destruct strategy; cbn;
    try (intros []; repeat split; first [lia | constructor]).
  destruct (Z.ltb_spec localTs cloudTs) as [Hlt|Hge]; cbn.
  2: { intros []. repeat split; first [lia | constructor]. }
  rewrite Z.min_l by lia.
  intros [response|e]; cbn.
  2: { intros []. repeat split; first [lia | constructor]. }
  destruct (ok response); cbn.
  2: { intros []. repeat split; first [lia | constructor]. }
  intros [r|e]; cbn; intros []; (split; [reflexivity|]);
    (split; [reflexivity|]); (split; [lia|]);
    (constructor; [|constructor]); eauto.
Qed.

(** X12. Resolving a conflict never raises and never changes the engine's
    state; it tells the caller to stop exactly under the keep-local
    strategy; it shows exactly one notice; and it writes at most once: a
    copy of the local file at the conflict path, stamped with the local
    time, only under keep-both and only when the local file is the older
    one. *)
Theorem handleConflictWithStrategy_outcome {S : Type} (path : string)
    (localTs cloudTs : Z) (strategy : ConflictStrategy) (msg : string) (s : S) :
  always (fun tr x =>
            x = (Ok (match strategy with keepLocal => false | _ => true end), s) /\
            length (List.filter isNotice (events tr)) = 1%nat /\
            (length (mutations tr) <= 1)%nat /\
            Forall (fun ev =>
                      strategy = keepBoth /\ localTs < cloudTs /\
                      exists body,
                        ev = KernelPutFile
                               (conflictPath getFormattedDate path localTs)
                               body localTs)
                   (mutations tr))
         (handleConflictWithStrategy getFormattedDate path localTs cloudTs
            strategy msg s).
Proof. apply resolution_outcome. Qed.

(** The first half of [syncFile] on two present files: the verdict on a
    conflict, which leaves the error list alone. *)
Lemma verdict_outcome (path : string) (localTs cloudTs : Z)
    (localRemote cloudRemote : Remote) (wanted : bool) (this : SyncManager) :
  always (fun tr x =>
            exists go,
              x.1 = Ok go /\
              syncErrors x.2 = syncErrors this /\
              sm_remoteFolderId x.2 = sm_remoteFolderId this /\
              (length (mutations tr) <= 1)%nat /\
              Forall (fun ev =>
                        localTs < cloudTs /\
                        exists body,
                          ev = KernelPutFile
                                 (conflictPath getFormattedDate path localTs)
                                 body localTs)
                     (mutations tr))
         ((if wanted &&
              ConflictHandler.detectConflict path localTs cloudTs
                localRemote cloudRemote
           then
             bind (modify (setConflictDetected true)) (fun _ =>
             bind get (fun this =>
               handleConflictWithStrategy getFormattedDate path localTs cloudTs
                 (conflictStrategy this)
                 (i18nOr "conflictDetected" "检测到冲突" this)))
           else ret true) this).
Proof.
  destruct (_ && _).
  - rewrite (bind_returns _ _ _ _ tt eq_refl).
    rewrite (bind_returns _ _ _ _ _ eq_refl).
    eapply always_mono; [|apply resolution_outcome].
    intros tr x (-> & _ & Hlen & Hall). eexists. split; [reflexivity|].
    repeat split; auto.
    eapply Forall_impl; [exact Hall|]. cbn. intros ev (_ & H1 & H2). auto.
  - cbn. exists true. repeat split; auto; constructor.
Qed.

(** X13. [syncFile] and [handleDeletion] keep the error list exact: when
    they return normally (also when nothing had to be done, or the
    keep-local strategy stopped the transfer) the list is as before; when
    they raise, exactly one record was appended, for this path, carrying
    the message of the error that is raised. *)
Theorem syncFile_failure_is_recorded (path : string)
    (localFile cloudFile : option FileInfo) (localRemote cloudRemote : Remote)
    (target : option SyncTarget) (this : SyncManager) :
  always (fun _ x => recorded path [OpUpload; OpDownload; OpDelete] (syncErrors this) x)
         (syncFile getFormattedDate path localFile cloudFile localRemote
            cloudRemote target this) /\
  always (fun _ x => recorded path [OpUpload; OpDownload; OpDelete] (syncErrors this) x)
         (handleDeletion path localFile cloudFile localRemote cloudRemote
            target this).
Proof.
  split; [|apply handleDeletion_recorded].
  unfold syncFile.
  destruct (negb (present localFile) && negb (present cloudFile)); [exact eq_refl|].
  destruct (onlyIfMissingOf target && _); [exact eq_refl|].
  destruct (present localFile && present cloudFile && (_ =? _)); [exact eq_refl|].
  apply always_bind. eapply always_mono; [|apply verdict_outcome].
  intros tr [r s] (go & Hr & Herrs & _); cbn [fst snd] in *. subst r.
  destruct go; cbn [negb]; [|exact Herrs].
  rewrite <- Herrs.
  destruct localFile as [loc|]; [destruct cloudFile as [cloud|]|];
    try apply handleDeletion_recorded.
  destruct (_ <? _); [|destruct (_ <? _); [|exact eq_refl]];
    (eapply always_mono;
     [|first [apply uploadFileToCloud_outcome | apply downloadFileFromCloud_outcome]]);
    intros tr' x [H _]; (eapply recorded_weaken; [|exact H]);
    intros op ->%list_elem_of_singleton; repeat constructor.
Qed.

(** X14. [syncFile] on a file present on both sides moves content one way
    only, whatever the conflict strategy.  When the local file is the
    newer one, no request writes to the local disk.  When the hub's file
    is the newer one, no request writes to the hub, and the only writes to
    the disk are the download of that file to [path] and, before it, a
    conflict copy of the local file at the conflict path. *)
Theorem syncFile_one_way (path : string) (loc cloud : FileInfo)
    (localRemote cloudRemote : Remote) (target : option SyncTarget)
    (this : SyncManager) :
  (fi_updated cloud < fi_updated loc ->
   always (fun tr _ => Forall (fun ev => touchesDisk ev = false) (mutations tr))
          (syncFile getFormattedDate path (Some loc) (Some cloud) localRemote
             cloudRemote target this)) /\
  (fi_updated loc < fi_updated cloud ->
   always (fun tr _ =>
             Forall (fun ev =>
                       touchesHub ev = false /\
                       (ev = DownloadCloudFileToLocal (fi_fileId cloud) path
                               (fi_updated cloud) \/
                        exists body,
                          ev = KernelPutFile
                                 (conflictPath getFormattedDate path (fi_updated loc))
                                 body (fi_updated loc)))
                    (mutations tr))
          (syncFile getFormattedDate path (Some loc) (Some cloud) localRemote
             cloudRemote target this)).
Proof.
  split; intros Hlt; unfold syncFile; cbn [present negb andb updatedOf];
    rewrite !or_zero_id;
    (destruct (onlyIfMissingOf target && true); [constructor|]);
    (destruct (Z.eqb_spec (fi_updated loc) (fi_updated cloud)); [lia|]);
    apply always_bind;
    (eapply always_mono; [|apply verdict_outcome]);
    intros tr [r s] (go & Hr & _ & _ & _ & Hall); cbn [fst snd] in *; subst r.
  - assert (Hnone : mutations tr = []).
    { destruct (mutations tr) as [|ev rest]; [reflexivity|].
      apply Forall_cons in Hall as [[Hbad _] _]. lia. }
    destruct go; cbn [negb].
    2: { cbn. rewrite app_nil_r, Hnone. constructor. }
    destruct (Z.ltb_spec (fi_updated cloud) (fi_updated loc)); [|lia].
    eapply always_mono; [|apply uploadFileToCloud_outcome].
    intros tr' x [_ Hup]. rewrite mutations_app, Hnone. exact Hup.
  - assert (Hcopy : Forall (fun ev =>
                      touchesHub ev = false /\
                      (ev = DownloadCloudFileToLocal (fi_fileId cloud) path
                              (fi_updated cloud) \/
                       exists body,
                         ev = KernelPutFile
                                (conflictPath getFormattedDate path (fi_updated loc))
                                body (fi_updated loc)))
                     (mutations tr)).
    { eapply Forall_impl; [exact Hall|]. cbn. intros ev (_ & body & ->).
      split; [reflexivity|]. right. now exists body. }
    destruct go; cbn [negb].
    2: { cbn. now rewrite app_nil_r. }
    destruct (Z.ltb_spec (fi_updated cloud) (fi_updated loc)); [lia|].
    destruct (Z.ltb_spec (fi_updated loc) (fi_updated cloud)); [|lia].
    eapply always_mono; [|apply downloadFileFromCloud_outcome].
    intros tr' x [_ Hdown]. rewrite mutations_app. apply Forall_app.
    split; [exact Hcopy|]. eapply Forall_impl; [exact Hdown|]. cbn. intros ev ->. split; [reflexivity|now left].
Qed.

(** X15. [uploadFileToCloud]: once the transfer itself succeeded, the
    cached index lists [path] with the identifier, size and digest the
    transfer answered, under the encoded name and as a file, even when
    saving the index then fails and the upload is reported as failed.
    The entry is an own entry of [files] for every path but
    ["__proto__"], where the assignment may install it as the prototype
    of [files] instead.  When the transfer failed, the index manager is
    left as it was and the call raises. *)
Theorem uploadFileToCloud_indexes (path : string) (localFile : FileInfo)
    (this : SyncManager) :
  always (fun tr x =>
            match head tr ≫= obs_uploaded with
            | Some meta =>
                exists idx info,
                  currentIndex (cloudIndexManager x.2) = Some idx /\
                  entryAt idx path info /\
                  (path <> "__proto__" -> files idx !! path = Some info) /\
                  cfi_fileId info = um_fileId meta /\
                  cfi_size info = um_size meta /\
                  cfi_md5 info = Some (um_md5 meta) /\
                  cfi_path info = path /\
                  cfi_name info = fi_name localFile /\
                  cfi_encodedFileName info = encodePathToFileName path /\
                  cfi_isDir info = false /\
                  (fi_updated localFile <> 0 ->
                   cfi_updated info = fi_updated localFile)
            | None =>
                cloudIndexManager x.2 = cloudIndexManager this /\
                exists e, x.1 = Err e
            end)
         (uploadFileToCloud path localFile this).
Proof.
  unfold uploadFileToCloud. apply always_try_catch.
  cbn -[onIndex updateFile]. intros [meta|e]; cbn -[onIndex updateFile].
  2: { intros now. split; [reflexivity|eauto]. }
  destruct (Z.eqb_spec (fi_updated localFile) 0) as [Hz|Hnz];
    cbn -[onIndex updateFile]; [intros now|];
    (eapply always_mono; [|apply onIndex_frame, updateFile_mutations]);
    intros tr [[u|e] s'] ([_ (idx & Hc & Hf)] & _); cbn [fst snd] in *;
    try (cbn; intros now');
    eexists idx, _; (split; [exact Hc|]); (split; [exact Hf|]);
    (split; [intros Hne; destruct Hf as [Hf|(-> & _)]; [exact Hf|congruence]|]);
    repeat split; cbn; congruence.
Qed.

End Transfers.

(** ** Identities *)

Section Identities.

Ltac settle :=
  repeat match goal with
         | |- _ /\ _ => split
         | |- Forall _ [] => constructor
         | |- Forall _ (_ :: _) => constructor
         | |- (_ <= _)%nat => cbn; lia
         | |- _ = _ => reflexivity
         | |- exists _, _ => eexists
         end.

(** X16. [getLocalInstanceId] leaves the caller's state alone and writes
    nothing but the instance-id file, at most twice.  When it returns an
    id, either nothing was written and the id is the text of the file as
    the kernel served it with status 200, or the last write stored exactly
    that id. *)
Theorem getLocalInstanceId_read_or_written {S : Type} (s : S) :
  always (fun tr x =>
            x.2 = s /\
            (length (mutations tr) <= 2)%nat /\
            Forall (fun ev =>
                      exists id now, ev = KernelPutFile instanceIdPath (BText id) now)
                   (mutations tr) /\
            forall id,
              x.1 = Ok id ->
              (mutations tr = [] /\
               exists response,
                 head tr ≫= obs_read = Some (instanceIdPath, response) /\
                 status response = 200 /\ text response = id) \/
              (exists now, last (mutations tr) =
                           Some (KernelPutFile instanceIdPath (BText id) now)))
         (getLocalInstanceId s).
Proof.
  cbn. intros [response|e]; cbn.
  - destruct (Z.eqb_spec (status response) 200) as [H200|Hne]; cbn.
    + settle. intros id [= <-]. left. split; [reflexivity|]. now exists response.
    + intros id1 t1 t2 [r|e]; cbn.
      * settle. intros id [= <-]. right. now eexists.
      * intros id2 t3 t4 [r|e']; cbn; settle; intros id; try discriminate.
        intros [= <-]. right. now eexists.
  - intros id2 t3 t4 [r|e']; cbn; settle; intros id; try discriminate.
    intros [= <-]. right. now eexists.
Qed.

Lemma last_app_some {A : Type} (l1 l2 : list A) (x : A) :
  last l2 = Some x -> last (l1 ++ l2) = Some x.
Proof.
  intros H. destruct l2 as [|y l2] using rev_ind; [discriminate|].
  rewrite last_snoc in H. rewrite app_assoc, last_snoc. exact H.
Qed.

Ltac id_changes :=
  repeat first
    [ exact I
    | apply Forall_nil
    | apply Forall_cons; split;
      [first [left; eexists; reflexivity | right; eexists; reflexivity]|] ].

Lemma setCloudInstanceId_outcome {S : Type} (folder : Z) (id : string) (s : S) :
  always (fun tr x =>
            x.2 = s /\ Forall (idChange folder) (mutations tr) /\
            (x.1 = Ok tt ->
             last (mutations tr) =
             Some (UploadSingle folder "instance-id" (BText id) 2)))
         (setCloudInstanceId folder id s).
Proof.
  unfold idChange. cbn. intros [listing|e]; cbn.
  2: { repeat split; [constructor|discriminate]. }
  destruct (findFile "instance-id" listing) as [old|]; cbn.
  - intros [[]|e]; cbn.
    + intros t [u|e]; cbn; (split; [reflexivity|]);
        (split; [id_changes|]); first [reflexivity | discriminate].
    + split; [reflexivity|]. split; [id_changes|discriminate].
  - intros t [u|e]; cbn; (split; [reflexivity|]);
      (split; [id_changes|]); first [reflexivity | discriminate].
Qed.

(** A fresh identity, stored on the hub: the fallback of
    [getCloudInstanceId]. *)
Lemma fresh_cloud_id_outcome {S : Type} (folder : Z) (s : S) :
  always (fun tr x =>
            x.2 = s /\ Forall (idChange folder) (mutations tr) /\
            forall id,
              x.1 = Ok id ->
              last (mutations tr) =
              Some (UploadSingle folder "instance-id" (BText id) 2))
         (bind randomUUID
            (fun newInstanceId =>
               bind (setCloudInstanceId folder newInstanceId)
                    (fun _ => ret newInstanceId)) s).
Proof.
  apply always_bind. cbn -[setCloudInstanceId]. intros id.
  apply always_bind.
  eapply always_mono; [|apply setCloudInstanceId_outcome].
  intros tr [[[]|e] s'] (Hs & Hall & Hlast); cbn [fst snd] in *; subst s'.
  - cbn. rewrite app_nil_r. repeat split; auto.
    intros id' [= <-]. now apply Hlast.
  - repeat split; auto. discriminate.
Qed.

(** X17. [getCloudInstanceId] leaves the caller's state alone and changes
    the hub only by deleting a listed instance-id object and uploading the
    instance-id object to the sync folder.  When it returns an id, either
    nothing was changed and the id is the body of the download (whatever
    its status), or the last change uploaded exactly that id. *)
Theorem getCloudInstanceId_read_or_written {S : Type} (folder : Z) (s : S) :
  always (fun tr x =>
            x.2 = s /\
            Forall (fun ev =>
                      (exists old, ev = DeleteFiles [Some old]) \/
                      (exists id, ev = UploadSingle folder "instance-id" (BText id) 2))
                   (mutations tr) /\
            forall id,
              x.1 = Ok id ->
              (mutations tr = [] /\
               exists response,
                 last tr ≫= obs_response = Some response /\
                 text response = id) \/
              last (mutations tr) =
              Some (UploadSingle folder "instance-id" (BText id) 2))
         (getCloudInstanceId folder s).
Proof.
  fold (idChange folder).
  assert (Hfallback : forall pre : list Obs,
            Forall (idChange folder) (mutations pre) ->
            always (fun tr x =>
                      x.2 = s /\
                      Forall (idChange folder) (mutations (pre ++ tr)) /\
                      forall id,
                        x.1 = Ok id ->
                        (mutations (pre ++ tr) = [] /\
                         exists response,
                           last (pre ++ tr) ≫= obs_response = Some response /\
                           text response = id) \/
                        last (mutations (pre ++ tr)) =
                        Some (UploadSingle folder "instance-id" (BText id) 2))
                   (bind randomUUID
                      (fun newInstanceId =>
                         bind (setCloudInstanceId folder newInstanceId)
                              (fun _ => ret newInstanceId)) s)).
  { intros pre Hpre.
    eapply always_mono; [|apply fresh_cloud_id_outcome].
    intros tr x (Hs & Hall & Hlast). rewrite mutations_app.
    split; [exact Hs|]. split; [now apply Forall_app|].
    intros id Hid. right. apply last_app_some. now apply Hlast. }
  unfold getCloudInstanceId. apply always_try_catch.
  apply always_bind. cbn -[setCloudInstanceId bind randomUUID ret mutations].
  intros [listing|e]; cbn [fst snd].
  2: { eapply always_mono; [|apply (Hfallback [existT (ListFiles folder) (Err e)]);
                           constructor].
       intros tr' y H. exact H. }
  destruct (findFile "instance-id" listing) as [idFile|].
  - cbn -[setCloudInstanceId bind randomUUID ret mutations].
    apply always_bind. cbn -[setCloudInstanceId bind randomUUID ret mutations].
    intros [url|e]; cbn [fst snd].
    2: { eapply always_mono;
           [|apply (Hfallback [existT (ListFiles folder) (Ok listing);
                               existT (GetDownloadUrl (fileId idFile)) (Err e)]);
             constructor].
         intros tr' y H. exact H. }
    apply always_bind. cbn -[setCloudInstanceId bind randomUUID ret mutations].
    intros [response|e]; cbn [fst snd].
    2: { eapply always_mono;
           [|apply (Hfallback [existT (ListFiles folder) (Ok listing);
                               existT (GetDownloadUrl (fileId idFile)) (Ok url);
                               existT (Fetch url) (Err e)]);
             constructor].
         intros tr' y H. exact H. }
    cbn. repeat split; [constructor|].
    intros id [= <-]. left. split; [reflexivity|]. now exists response.
  - eapply always_mono; [|apply fresh_cloud_id_outcome].
    intros tr [[id|e] s'] (Hs & Hall & Hlast); cbn [fst snd] in *; subst s'.
    + repeat split; auto.
    + eapply always_mono;
        [|apply (Hfallback (existT (ListFiles folder) (Ok listing) :: tr)), Hall].
      intros tr' y H. exact H.
Qed.

End Identities.

(** ** Names and paths *)

Section Names.

Import Str.

Lemma strlen_app (s1 s2 : string) :
  String.length (s1 ++ s2) = (String.length s1 + String.length s2)%nat.
Proof. induction s1 as [|a s1 IH]; simpl; [reflexivity|now f_equal]. Qed.

Lemma strapp_assoc (s1 s2 s3 : string) :
  ((s1 ++ s2) ++ s3 = s1 ++ (s2 ++ s3))%string.
Proof.
  induction s1 as [|a s1 IH]; [reflexivity|].
  change (String a ((s1 ++ s2) ++ s3) = String a (s1 ++ (s2 ++ s3)))%string.
  now rewrite IH.
Qed.

Lemma strapp_nil_r (s : string) : (s ++ "")%string = s.
Proof.
  induction s as [|a s IH]; [reflexivity|].
  change (String a (s ++ "") = String a s)%string. now rewrite IH.
Qed.

Lemma splitLast_none (c : ascii) (s : string) :
  splitLast c s = None <-> includes c s = false.
Proof.
  induction s as [|a s IH]; cbn; [tauto|].
  destruct (splitLast c s) as [[b a']|].
  - split; [discriminate|]. intros H. apply orb_false_iff in H as [_ H].
    apply IH in H. discriminate.
  - destruct (Ascii.eqb a c); cbn; [split; discriminate|]. tauto.
Qed.

Lemma splitLast_some (c : ascii) (s before after : string) :
  splitLast c s = Some (before, after) ->
  s = (before ++ String c after)%string /\ includes c after = false.
Proof.
  revert before. induction s as [|a s IH]; intros before; cbn; [discriminate|].
  destruct (splitLast c s) as [[b a']|] eqn:Hs.
  - intros [= <- <-]. destruct (IH b eq_refl) as [-> Hno]. now split.
  - destruct (Ascii.eqb_spec a c) as [->|Hne]; [|discriminate].
    intros [= <- <-]. split; [reflexivity|]. now apply splitLast_none.
Qed.

Lemma splitLast_app (c : ascii) (before after : string) :
  includes c after = false ->
  splitLast c (before ++ String c after) = Some (before, after).
Proof.
  intros Hno. induction before as [|a b IH]; simpl.
  - apply splitLast_none in Hno. rewrite Hno. now rewrite Ascii.eqb_refl.
  - now rewrite IH.
Qed.

Lemma replaceAll_excludes (class : ascii -> bool) (to c : ascii) (s : string) :
  class c = true -> to <> c -> includes c (replaceAll class to s) = false.
Proof.
  intros Hc Hto. induction s as [|a s IH]; cbn; [reflexivity|].
  rewrite IH, orb_false_r. destruct (class a) eqn:Ha.
  - now apply Ascii.eqb_neq.
  - apply Ascii.eqb_neq. intros ->. congruence.
Qed.

Lemma replaceAll_id (class : ascii -> bool) (to : ascii) (s : string) :
  (forall a, class a = true -> includes a s = false) ->
  replaceAll class to s = s.
Proof.
  induction s as [|a s IH]; cbn; intros H; [reflexivity|].
  destruct (class a) eqn:Ha.
  - specialize (H a Ha). now rewrite Ascii.eqb_refl in H.
  - rewrite IH; [reflexivity|]. intros b Hb. specialize (H b Hb).
    now apply orb_false_iff in H as [_ H].
Qed.

Lemma isSlash_spec (a : ascii) : isSlash a = true <-> a = "/"%char.
Proof. unfold isSlash. apply Ascii.eqb_eq. Qed.

Lemma isUnderscore_spec (a : ascii) : isUnderscore a = true <-> a = "_"%char.
Proof. unfold isUnderscore. apply Ascii.eqb_eq. Qed.

Lemma stripLeading_clean (c : ascii) (s : string) :
  includes c s = false -> stripLeading c s = s.
Proof.
  destruct s as [|a s]; cbn; [reflexivity|].
  intros H. apply orb_false_iff in H as [H _]. now rewrite H.
Qed.

(** Turning [from] into [to] and back is the identity on a text without [to]. *)
Lemma replaceAll_back (from to : ascii) (s : string) :
  includes to s = false ->
  replaceAll (fun x => Ascii.eqb x to) from (replaceAll (fun x => Ascii.eqb x from) to s) = s.
Proof.
  induction s as [|a s IH]; cbn; [reflexivity|].
  intros H. apply orb_false_iff in H as [Ha H]. rewrite IH by exact H.
  f_equal. destruct (Ascii.eqb_spec a from) as [->|Hne].
  - now rewrite Ascii.eqb_refl.
  - now rewrite Ha.
Qed.

Lemma stripLeading_replaceAll (from to : ascii) (s : string) :
  from <> to ->
  includes to s = false ->
  replaceAll (fun x => Ascii.eqb x from) to (stripLeading from s) =
  stripLeading to (replaceAll (fun x => Ascii.eqb x from) to s).
Proof.
  intros Hft. induction s as [|a s IH]; cbn; [reflexivity|].
  intros H. apply orb_false_iff in H as [Ha H].
  destruct (Ascii.eqb_spec a from) as [->|Hne].
  - rewrite Ascii.eqb_refl. exact (IH H).
  - cbn. destruct (Ascii.eqb_spec a from); [congruence|]. now rewrite Ha.
Qed.

(** X18. The name of a path on the hub never contains a slash, and
    encoding is idempotent; so the encoding is not one-to-one: a relative
    path with a slash and the underscored text it is encoded to are two
    different paths stored under one and the same name. *)
Theorem encodePathToFileName_collides (path : string) :
  includes "/" (encodePathToFileName path) = false /\
  encodePathToFileName (encodePathToFileName path) = encodePathToFileName path /\
  (includes "/" path = true ->
   encodePathToFileName path <> path /\
   encodePathToFileName (encodePathToFileName path) = encodePathToFileName path).
Proof.
  assert (Hno : includes "/" (encodePathToFileName path) = false).
  { unfold encodePathToFileName. apply replaceAll_excludes; [reflexivity|discriminate]. }
  assert (Hid : encodePathToFileName (encodePathToFileName path) =
                encodePathToFileName path).
  { unfold encodePathToFileName at 1.
    rewrite (stripLeading_clean _ _ Hno). apply replaceAll_id.
    intros a ->%isSlash_spec. exact Hno. }
  repeat split; auto. intros Heq. rewrite Heq in Hno. congruence.
Qed.

(** X19. Decoding undoes encoding exactly on paths without an underscore,
    up to the leading slashes encoding drops; and encoding undoes decoding
    on names without a slash, up to leading underscores. *)
Theorem decode_encode_round_trip (path : string) :
  (includes "_" path = false ->
   decodeFileNameToPath (encodePathToFileName path) = stripLeading "/" path) /\
  (includes "/" path = false ->
   encodePathToFileName (decodeFileNameToPath path) = stripLeading "_" path).
Proof.
  unfold decodeFileNameToPath, encodePathToFileName. split; intros H.
  - apply (replaceAll_back "/" "_").
    clear -H. induction path as [|a s IH]; cbn in *; [reflexivity|].
    apply orb_false_iff in H as [Ha H].
    destruct (Ascii.eqb a "/"); [now apply IH|]. cbn. now rewrite Ha.
  - change isSlash with (fun x => Ascii.eqb x "/"%char).
    change isUnderscore with (fun x => Ascii.eqb x "_"%char).
    rewrite <- (stripLeading_replaceAll "_" "/") by (discriminate || exact H).
    apply (replaceAll_back "_" "/").
    clear -H. induction path as [|a s IH]; cbn in *; [reflexivity|].
    apply orb_false_iff in H as [Ha H].
    destruct (Ascii.eqb a "_"); [now apply IH|]. cbn. now rewrite Ha.
Qed.

(** X20. Exclusion looks at the last segment only: a path is excluded
    exactly when its own name is listed, wherever it lies, so an item
    below an excluded directory is not excluded unless its name is listed
    too; a target without a list excludes nothing. *)
Theorem shouldExcludePath_by_name (dir name : string) (target : SyncTarget) :
  includes "/" name = false ->
  shouldExcludePath (dir ++ "/" ++ name) target = shouldExcludePath name target /\
  (shouldExcludePath name target = true <->
   exists items, excludedItems target = Some items /\ name ∈ items).
Proof.
  intros Hno. unfold shouldExcludePath, afterLast.
  change (dir ++ "/" ++ name)%string with (dir ++ String "/" name)%string.
  rewrite (splitLast_app _ dir name Hno).
  apply splitLast_none in Hno. rewrite Hno. split; [reflexivity|].
  destruct (excludedItems target) as [[|i items]|].
  - split; [discriminate|]. intros (items & [= <-] & Hin). inversion Hin.
  - rewrite existsb_exists. split.
    + intros (x & Hin & ->%String.eqb_eq). eexists. split; [reflexivity|].
      now apply list_elem_of_In.
    + intros (items' & [= <-] & Hin). exists name.
      split; [now apply list_elem_of_In|apply String.eqb_refl].
  - split; [discriminate|]. now intros (items & [=] & _).
Qed.

Lemma append_cancel (prefix s1 s2 : string) :
  (prefix ++ s1 = prefix ++ s2)%string -> s1 = s2.
Proof. induction prefix as [|a p IH]; simpl; [auto|]. intros [= H]. auto. Qed.

Lemma conflictFileName_longer (getFormattedDate : Z -> string) (path : string)
    (olderTimestamp : Z) :
  (String.length (afterLast "/" path) <
   String.length (conflictFileName getFormattedDate path olderTimestamp))%nat.
Proof.
  unfold conflictFileName. set (fileName := afterLast "/" path).
  set (date := replaceAll isColonOrSpace "-" _).
  assert (Hbase : forall rest : string,
            (String.length fileName <
             String.length (fileName ++ " (冲突副本 " ++ date ++ ")" ++ rest))%nat).
  { intros rest. rewrite !strlen_app. simpl. lia. }
  destruct (includes "." fileName) eqn:Hdot; [|apply Hbase].
  unfold afterLast at 1 2 3, beforeLast.
  destruct (splitLast "." fileName) as [[before after]|] eqn:Hsplit.
  2: { apply splitLast_none in Hsplit. congruence. }
  destruct after as [|a after]; [apply Hbase|].
  apply splitLast_some in Hsplit as [Hname _].
  rewrite Hname at 1. rewrite !strlen_app. simpl. lia.
Qed.

(** X21. The conflict copy never lands on the file it copies: whatever the
    path, the time and the formatting of the date, the conflict path
    differs from the path itself (its file name is strictly longer, in the
    same directory). *)
Theorem conflictPath_differs (getFormattedDate : Z -> string) (path : string)
    (olderTimestamp : Z) :
  conflictPath getFormattedDate path olderTimestamp <> path /\
  conflictPath getFormattedDate path olderTimestamp =
  (beforeLast "/" path ++ "/" ++
   conflictFileName getFormattedDate path olderTimestamp)%string /\
  (String.length (afterLast "/" path) <
   String.length (conflictFileName getFormattedDate path olderTimestamp))%nat.
Proof.
  split; [|split; [reflexivity|apply conflictFileName_longer]].
  pose proof (conflictFileName_longer getFormattedDate path olderTimestamp) as Hlen.
  unfold conflictPath. unfold afterLast in Hlen. unfold beforeLast.
  destruct (splitLast "/" path) as [[dir file]|] eqn:Hsplit.
  - apply splitLast_some in Hsplit as [Hpath _]. intros Heq.
    rewrite Hpath in Heq at 2.
    change (dir ++ "/" ++ conflictFileName getFormattedDate path olderTimestamp)%string
      with (dir ++ String "/" (conflictFileName getFormattedDate path olderTimestamp))%string
      in Heq.
    apply append_cancel in Heq. injection Heq as Heq.
    rewrite Heq in Hlen. lia.
  - apply splitLast_none in Hsplit. intros Heq. rewrite <- Heq in Hsplit.
    simpl in Hsplit. discriminate.
Qed.

End Names.

(** ** The chunked uploader: bounds, coverage, credentials *)

Section UploaderFacts.

Import Pan123Client.

Variable sparkMd5 : string -> string.

Lemma chunkSizeOf_pos (session : UploadSession) : 0 < chunkSizeOf session.
Proof.
  unfold chunkSizeOf, DEFAULT_SLICE_SIZE.
  destruct (us_sliceSize session) as [n|]; [|lia].
  destruct (Z.ltb_spec 0 n); lia.
Qed.

(** Every run with a token and a valid server is a chunked upload. *)
Lemma uploadSlices_steps (server : string) (session : UploadSession)
    (options : UploadSingleOptions) (c : ascii) (token : string) :
  normalizeServer server <> "" ->
  normalizeServer server <> "https:" ->
  normalizeServer server <> "https://" ->
  always (fun tr x =>
            exists ok : bool,
              chunkedUpload (chunkSizeOf session) (uo_size options) 1 (steps tr) ok /\
              (x.1 = Ok tt <-> ok = true))
         (uploadSlices sparkMd5 server session options (mk (Some (String c token)))).
Proof.
  intros H1 H2 H3. pose proof (chunkSizeOf_pos session) as Hcs.
  unfold uploadSlices.
  apply String.eqb_neq in H1, H2, H3. rewrite H1, H2, H3. cbn [orb].
  apply always_bind.
  pose proof (sliceLoop_chunked sparkMd5 (normalizeServer server)
                (nonNull (us_preuploadId session)) options
                (chunkSizeOf session)
                (if 0 <? uo_size options
                 then ceilDiv (uo_size options) (chunkSizeOf session) else 0)
                c token Hcs (Z.to_nat (uo_size options)) 1 0) as Hloop.
  replace (Z.min ((1 - 1) * chunkSizeOf session) (uo_size options))
    with (Z.min 0 (uo_size options)) in Hloop by (f_equal; lia).
  destruct (Z.le_gt_cases (uo_size options) 0) as [Hnone|Hsome].
  - destruct (Z.to_nat (uo_size options)); cbn [sliceLoop];
      (destruct (Z.ltb_spec 0 (uo_size options)); [lia|]);
      cbn [ret always fst snd];
      (destruct (Z.eqb_spec (uo_size options) 0); cbn; [intros []|]);
      (exists true; split; [apply upload_complete; lia|tauto]).
  - rewrite Z.min_l in Hloop by lia.
    eapply always_mono; [|apply Hloop; lia].
    intros tr [r this1] (ok & Hup & Hiff); cbn [fst snd] in *.
    destruct r as [[]|e].
    + destruct (Z.eqb_spec (uo_size options) 0); [lia|].
      cbn. rewrite app_nil_r. exists ok. split; [exact Hup|exact Hiff].
    + exists ok. split; [exact Hup|exact Hiff].
Qed.

Lemma submissions_app (s1 s2 : list Step) :
  submissions (s1 ++ s2) = submissions s1 + submissions s2.
Proof. unfold submissions. rewrite List.filter_app, length_app. lia. Qed.

Lemma waited_app (s1 s2 : list Step) : waited (s1 ++ s2) = waited s1 + waited s2.
Proof.
  induction s1 as [|[k o st a|ms] s1 IH]; cbn; [reflexivity|exact IH|].
  fold (waited (s1 ++ s2)) (waited s1). rewrite IH. lia.
Qed.

Lemma sent_app (file : File) (s1 s2 : list Step) :
  sent file (s1 ++ s2) = (sent file s1 ++ sent file s2)%string.
Proof.
  induction s1 as [|[k o st [|]|ms] s1 IH]; cbn; try exact IH; [reflexivity|].
  fold (sent file (s1 ++ s2)) (sent file s1). rewrite IH.
  now rewrite strapp_assoc.
Qed.

Lemma chunkAttempts_bounds (k offset stop a : Z) (s : list Step) (ok : bool) :
  chunkAttempts k offset stop a s ok ->
  1 <= a <= 3 /\ 1 <= submissions s <= 4 - a /\
  0 <= waited s <= 500 * (3 - a) * (a + 2).
Proof.
  induction 1 as [a Ha| |a rest ok Ha Hrest IH].
  - change (submissions [Submit k offset stop true]) with 1. cbn. nia.
  - change (submissions [Submit k offset stop false]) with 1. cbn. lia.
  - change (Submit k offset stop false :: Wait (1000 * a) :: rest)
      with ([Submit k offset stop false; Wait (1000 * a)] ++ rest)%list.
    rewrite submissions_app, waited_app.
    change (submissions [Submit k offset stop false; Wait (1000 * a)]) with 1.
    change (waited [Submit k offset stop false; Wait (1000 * a)])
      with (1000 * a + 0).
    nia.
Qed.

Lemma chunkAttempts_sent (file : File) (k offset stop a : Z) (s : list Step) :
  chunkAttempts k offset stop a s true ->
  sent file s = slice file offset stop.
Proof.
  intros H. remember true as ok eqn:Hok.
  induction H as [a Ha| |a rest ok Ha Hrest IH]; cbn; [|discriminate|auto].
  apply strapp_nil_r.
Qed.

Lemma more_chunks (chunkSize totalSize k : Z) :
  0 < chunkSize -> (k - 1) * chunkSize < totalSize ->
  k <= ceilDiv totalSize chunkSize.
Proof.
  intros Hcs Hmore.
  destruct (Z_lt_le_dec (ceilDiv totalSize chunkSize) k) as [Hlt|]; [|assumption].
  assert (ceilDiv totalSize chunkSize <= k - 1) as Hle by lia.
  apply (ceilDiv_le _ _ _ Hcs) in Hle. lia.
Qed.

Lemma chunkedUpload_bounds (chunkSize totalSize k : Z) (s : list Step) (ok : bool) :
  0 < chunkSize ->
  chunkedUpload chunkSize totalSize k s ok ->
  0 <= submissions s <= 3 * Z.max 0 (ceilDiv totalSize chunkSize - (k - 1)) /\
  0 <= waited s <= 3000 * Z.max 0 (ceilDiv totalSize chunkSize - (k - 1)).
Proof.
  intros Hcs H.
  induction H as [k Hdone | k s rest ok Hmore Hatt Hrest IH | k s Hmore Hatt].
  - change (submissions []) with 0. change (waited []) with 0. lia.
  - rewrite submissions_app, waited_app.
    apply chunkAttempts_bounds in Hatt.
    pose proof (more_chunks _ _ _ Hcs Hmore). lia.
  - apply chunkAttempts_bounds in Hatt.
    pose proof (more_chunks _ _ _ Hcs Hmore). lia.
Qed.

Lemma substring_none (n : nat) (s : string) : String.substring n 0 s = "".
Proof.
  revert n. induction s as [|a s IH]; intros [|n]; simpl; auto.
Qed.

Lemma substring_split (s : string) :
  forall n m1 m2 : nat,
    String.substring n (m1 + m2) s =
    (String.substring n m1 s ++ String.substring (n + m1) m2 s)%string.
Proof.
  induction s as [|a s IH]; intros n m1 m2.
  - destruct n, m1, m2; reflexivity.
  - destruct n as [|n].
    + destruct m1 as [|m1]; [reflexivity|].
      change (String a (String.substring 0 (m1 + m2) s) =
              String a (String.substring 0 m1 s ++ String.substring m1 m2 s)%string).
      now rewrite (IH 0%nat m1 m2).
    + exact (IH n m1 m2).
Qed.

Lemma substring_all (s : string) : String.substring 0 (String.length s) s = s.
Proof. induction s as [|a s IH]; simpl; [reflexivity|now rewrite IH]. Qed.

Lemma chunkedUpload_sent (file : File) (chunkSize totalSize k : Z)
    (s : list Step) (ok : bool) :
  0 < chunkSize -> 1 <= k ->
  chunkedUpload chunkSize totalSize k s ok ->
  ok = true ->
  sent file s =
  String.substring (Z.to_nat (Z.min ((k - 1) * chunkSize) totalSize))
    (Z.to_nat (totalSize - Z.min ((k - 1) * chunkSize) totalSize)) (bytes file).
Proof.
  intros Hcs Hk H. revert Hk.
  induction H as [k Hdone | k s rest ok Hmore Hatt Hrest IH | k s Hmore Hatt];
    intros Hk Hok; [| |discriminate].
  - rewrite Z.min_r by lia. rewrite Z.sub_diag. cbn [Z.to_nat sent fold_right].
    now rewrite substring_none.
  - rewrite sent_app, (chunkAttempts_sent file _ _ _ _ _ Hatt).
    rewrite IH by (assumption || lia).
    replace ((k + 1 - 1) * chunkSize) with (k * chunkSize) by lia.
    rewrite (Z.min_l ((k - 1) * chunkSize)) by lia.
    unfold slice. set (stop := Z.min (k * chunkSize) totalSize).
    assert ((k - 1) * chunkSize <= stop <= totalSize) by (subst stop; nia).
    assert (0 <= (k - 1) * chunkSize) by nia.
    replace (Z.to_nat stop)
      with (Z.to_nat ((k - 1) * chunkSize) +
            Z.to_nat (stop - (k - 1) * chunkSize))%nat by lia.
    rewrite <- substring_split. f_equal. lia.
Qed.

(** X22. With a token and a valid server, a run of [uploadSlices] submits
    at most three times per chunk and waits at most 3000 ms per chunk: at
    most [3 * ceil(size / chunkSize)] submissions and
    [3000 * ceil(size / chunkSize)] ms of back-off in all, whatever the
    server answers. *)
Theorem uploadSlices_bounded (server : string) (session : UploadSession)
    (options : UploadSingleOptions) (this : t) (token : string) :
  accessToken this = Some token -> token <> "" ->
  normalizeServer server <> "" ->
  normalizeServer server <> "https:" ->
  normalizeServer server <> "https://" ->
  always (fun tr _ =>
            let totalSlices :=
              Z.max 0 (ceilDiv (uo_size options) (chunkSizeOf session)) in
            0 <= submissions (steps tr) <= 3 * totalSlices /\
            0 <= waited (steps tr) <= 3000 * totalSlices)
         (uploadSlices sparkMd5 server session options this).
Proof.
  intros Htoken Hne H1 H2 H3.
  destruct this as [tok]. cbn in Htoken. subst tok.
  destruct token as [|c token]; [congruence|].
  eapply always_mono; [|apply (uploadSlices_steps server session options c token H1 H2 H3)].
  intros tr x (ok & Hup & _). cbv zeta.
  apply (chunkedUpload_bounds _ _ _ _ _ (chunkSizeOf_pos session)) in Hup.
  replace (ceilDiv (uo_size options) (chunkSizeOf session) - (1 - 1))
    with (ceilDiv (uo_size options) (chunkSizeOf session)) in Hup by lia.
  exact Hup.
Qed.

(** X23. With a token and a valid server, when [uploadSlices] returns
    normally for a file whose declared size is its length, the chunks the
    server accepted, put end to end in the order sent, are exactly the
    bytes of the file: nothing missing, nothing twice. *)
Theorem uploadSlices_sends_every_byte (server : string) (session : UploadSession)
    (options : UploadSingleOptions) (this : t) (token : string) :
  accessToken this = Some token -> token <> "" ->
  normalizeServer server <> "" ->
  normalizeServer server <> "https:" ->
  normalizeServer server <> "https://" ->
  uo_size options = Z.of_nat (String.length (bytes (uo_file options))) ->
  always (fun tr x =>
            x.1 = Ok tt ->
            sent (uo_file options) (steps tr) = bytes (uo_file options))
         (uploadSlices sparkMd5 server session options this).
Proof.
  intros Htoken Hne H1 H2 H3 Hsize.
  destruct this as [tok]. cbn in Htoken. subst tok.
  destruct token as [|c token]; [congruence|].
  eapply always_mono; [|apply (uploadSlices_steps server session options c token H1 H2 H3)].
  intros tr x (ok & Hup & Hiff) Hok.
  rewrite (chunkedUpload_sent (uo_file options) _ _ _ _ _
             (chunkSizeOf_pos session) (Z.le_refl 1) Hup (proj1 Hiff Hok)).
  replace ((1 - 1) * chunkSizeOf session) with 0 by lia.
  rewrite Z.min_l by lia. rewrite Hsize, Z.sub_0_r, Nat2Z.id.
  apply substring_all.
Qed.

Ltac crunch :=
  repeat match goal with
         | |- forall _ : unit, _ => intros []
         | |- context [Z.leb ?a ?b] =>
             let v := eval vm_compute in (Z.leb a b) in
             first [constr_eq v true | constr_eq v false];
             change (Z.leb a b) with v
         | |- context [Z.ltb ?a ?b] =>
             let v := eval vm_compute in (Z.ltb a b) in
             first [constr_eq v true | constr_eq v false];
             change (Z.ltb a b) with v
         | _ => progress cbn
         | _ => progress (unfold MAX_SLICE_RETRIES, RETRY_DELAY)
         end.

(** X24. Without an access token (none, or the empty text) nothing is
    ever submitted: for a non-empty file [uploadSlices] still goes through
    the three attempts of the first chunk, waiting 1000 and then 2000 ms,
    and then raises the missing-credential error. *)
Theorem uploadSlices_without_token (server : string) (session : UploadSession)
    (options : UploadSingleOptions) (this : t) :
  accessToken this = None \/ accessToken this = Some "" ->
  0 < uo_size options ->
  normalizeServer server <> "" ->
  normalizeServer server <> "https:" ->
  normalizeServer server <> "https://" ->
  always (fun tr x =>
            x = (Err (mkError "尚未设置访问凭证"), this) /\
            events tr = [Sleep 1000; Sleep 2000])
         (uploadSlices sparkMd5 server session options this).
Proof.
  intros Htoken Hsize H1 H2 H3. unfold uploadSlices.
  apply String.eqb_neq in H1, H2, H3. rewrite H1, H2, H3. cbn [orb].
  apply always_bind.
  destruct (Z.to_nat (uo_size options)) as [|fuel] eqn:Hfuel; [lia|].
  cbn [sliceLoop]. destruct (Z.ltb_spec 0 (uo_size options)); [|lia].
  apply always_bind. unfold uploadSliceWithRetry.
  change (Z.to_nat MAX_SLICE_RETRIES) with 3%nat.
  destruct this as [tok]. cbn in Htoken.
  destruct Htoken as [-> | ->]; crunch; split; reflexivity.
Qed.

Lemma stripTrailing_cons (c a : ascii) (s : string) :
  a <> c -> Str.stripTrailing c (String a s) = String a (Str.stripTrailing c s).
Proof.
  intros Hne. simpl. destruct (Str.stripTrailing c s); [|reflexivity].
  apply Ascii.eqb_neq in Hne. now rewrite Hne.
Qed.

Lemma stripTrailing_step (c a : ascii) (s : string) :
  Str.stripTrailing c (String a s) =
  match Str.stripTrailing c s with
  | EmptyString => if Ascii.eqb a c then EmptyString else String a EmptyString
  | kept => String a kept
  end.
Proof. reflexivity. Qed.

Lemma stripTrailing_idem (c : ascii) (s : string) :
  Str.stripTrailing c (Str.stripTrailing c s) = Str.stripTrailing c s.
Proof.
  induction s as [|a s IH]; [reflexivity|]. rewrite stripTrailing_step.
  destruct (Str.stripTrailing c s) as [|b kept] eqn:Hs.
  - destruct (Ascii.eqb a c) eqn:Ha; [reflexivity|].
    rewrite stripTrailing_step. cbn. now rewrite Ha.
  - rewrite stripTrailing_step, IH. reflexivity.
Qed.

Lemma prefix_step (a b : ascii) (s1 s2 : string) :
  String.prefix (String a s1) (String b s2) =
  if ascii_dec a b then String.prefix s1 s2 else false.
Proof. reflexivity. Qed.

Lemma prefix_http_stripTrailing (s : string) :
  String.prefix "http" s = true ->
  String.prefix "http" (Str.stripTrailing "/" s) = true.
Proof.
  destruct s as [|a1 s]; [discriminate|]. rewrite prefix_step.
  destruct (ascii_dec "h" a1) as [<-|]; [|discriminate].
  destruct s as [|a2 s]; [discriminate|]. rewrite prefix_step.
  destruct (ascii_dec "t" a2) as [<-|]; [|discriminate].
  destruct s as [|a3 s]; [discriminate|]. rewrite prefix_step.
  destruct (ascii_dec "t" a3) as [<-|]; [|discriminate].
  destruct s as [|a4 s]; [discriminate|]. rewrite prefix_step.
  destruct (ascii_dec "p" a4) as [<-|]; [|discriminate].
  intros _. rewrite !stripTrailing_cons by discriminate.
  rewrite !prefix_step.
  repeat (destruct (ascii_dec _ _); [|congruence]).
  now destruct (Str.stripTrailing "/" s).
Qed.

(** X25. A normalised server address always starts with [http], so it is
    never empty; it is never ["https://"]; and normalising it again
    changes nothing.  Of the three addresses [uploadSlices] rejects, only
    ["https:"] can therefore occur. *)
Theorem normalizeServer_normal (server : string) :
  String.prefix "http" (normalizeServer server) = true /\
  normalizeServer server <> "" /\
  normalizeServer server <> "https://" /\
  normalizeServer (normalizeServer server) = normalizeServer server.
Proof.
  assert (Hp : String.prefix "http" (normalizeServer server) = true).
  { unfold normalizeServer.
    destruct (String.prefix "http" server) eqn:Hs; cbn [negb].
    - now apply prefix_http_stripTrailing.
    - apply prefix_http_stripTrailing. reflexivity. }
  assert (Hi : normalizeServer (normalizeServer server) = normalizeServer server).
  { unfold normalizeServer at 1. rewrite Hp. cbn [negb].
    unfold normalizeServer.
    destruct (negb (String.prefix "http" server)); apply stripTrailing_idem. }
  repeat split; auto.
  - intros Heq. rewrite Heq in Hp. discriminate.
  - intros Heq. rewrite Heq in Hi. vm_compute in Hi. discriminate.
Qed.

End UploaderFacts.

(** ** Trees of storage items *)

Section Trees.

Import StorageItem Tree.

Lemma StorageItem_induction (P : StorageItem -> Prop) :
  (forall p pp i fs, Forall P fs -> P (mkStorageItem p pp i fs)) ->
  forall s, P s.
Proof.
  intros step. fix IH 1. intros [p pp i fs]. apply step.
  revert fs. fix IHfs 1. intros [|c fs].
  - constructor.
  - constructor; [apply IH|apply IHfs].
Qed.

Lemma getFilesMap_valueAt (s : StorageItem) (p : string) :
  valueAt p (getFilesMap s) = childAt p (files s).
Proof.
  unfold getFilesMap.
  assert (Hk : keyed []) by (split; constructor).
  destruct (setAll_spec (files s) [] Hk) as [_ H]. rewrite H.
  now destruct (childAt p (files s)).
Qed.

(** X26. [addFile] never raises.  It appends one child, placed at
    [this.path/name] with [this.path] as its parent, and keeps everything
    else; [getFilesMap().get] then finds that child at its path (also when
    an older child had the same path) and finds at any other path what it
    found before. *)
Theorem addFile_then_lookup (i : FileInfo) (this : StorageItem) :
  let child :=
    mkStorageItem (path this ++ "/" ++ fi_name i) (Some (path this)) (Some i) [] in
  exists added : StorageItem,
    addFile i this = Ok added /\
    path added = path this /\ parentPath added = parentPath this /\
    item added = item this /\
    files added = (files this ++ [child])%list /\
    valueAt (path child) (getFilesMap added) = Some child /\
    forall p, p <> path child ->
              valueAt p (getFilesMap added) = valueAt p (getFilesMap this).
Proof.
  intros child. unfold addFile.
  assert (Hnew : new (path this ++ "/" ++ fi_name i)%string (Some (path this))
                   (Some i) [] = Ok child).
  { unfold new, child. now destruct (path this). }
  rewrite Hnew. eexists. split; [reflexivity|].
  cbn [path parentPath item files]. repeat split.
  - rewrite getFilesMap_valueAt. cbn [files]. rewrite childAt_snoc.
    now rewrite String.eqb_refl.
  - intros p Hne. rewrite !getFilesMap_valueAt. cbn [files].
    rewrite childAt_snoc.
    destruct (String.eqb_spec (path child) p); [congruence|reflexivity].
Qed.

Lemma mapFromObject_asObject (fs : list StorageItem) :
  Forall (fun c => fromObject (asObject c) = Ok c) fs ->
  (fix mapFromObject (fileObjs : list (option ItemObject)) :
       Result (list StorageItem) :=
     match fileObjs with
     | [] => Ok []
     | fileObj :: rest =>
         match match fileObj with
               | Some o => fromObject o
               | None => Err invalidObject
               end with
         | Err e => Err e
         | Ok child =>
             match mapFromObject rest with
             | Err e => Err e
             | Ok children => Ok (child :: children)
             end
         end
     end) (List.map (fun c => Some (asObject c)) fs) = Ok fs.
Proof.
  induction 1 as [|c fs Hc Hfs IH]; [reflexivity|].
  cbn [List.map]. rewrite Hc, IH. reflexivity.
Qed.

Lemma mapFromObject_sound (fs : list StorageItem) :
  Forall (fun c => fromObject (asObject c) = Ok c -> wellFormed c = true) fs ->
  (fix mapFromObject (fileObjs : list (option ItemObject)) :
       Result (list StorageItem) :=
     match fileObjs with
     | [] => Ok []
     | fileObj :: rest =>
         match match fileObj with
               | Some o => fromObject o
               | None => Err invalidObject
               end with
         | Err e => Err e
         | Ok child =>
             match mapFromObject rest with
             | Err e => Err e
             | Ok children => Ok (child :: children)
             end
         end
     end) (List.map (fun c => Some (asObject c)) fs) = Ok fs ->
  forallb wellFormed fs = true.
Proof.
  induction 1 as [|c fs Hc Hfs IH]; [reflexivity|].
  cbn [List.map forallb].
  destruct (fromObject (asObject c)) as [c'|e]; [|discriminate].
  match goal with
  | |- match ?m with _ => _ end = _ -> _ => destruct m as [cs|e]
  end; [|discriminate].
  intros [= -> ->]. rewrite Hc, IH; reflexivity.
Qed.

(** X27. [fromObject] rebuilds a tree from its plain-object form exactly
    when the tree is well formed: no path in it is empty and no parent
    path is the empty text.  An object without a path, or with an empty
    one, is rejected. *)
Theorem fromObject_round_trip (s : StorageItem) :
  (fromObject (asObject s) = Ok s <-> wellFormed s = true) /\
  (forall pp i fs,
     fromObject (mkItemObject None pp i fs) = Err invalidObject /\
     fromObject (mkItemObject (Some "") pp i fs) = Err invalidObject).
Proof.
  split; [|intros pp i fs; split; reflexivity].
  induction s as [p pp i fs IH] using StorageItem_induction.
  cbn [asObject wellFormed fromObject]. split.
  - destruct p as [|a p]; [discriminate|]. cbn [String.eqb negb andb].
    match goal with
    | |- match ?m with _ => _ end = _ -> _ => destruct m as [children|e] eqn:Hm
    end; [|discriminate].
    cbn [new]. intros [= Hpp ->].
    apply mapFromObject_sound in Hm.
    + rewrite Hm. now destruct pp as [[|b pp]|].
    + eapply Forall_impl; [exact IH|]. cbn. tauto.
  - intros H. apply andb_prop in H as [H Hfs]. apply andb_prop in H as [Hp Hpp].
    destruct p as [|a p]; [discriminate|].
    rewrite mapFromObject_asObject.
    + cbn [new]. now destruct pp as [[|b pp]|].
    + rewrite forallb_forall in Hfs. rewrite Forall_forall in IH |- *.
      intros c Hin. apply IH; [exact Hin|]. apply Hfs. now apply list_elem_of_In.
Qed.

Lemma iterate_unfold (s : StorageItem) :
  iterateStorageItem s = s :: flat_map iterateStorageItem (files s).
Proof. now destruct s. Qed.

Lemma childFiles_unfold (s : StorageItem) :
  getAllChildFiles s =
  flat_map (fun file => if isDir file then getAllChildFiles file else [file])
    (files s).
Proof. now destruct s. Qed.

Lemma childDirectories_unfold (s : StorageItem) :
  getAllChildDirectories s =
  flat_map (fun file =>
              if isDir file then file :: getAllChildDirectories file else [])
    (files s).
Proof. now destruct s. Qed.

Lemma leavesAreFiles_unfold (s : StorageItem) :
  leavesAreFiles s =
  forallb (fun c => (isDir c || match files c with [] => true | _ => false end) &&
                    leavesAreFiles c) (files s).
Proof. now destruct s. Qed.

Lemma flat_map_split {A B : Type} (g f1 f2 : A -> list B) (l : list A) :
  Forall (fun c => g c ≡ₚ (f1 c ++ f2 c)%list) l ->
  flat_map g l ≡ₚ (flat_map f1 l ++ flat_map f2 l)%list.
Proof.
  induction 1 as [|c l Hc Hl IH]; [reflexivity|].
  cbn [flat_map]. rewrite Hc, IH. rewrite <- !app_assoc.
  apply Permutation_app_head. rewrite !app_assoc.
  apply Permutation_app_tail. apply Permutation_app_comm.
Qed.

(** X28. The two recursive listings sort the descendants by kind:
    [getAllChildFiles] yields only items that are no directories,
    [getAllChildDirectories] only directories, and both only items the
    iteration yields after the item itself.  In a tree where only
    directories have children, the iteration yields the item itself and
    then, up to order, exactly the files and the directories, each once. *)
Theorem listings_partition (s : StorageItem) :
  Forall (fun c => isDir c = false) (getAllChildFiles s) /\
  Forall (fun c => isDir c = true) (getAllChildDirectories s) /\
  (forall c, In c (getAllChildFiles s ++ getAllChildDirectories s)%list ->
             In c (tail (iterateStorageItem s))) /\
  (leavesAreFiles s = true ->
   iterateStorageItem s ≡ₚ
   s :: (getAllChildFiles s ++ getAllChildDirectories s)%list).
Proof.
  induction s as [p pp i fs IH] using StorageItem_induction.
  rewrite iterate_unfold, childFiles_unfold, childDirectories_unfold,
    leavesAreFiles_unfold.
  cbn [files tail]. split; [|split; [|split]].
  - apply List.Forall_flat_map. eapply Forall_impl; [exact IH|].
    cbn. intros c (Hf & _). destruct (isDir c) eqn:Hc; [exact Hf|].
    now repeat constructor.
  - apply List.Forall_flat_map. eapply Forall_impl; [exact IH|].
    cbn. intros c (_ & Hd & _). destruct (isDir c) eqn:Hc; [|constructor].
    now constructor.
  - intros x Hx. apply in_flat_map.
    apply in_app_or in Hx as [Hx|Hx]; apply in_flat_map in Hx as (c & Hc & Hx);
      exists c; (split; [exact Hc|]);
      rewrite List.Forall_forall in IH; destruct (IH c Hc) as (_ & _ & Hin & _);
      rewrite iterate_unfold in Hin |- *; cbn [tail] in Hin; destruct (isDir c).
    + right. apply Hin. apply in_or_app. now left.
    + destruct Hx as [->|[]]. now left.
    + destruct Hx as [->|Hx]; [now left|].
      right. apply Hin. apply in_or_app. now right.
    + destruct Hx.
  - intros Hleaves. apply Permutation_cons; [reflexivity|].
    apply flat_map_split.
    rewrite forallb_forall in Hleaves. rewrite List.Forall_forall in IH |- *.
    intros c Hc. destruct (IH c Hc) as (_ & _ & _ & Hperm).
    specialize (Hleaves c Hc). apply andb_prop in Hleaves as [Hkind Hsub].
    destruct (isDir c) eqn:Hdir.
    + rewrite (Hperm Hsub). apply Permutation_middle.
    + cbn in Hkind. rewrite iterate_unfold.
      destruct (files c); [reflexivity|discriminate].
Qed.

End Trees.

(** ** The hub's side of a directory *)

Section CloudDirectory.

Import StorageItem Tree Text.

Lemma prefix_nil (s : string) : String.prefix "" s = true.
Proof. now destruct s. Qed.

Lemma prefix_spec (p s : string) :
  String.prefix p s = true <-> exists r, s = (p ++ r)%string.
Proof.
  revert s. induction p as [|a p IH]; intros s.
  - rewrite prefix_nil. split; [|reflexivity]. intros _. now exists s.
  - destruct s as [|b s].
    + split; [discriminate|]. intros [r Hr]. discriminate.
    + rewrite prefix_step. destruct (ascii_dec a b) as [<-|Hne].
      * rewrite IH. split; intros [r Hr]; exists r.
        -- now rewrite Hr.
        -- now injection Hr.
      * split; [discriminate|]. intros [r Hr]. injection Hr as Hab _. congruence.
Qed.

Lemma substringFrom_app (p r : string) :
  substringFrom (String.length p) (p ++ r) = r.
Proof. induction p as [|a p IH]; [now destruct r|exact IH]. Qed.

Lemma substringFrom_past (n : nat) (s : string) :
  (String.length s <= n)%nat -> substringFrom n s = "".
Proof.
  revert n. induction s as [|a s IH]; intros [|n] H; cbn in *;
    try reflexivity; try lia.
  apply IH. lia.
Qed.

Lemma split_clean (c : ascii) (s : string) :
  Str.includes c s = false -> split c s = [s].
Proof.
  induction s as [|a s IH]; cbn; [reflexivity|].
  intros H. apply orb_false_iff in H as [Ha H]. rewrite Ha, (IH H). reflexivity.
Qed.

Lemma split_many (c : ascii) (s : string) :
  Str.includes c s = true -> exists x y l, split c s = x :: y :: l.
Proof.
  induction s as [|a s IH]; cbn; [discriminate|].
  destruct (Ascii.eqb a c); cbn.
  - intros _. destruct (Str.includes c s) eqn:Hs.
    + destruct (IH eq_refl) as (x & y & l & ->). eauto.
    + rewrite (split_clean c s Hs). eauto.
  - intros H. destruct (IH H) as (x & y & l & ->). eauto.
Qed.

(** A key names a direct child of [basePath]. *)
Lemma direct_child_test (basePath filePath : string) :
  (exists part : string,
     part <> "" /\
     (String.prefix (basePath ++ "/") filePath || String.eqb filePath basePath) = true /\
     split "/" (substringFrom (String.length basePath + 1) filePath) = [part])
  <->
  (exists seg : string,
     filePath = (basePath ++ "/" ++ seg)%string /\ seg <> "" /\
     Str.includes "/" seg = false).
Proof.
  split.
  - intros (part & Hne & Htest & Hsplit).
    apply orb_true_iff in Htest as [Hpre|Heq].
    + apply prefix_spec in Hpre as [rel ->].
      replace (String.length basePath + 1)%nat
        with (String.length (basePath ++ "/")) in Hsplit
        by (rewrite strlen_app; reflexivity).
      rewrite substringFrom_app in Hsplit.
      exists rel. rewrite strapp_assoc. split; [reflexivity|].
      destruct (Str.includes "/" rel) eqn:Hrel.
      * destruct (split_many _ _ Hrel) as (x & y & l & Hs). congruence.
      * rewrite (split_clean _ _ Hrel) in Hsplit. injection Hsplit as ->. auto.
    + apply String.eqb_eq in Heq. subst filePath.
      rewrite substringFrom_past in Hsplit by lia.
      cbn in Hsplit. congruence.
  - intros (seg & -> & Hne & Hno). exists seg. split; [exact Hne|]. split.
    + apply orb_true_iff. left. apply prefix_spec. exists seg.
      now rewrite strapp_assoc.
    + rewrite <- strapp_assoc.
      replace (String.length basePath + 1)%nat
        with (String.length (basePath ++ "/")) by (rewrite strlen_app; reflexivity).
      rewrite substringFrom_app. now apply split_clean.
Qed.

Lemma addFile_child (info : CloudFileInfo) (this : StorageItem) :
  addFile (fileInfoOf info) this =
  Ok (mkStorageItem (path this) (parentPath this) (item this)
        (files this ++ [childOf (path this) info])).
Proof.
  unfold addFile, childOf, new. cbn [fi_name fileInfoOf].
  now destruct (path this).
Qed.

Lemma addIfDirectChild_spec (basePath : string) (this : StorageItem)
    (key : string) (info : CloudFileInfo) :
  path this = basePath ->
  ((exists seg : string,
      key = (basePath ++ "/" ++ seg)%string /\ seg <> "" /\
      Str.includes "/" seg = false) /\
   addIfDirectChild basePath (Ok this) (key, info) =
   Ok (mkStorageItem (path this) (parentPath this) (item this)
         (files this ++ [childOf basePath info]))) \/
  (~ (exists seg : string,
        key = (basePath ++ "/" ++ seg)%string /\ seg <> "" /\
        Str.includes "/" seg = false) /\
   addIfDirectChild basePath (Ok this) (key, info) = Ok this).
Proof.
  intros Hpath. rewrite <- direct_child_test.
  unfold addIfDirectChild. cbn [fst snd].
  destruct (String.prefix (basePath ++ "/") key || String.eqb key basePath) eqn:Htest.
  2: { right. split; [|reflexivity]. intros (q & _ & H & _). discriminate. }
  destruct (split "/" (substringFrom (String.length basePath + 1) key))
    as [|part [|y l]] eqn:Hsplit.
  - right. split; [|reflexivity]. intros (q & _ & _ & H). discriminate.
  - destruct part as [|a part].
    + right. split; [|reflexivity]. intros (q & Hne & _ & [= <-]). congruence.
    + left. split.
      * exists (String a part). repeat split. discriminate.
      * rewrite addFile_child, Hpath. reflexivity.
  - right. split; [|reflexivity]. intros (q & _ & _ & H). discriminate.
Qed.

Lemma fold_addIfDirectChild (basePath : string) (cloudFiles : list (string * CloudFileInfo)) :
  forall this : StorageItem,
    path this = basePath ->
    exists children : list StorageItem,
      fold_left (addIfDirectChild basePath) cloudFiles (Ok this) =
      Ok (mkStorageItem (path this) (parentPath this) (item this)
            (files this ++ children)) /\
      forall c,
        In c children <->
        exists key info seg,
          In (key, info) cloudFiles /\
          key = (basePath ++ "/" ++ seg)%string /\ seg <> "" /\
          Str.includes "/" seg = false /\ c = childOf basePath info.
Proof.
  induction cloudFiles as [|[key info] rest IH]; intros this Hpath.
  - exists []. cbn. rewrite app_nil_r. split; [now destruct this|].
    intros c. split; [intros []|]. now intros (? & ? & ? & [] & _).
  - cbn [fold_left].
    destruct (addIfDirectChild_spec basePath this key info Hpath)
      as [[Hdirect ->]|[Hnot ->]].
    + destruct (IH (mkStorageItem (path this) (parentPath this) (item this)
                      (files this ++ [childOf basePath info])) Hpath)
        as (children & Hfold & Hin).
      exists (childOf basePath info :: children). cbn [path parentPath item files] in Hfold.
      rewrite Hfold, <- app_assoc. split; [reflexivity|].
      intros c. cbn [In]. rewrite Hin. split.
      * intros [<-|(k & i & seg & Hk & Hrest)].
        -- destruct Hdirect as (seg & Hseg). exists key, info, seg.
           split; [now left|]. tauto.
        -- exists k, i, seg. split; [now right|exact Hrest].
      * intros (k & i & seg & Hk & Hrest). destruct Hk as [[= <- <-]|Hk].
        -- left. symmetry. apply Hrest.
        -- right. eauto 10.
    + destruct (IH this Hpath) as (children & Hfold & Hin).
      exists children. split; [exact Hfold|].
      intros c. rewrite Hin. split.
      * intros (k & i & seg & Hk & Hrest). exists k, i, seg.
        split; [now right|exact Hrest].
      * intros (k & i & seg & Hk & Hrest). destruct Hk as [[= <- <-]|Hk].
        -- exfalso. apply Hnot. exists seg. tauto.
        -- eauto 10.
Qed.

(** X29. [buildCloudItemFromIndex] lists the direct children only.  For a
    non-empty base path it returns an item at that path whose children
    are exactly those made of the index entries whose key is the base
    path, a slash and one non-empty segment without a slash; each sits at
    [basePath/name] with the base path as parent.  Entries at the base
    path itself, outside it, or nested deeper contribute nothing, not
    even a directory.  With an empty base path it raises. *)
Theorem buildCloudItemFromIndex_direct_children (basePath : string)
    (cloudFiles : list (string * CloudFileInfo)) :
  (basePath <> "" ->
   exists s : StorageItem,
     buildCloudItemFromIndex basePath cloudFiles = Ok s /\
     path s = basePath /\ parentPath s = None /\ item s = None /\
     forall c,
       In c (files s) <->
       exists key info seg,
         In (key, info) cloudFiles /\
         key = (basePath ++ "/" ++ seg)%string /\ seg <> "" /\
         Str.includes "/" seg = false /\ c = childOf basePath info) /\
  (basePath = "" ->
   exists e, buildCloudItemFromIndex basePath cloudFiles = Err e).
Proof.
  unfold buildCloudItemFromIndex, new. split.
  - intros Hne. destruct basePath as [|a basePath]; [congruence|].
    destruct (fold_addIfDirectChild (String a basePath) cloudFiles
                (mkStorageItem (String a basePath) None None []) eq_refl)
      as (children & Hfold & Hin).
    rewrite Hfold. eexists. split; [reflexivity|]. repeat split; apply Hin.
  - intros ->. eauto.
Qed.

End CloudDirectory.

(** ** Histories *)

Section Histories.

Import SyncHistory.

(** X30. [getMostRecentSyncTime] is the largest recorded time: 0 for an
    empty history; otherwise a time that is recorded for some peer and is
    at least every recorded time (so a history of negative times gives a
    negative answer, not 0).  Once step 5 of [sync] has stamped a history
    with a time [t] that no recorded time exceeds, [t] is both the last
    sync with that peer and the most recent sync, the times of the other
    peers are untouched, and on the next run an item missing on one side
    counts as deleted exactly when [t] is positive and the surviving copy
    is older than [t]. *)
Theorem stamped_history (r : Remote) (peerId : string) (t : Z) :
  (syncHistory r = ∅ -> getMostRecentSyncTime r = 0) /\
  (forall id v, syncHistory r !! id = Some v -> v <= getMostRecentSyncTime r) /\
  (syncHistory r <> ∅ ->
   exists id, syncHistory r !! id = Some (getMostRecentSyncTime r)) /\
  ((forall id v, syncHistory r !! id = Some v -> v <= t) ->
   getLastSyncWithRemote (stamp peerId t r) (Some peerId) = t /\
   getMostRecentSyncTime (stamp peerId t r) = t /\
   (forall other, other <> peerId ->
      getLastSyncWithRemote (stamp peerId t r) (Some other) =
      getLastSyncWithRemote r (Some other)) /\
   (forall existingTimestamp,
      shouldDeleteOf (getLastSyncWithRemote (stamp peerId t r) (Some peerId))
        existingTimestamp (getMostRecentSyncTime (stamp peerId t r)) = true <->
      0 < t /\ existingTimestamp < t)).
Proof.
  split; [|split; [|split]].
  - intros He. unfold getMostRecentSyncTime. rewrite He.
    now rewrite map_to_list_empty.
  - intros id v. apply getMostRecentSyncTime_upper.
  - apply getMostRecentSyncTime_attained.
  - intros Hle.
    assert (Hlast : getLastSyncWithRemote (stamp peerId t r) (Some peerId) = t).
    { apply getLastSyncWithRemote_lookup. cbn. apply lookup_insert_eq. }
    assert (Hmost : getMostRecentSyncTime (stamp peerId t r) = t).
    { apply Z.le_antisymm.
      - destruct (getMostRecentSyncTime_attained (stamp peerId t r)) as [id Hid].
        { cbn. apply insert_non_empty. }
        cbn in Hid. destruct (decide (id = peerId)) as [->|Hne].
        + rewrite lookup_insert_eq in Hid. injection Hid as <-. lia.
        + rewrite lookup_insert_ne in Hid by congruence. eapply Hle, Hid.
      - apply (getMostRecentSyncTime_upper _ peerId). cbn. apply lookup_insert_eq. }
    split; [exact Hlast|]. split; [exact Hmost|]. split.
    + intros other Hne. unfold getLastSyncWithRemote. cbn.
      now rewrite lookup_insert_ne by congruence.
    + intros existingTimestamp. rewrite Hlast, Hmost, shouldDeleteOf_spec. lia.
Qed.

End Histories.

(** ** The further properties at sample inputs *)

Lemma index_version_invariant_witness :
  always (fun _ x => wellVersioned x.2)
    (CloudIndexManager.updateFile "data/b.sy" Scenario.note Sample.cachedIndex) /\
  always (fun _ x => wellVersioned x.2)
    (CloudIndexManager.removeFiles ["data/a.sy"] Sample.cachedIndex).
Proof.
  pose proof (index_version_invariant Sample.cachedIndex "data/b.sy" Scenario.note
                [] ["data/a.sy"] "hub-1" (Some CloudIndexManager.Cached)
                eq_refl) as H.
  cbv zeta in H. destruct H as (_ & _ & Hup & _ & _ & Hrm & _).
  split; [exact Hup|exact Hrm].
Defined.

Lemma shouldExcludePath_by_name_witness :
  shouldExcludePath "data/.siyuan" dataTarget = true /\
  shouldExcludePath "data/.siyuan/conf.json" dataTarget =
  shouldExcludePath "conf.json" dataTarget.
Proof.
  destruct (shouldExcludePath_by_name "data" ".siyuan" dataTarget eq_refl)
    as [Hsame Hiff].
  destruct (shouldExcludePath_by_name "data/.siyuan" "conf.json" dataTarget eq_refl)
    as [Hbelow _].
  split; [|exact Hbelow].
  change (shouldExcludePath ("data" ++ "/" ++ ".siyuan") dataTarget = true).
  rewrite Hsame. apply Hiff. exists [".siyuan"]. split; [reflexivity|left].
Defined.

Lemma uploadSlices_bounded_witness :
  always (fun tr _ =>
            0 <= submissions (steps tr) <= 9 /\ 0 <= waited (steps tr) <= 9000)
         (Pan123Client.uploadSlices (fun data => data) "upload.example.com/"
            Sample.fourByteChunks Sample.tenBytes
            (Pan123Client.mk (Some "token"))).
Proof.
  apply (uploadSlices_bounded (fun data => data) "upload.example.com/"
           Sample.fourByteChunks Sample.tenBytes
           (Pan123Client.mk (Some "token")) "token").
  - reflexivity.
  - discriminate.
  - vm_compute. discriminate.
  - vm_compute. discriminate.
  - vm_compute. discriminate.
Defined.

Lemma uploadSlices_sends_every_byte_witness :
  always (fun tr x =>
            x.1 = Ok tt ->
            sent (Pan123Client.mkFile "0123456789") (steps tr) = "0123456789")
         (Pan123Client.uploadSlices (fun data => data) "upload.example.com/"
            Sample.fourByteChunks Sample.tenBytes
            (Pan123Client.mk (Some "token"))).
Proof.
  apply (uploadSlices_sends_every_byte (fun data => data) "upload.example.com/"
           Sample.fourByteChunks Sample.tenBytes
           (Pan123Client.mk (Some "token")) "token").
  - reflexivity.
  - discriminate.
  - vm_compute. discriminate.
  - vm_compute. discriminate.
  - vm_compute. discriminate.
  - reflexivity.
Defined.

Lemma uploadSlices_without_token_witness :
  always (fun tr x =>
            x = (Err (mkError "尚未设置访问凭证"), Pan123Client.mk None) /\
            events tr = [Sleep 1000; Sleep 2000])
         (Pan123Client.uploadSlices (fun data => data) "upload.example.com/"
            Sample.fourByteChunks Sample.tenBytes (Pan123Client.mk None)).
Proof.
  apply (uploadSlices_without_token (fun data => data) "upload.example.com/"
           Sample.fourByteChunks Sample.tenBytes (Pan123Client.mk None)).
  - left. reflexivity.
  - reflexivity.
  - vm_compute. discriminate.
  - vm_compute. discriminate.
  - vm_compute. discriminate.
Defined.

Lemma syncFile_one_way_witness :
  always (fun tr _ => Forall (fun ev => touchesDisk ev = false) (mutations tr))
         (syncFile World.utcFormattedDate "data/a.sy" (Some Sample.a130)
            (Some Sample.a120) Sample.localRemote Sample.cloudRemote
            (Some dataTarget) (Scenario.manager keepRemote)) /\
  always (fun tr _ =>
            Forall (fun ev =>
                      touchesHub ev = false /\
                      (ev = DownloadCloudFileToLocal (Some 21) "data/a.sy" 130 \/
                       exists body,
                         ev = KernelPutFile
                                (conflictPath World.utcFormattedDate "data/a.sy" 120)
                                body 120))
                   (mutations tr))
         (syncFile World.utcFormattedDate "data/a.sy" (Some Sample.a120)
            (Some Sample.a130) Sample.localRemote Sample.cloudRemote
            (Some dataTarget) (Scenario.manager keepBoth)).
Proof.
  split.
  - apply (syncFile_one_way World.utcFormattedDate "data/a.sy" Sample.a130
             Sample.a120 Sample.localRemote Sample.cloudRemote (Some dataTarget)
             (Scenario.manager keepRemote)).
    reflexivity.
  - apply (syncFile_one_way World.utcFormattedDate "data/a.sy" Sample.a120
             Sample.a130 Sample.localRemote Sample.cloudRemote (Some dataTarget)
             (Scenario.manager keepBoth)).
    reflexivity.
Defined.

Lemma encodePathToFileName_collides_witness :
  encodePathToFileName "data/a.sy" = "data_a.sy" /\
  encodePathToFileName "data/a.sy" <> "data/a.sy" /\
  encodePathToFileName (encodePathToFileName "data/a.sy") =
  encodePathToFileName "data/a.sy".
Proof.
  destruct (encodePathToFileName_collides "data/a.sy") as (_ & _ & H).
  split; [reflexivity|]. apply H. reflexivity.
Defined.

Lemma decode_encode_round_trip_witness :
  decodeFileNameToPath (encodePathToFileName "/data/a.sy") = "data/a.sy" /\
  encodePathToFileName (decodeFileNameToPath "data_a.sy") = "data_a.sy".
Proof.
  split.
  - apply (decode_encode_round_trip "/data/a.sy"). reflexivity.
  - apply (decode_encode_round_trip "data_a.sy"). reflexivity.
Defined.

Lemma listings_partition_witness :
  Tree.iterateStorageItem Sample.localTree ≡ₚ
  Sample.localTree ::
    (Tree.getAllChildFiles Sample.localTree ++
     Tree.getAllChildDirectories Sample.localTree)%list.
Proof. apply (listings_partition Sample.localTree). reflexivity. Defined.

Lemma buildCloudItemFromIndex_direct_children_witness :
  exists s : StorageItem,
    buildCloudItemFromIndex "data"
      [("data/a.sy", Scenario.note); ("data/sub/a.sy", Scenario.note);
       ("conf/a.sy", Scenario.note)] = Ok s /\
    StorageItem.path s = "data" /\
    In (childOf "data" Scenario.note) (StorageItem.files s).
Proof.
  destruct (buildCloudItemFromIndex_direct_children "data"
              [("data/a.sy", Scenario.note); ("data/sub/a.sy", Scenario.note);
               ("conf/a.sy", Scenario.note)]) as [H _].
  destruct H as (s & Hs & Hpath & _ & _ & Hin); [discriminate|].
  exists s. split; [exact Hs|]. split; [exact Hpath|].
  apply Hin. exists "data/a.sy", Scenario.note, "a.sy".
  split; [now left|]. repeat split. discriminate.
Defined.

Lemma stamped_history_witness :
  SyncHistory.getLastSyncWithRemote (stamp "hub-1" 200 Sample.localRemote)
    (Some "hub-1") = 200 /\
  SyncHistory.getMostRecentSyncTime (stamp "hub-1" 200 Sample.localRemote) = 200.
Proof.
  destruct (stamped_history Sample.localRemote "hub-1" 200) as (_ & _ & _ & H).
  destruct H as (Hlast & Hmost & _).
  - intros id v Hv. cbn in Hv. apply lookup_singleton_Some in Hv as [_ <-]. lia.
  - split; [exact Hlast|exact Hmost].
Defined.
